(** * pdftomarkd: the PDF to Markdown converter, its folder watcher and its CLI

    A shallow embedding of [pdftomarkd/__main__.py].  The PDF engine
    (PyMuPDF), the file system, the logger and the console are external
    to the program: the engine is modelled by the data it hands back
    (documents, pages, blocks, lines, spans, images), the rest by an
    explicit world that the program's functions thread through a small
    state-and-exception monad. *)

From Stdlib Require Import ZArith String Ascii List Lia DecimalString.
From Stdlib Require DecimalNat.
From stdpp Require Import base gmap strings list.
Import ListNotations.
Local Open Scope string_scope.
Local Open Scope list_scope.

(** ** Strings

    A Python [str] is modelled by [string]; each character stands for the
    code point of the same number (code points below 256). *)

Definition LF : string := String (ascii_of_nat 10) EmptyString.

(** [sep.join(l)] *)
Fixpoint join (sep : string) (l : list string) : string :=
  match l with
  | [] => ""
  | [x] => x
  | x :: rest => x +:+ sep +:+ join sep rest
  end.

(** [str.isspace] on one character, for code points below 256. *)
Definition isspace (c : ascii) : bool :=
  let n := nat_of_ascii c in
  ((9 <=? n)%nat && (n <=? 13)%nat) || ((28 <=? n)%nat && (n <=? 32)%nat)
  || (n =? 133)%nat || (n =? 160)%nat.

Fixpoint lstrip (s : string) : string :=
  match s with
  | EmptyString => EmptyString
  | String c rest => if isspace c then lstrip rest else s
  end.

Fixpoint string_rev (s : string) : string :=
  match s with
  | EmptyString => EmptyString
  | String c rest => string_rev rest +:+ String c EmptyString
  end.

Definition rstrip (s : string) : string := string_rev (lstrip (string_rev s)).

(** [s.strip()] *)
Definition strip (s : string) : string := rstrip (lstrip s).

(** Truthiness of a [str]: the empty string is falsy. *)
Definition truthy_str (s : string) : bool :=
  match s with EmptyString => false | _ => true end.

(** Truthiness of an [int]. *)
Definition truthy_int (z : Z) : bool := negb (z =? 0)%Z.

(** [str(n)] for a non-negative integer. *)
Definition str_of_nat (n : nat) : string :=
  NilEmpty.string_of_uint (Nat.to_uint n).

(** ** What the PDF engine returns *)

(** A span of [page.get_text("dict")]: its ["text"] and ["flags"]. *)
Record span := mkSpan { span_text : string; span_flags : Z }.

Record line := mkLine { line_spans : list span }.

(** A block is a text block (it has the key ["lines"]) or another kind of
    block, an image block, without that key. *)
Inductive block :=
| TextBlock (lines : list line)
| OtherBlock.

(** The result of [doc.extract_image(xref)]: the keys ["image"], ["ext"]. *)
Record image := mkImage { image_bytes : string; image_ext : string }.

(** A page: [get_text("dict")["blocks"]], [get_text()], and the xref (the
    first component) of each entry of [get_images(full=True)]. *)
Record page := mkPage {
  page_blocks : list block;
  page_text : string;
  page_images : list Z
}.

(** A document: [doc.metadata], its pages in order, and what
    [doc.extract_image] returns for an xref (raising where undefined).
    A [None] value of the metadata dict is modelled as a missing key:
    [metadata.get] is falsy for both. *)
Record document := mkDocument {
  doc_metadata : gmap string string;
  doc_pages : list page;
  doc_images : gmap Z image
}.

(** ** The text of a page (lines 50 to 80) *)

Definition BOLD : Z := 2 ^ 4.
Definition ITALIC : Z := 2 ^ 1.

(** Lines 60 to 67: the text of one span with its emphasis markers. *)
Definition format_span (s : span) : string :=
  let text := span_text s in
  let flags := span_flags s in
  let text := if truthy_int (Z.land flags BOLD)
              then "**" +:+ text +:+ "**" else text in
  let text := if truthy_int (Z.land flags ITALIC)
              then "*" +:+ text +:+ "*" else text in
  text.

(** Lines 58 to 69: [line_text], grown by [append] span after span. *)
Definition line_text (l : line) : list string :=
  fold_left (fun acc s => acc ++ [format_span s]) (line_spans l) [].

(** Lines 56 to 72: [paragraph]; a line is entered when its [line_text]
    list is not empty. *)
Definition paragraph (lines : list line) : list string :=
  fold_left
    (fun acc l =>
       match line_text l with
       | [] => acc
       | lt => acc ++ [join "" lt]
       end)
    lines [].

(** Lines 55 to 75: what one block appends to [markdown_content]. *)
Definition block_fragments (b : block) : list string :=
  match b with
  | TextBlock lines =>
      match paragraph lines with
      | [] => []
      | par => [join " " par +:+ LF +:+ LF]
      end
  | OtherBlock => []
  end.

(** Lines 50 to 80: what the text of one page appends to
    [markdown_content]. *)
Definition page_fragments (preserve_formatting : bool) (pg : page)
  : list string :=
  if preserve_formatting then
    fold_left (fun acc b => acc ++ block_fragments b) (page_blocks pg) []
  else
    let text := page_text pg in
    if truthy_str (strip text) then [text +:+ LF +:+ LF] else [].

(** ** Paths

    A [pathlib.Path] of the POSIX flavour, as pathlib keeps it: whether
    it starts at the root, and its components.  [Path(".")] has no
    component. *)
Record Path := mkPath { anchored : bool; parts : list string }.

#[global] Instance Path_eq_dec : EqDecision Path.
Proof. solve_decision. Defined.

#[global] Instance Path_countable : Countable Path :=
  inj_countable' (fun p => (anchored p, parts p))
                 (fun q => mkPath q.1 q.2)
                 (fun p => match p with mkPath _ _ => eq_refl end).

Definition is_slash (c : ascii) : bool := (nat_of_ascii c =? 47)%nat.
Definition is_dot (c : ascii) : bool := (nat_of_ascii c =? 46)%nat.

(** The pieces of a string between its slashes. *)
Fixpoint components (s : string) : list string :=
  match s with
  | EmptyString => [""]
  | String c rest =>
      match components rest with
      | [] => []
      | h :: t => if is_slash c then "" :: h :: t else String c h :: t
      end
  end.

Definition starts_with_slash (s : string) : bool :=
  match s with String c _ => is_slash c | EmptyString => false end.

Definition real_component (s : string) : bool :=
  negb (String.eqb s "") && negb (String.eqb s ".").

(** [Path(s)]: empty and ["."] components are dropped. *)
Definition parse_path (s : string) : Path :=
  mkPath (starts_with_slash s) (filter (fun x => real_component x = true)
                                       (components s)).

(** [p.name] *)
Definition name (p : Path) : string := List.last (parts p) "".

(** [p.parent] *)
Definition parent (p : Path) : Path :=
  mkPath (anchored p) (removelast (parts p)).

(** [p / s] for a string [s]. *)
Definition joinpath (p : Path) (s : string) : Path :=
  let q := parse_path s in
  if anchored q then q else mkPath (anchored p) (parts p ++ parts q).

(** A name cut at its last dot: what is before it, and the rest from the
    dot on. *)
Fixpoint split_last_dot (s : string) : option (string * string) :=
  match s with
  | EmptyString => None
  | String c rest =>
      match split_last_dot rest with
      | Some (a, b) => Some (String c a, b)
      | None => if is_dot c then Some ("", s) else None
      end
  end.

(** [name.rfind('.')] is [i] with [0 < i < len(name) - 1]. *)
Definition stem_suffix (nm : string) : string * string :=
  match split_last_dot nm with
  | Some (a, b) =>
      if truthy_str a && (1 <? String.length b)%nat then (a, b) else (nm, "")
  | None => (nm, "")
  end.

(** [p.suffix] *)
Definition suffix (p : Path) : string := snd (stem_suffix (name p)).

(** [p.stem] *)
Definition stem (p : Path) : string := fst (stem_suffix (name p)).

(** [p.with_suffix(suf)]: [ValueError] (here [None]) on an empty name. *)
Definition with_suffix (p : Path) (suf : string) : option Path :=
  if truthy_str (name p)
  then Some (mkPath (anchored p) (removelast (parts p) ++ [stem p +:+ suf]))
  else None.

(** [str(p)] *)
Definition path_str (p : Path) : string :=
  if anchored p then "/" +:+ join "/" (parts p)
  else match parts p with [] => "." | ps => join "/" ps end.

Definition ends_with (suf s : string) : bool :=
  String.prefix (string_rev suf) (string_rev s).

(** [s.lower()] on code points below 256. *)
Definition lower_char (c : ascii) : ascii :=
  let n := nat_of_ascii c in
  if ((65 <=? n)%nat && (n <=? 90)%nat)
     || ((192 <=? n)%nat && (n <=? 222)%nat && negb (n =? 215)%nat)
  then ascii_of_nat (n + 32) else c.

Fixpoint lower (s : string) : string :=
  match s with
  | EmptyString => EmptyString
  | String c rest => String (lower_char c) (lower rest)
  end.

(** ** The world outside the program *)

(** A file holds a PDF that the engine can open (given by its size and
    the document the engine reads from it), bytes written by
    [write_bytes], or text written by [write_text]. *)
Inductive file :=
| PdfFile (size : positive) (doc : document)
| BytesFile (data : string)
| TextFile (text : string).

(** Length of the UTF-8 encoding, for code points below 256. *)
Fixpoint utf8_length (s : string) : N :=
  match s with
  | EmptyString => 0
  | String c rest =>
      (if (nat_of_ascii c <? 128)%nat then 1 else 2) + utf8_length rest
  end%N.

Definition file_size (f : file) : N :=
  match f with
  | PdfFile size _ => Npos size
  | BytesFile data => N.of_nat (String.length data)
  | TextFile text => utf8_length text
  end.

(** Size that [stat] reports for a directory. *)
Definition DIR_SIZE : N := 4096.

Inductive level := INFO | SUCCESS | ERROR.

(** What the program does to the outside, with the result it gets. *)
Inductive event :=
| EvOpen (p : Path) (ok : bool)
| EvClose (p : Path)
| EvWriteBytes (p : Path) (data : string) (ok : bool)
| EvWriteText (p : Path) (text : string) (ok : bool)
| EvMkdir (p : Path) (ok : bool)
| EvGlob (folder : Path) (found : list Path)
| EvExists (p : Path) (b : bool)
| EvIsDir (p : Path) (b : bool)
| EvStat (p : Path) (size : N)
| EvSleep (secs : nat)
| EvLog (lv : level) (msg : string)
| EvPrint (msg : string).

(** What the operating system or the PDF engine refuses to do. *)
Inductive failure :=
| CannotOpen (p : Path)
| CannotExtract (xref : Z)
| CannotWrite (p : Path)
| CannotMkdir (p : Path)
| CannotStat (p : Path).

(** The world: files and directories; what other processes do to the
    files during the second that starts at a given time; the clock, in
    seconds; the number of interruptible operations left before Ctrl+C
    arrives, if it does; the events so far, the latest first; and two
    things that the program does not decide: the text of the exception
    that the console raises for a message whose markup it cannot
    render, if it raises one, and the text of the exception for each
    failure of the system or of the engine. *)
Record world := mkWorld {
  files : gmap Path file;
  dirs : gset Path;
  outside : nat -> gmap Path file -> gmap Path file;
  clock : nat;
  sigint : option nat;
  trace : list event;
  console_error : string -> option string;
  error_text : failure -> string
}.

Definition set_files (fs : gmap Path file) (w : world) : world :=
  mkWorld fs (dirs w) (outside w) (clock w) (sigint w) (trace w)
          (console_error w) (error_text w).
Definition set_dirs (ds : gset Path) (w : world) : world :=
  mkWorld (files w) ds (outside w) (clock w) (sigint w) (trace w)
          (console_error w) (error_text w).
Definition set_clock (t : nat) (w : world) : world :=
  mkWorld (files w) (dirs w) (outside w) t (sigint w) (trace w)
          (console_error w) (error_text w).
Definition set_sigint (s : option nat) (w : world) : world :=
  mkWorld (files w) (dirs w) (outside w) (clock w) s (trace w)
          (console_error w) (error_text w).
Definition record_event (ev : event) (w : world) : world :=
  mkWorld (files w) (dirs w) (outside w) (clock w) (sigint w) (ev :: trace w)
          (console_error w) (error_text w).

(** ** The monad of the program: state and exceptions *)

Inductive exn :=
| Exception (msg : string)
| KeyboardInterrupt
| SystemExit (code : Z).

Inductive outcome (A : Type) :=
| Ret (a : A)
| Raise (e : exn).
Arguments Ret {A} a.
Arguments Raise {A} e.

Definition M (A : Type) : Type := world -> outcome A * world.

#[global] Instance M_ret : MRet M := fun A a w => (Ret a, w).
#[global] Instance M_bind : MBind M := fun A B k m w =>
  match m w with
  | (Ret a, w') => k a w'
  | (Raise e, w') => (Raise e, w')
  end.

Definition raise {A} (e : exn) : M A := fun w => (Raise e, w).
Definition emit (ev : event) : M unit := fun w => (Ret tt, record_event ev w).

(** [try: m except Exception as e: h(str(e))]; [KeyboardInterrupt] and
    [SystemExit] are not instances of [Exception] and pass. *)
Definition try_except {A} (m : M A) (h : string -> M A) : M A := fun w =>
  match m w with
  | (Raise (Exception msg), w') => h msg w'
  | r => r
  end.

(** [try: m except KeyboardInterrupt: h] *)
Definition try_except_interrupt {A} (m : M A) (h : M A) : M A := fun w =>
  match m w with
  | (Raise KeyboardInterrupt, w') => h w'
  | r => r
  end.

(** An interruptible operation: Ctrl+C is delivered here when its count
    has run out. The model delivers it at the operations that wait, the
    opening of a document and the sleep; a run in which no Ctrl+C
    arrives is one whose [sigint] is [None]. *)
Definition tick : M unit := fun w =>
  match sigint w with
  | None => (Ret tt, w)
  | Some 0 => (Raise KeyboardInterrupt, set_sigint None w)
  | Some (S k) => (Ret tt, set_sigint (Some k) w)
  end.

(** *** The file system

    The file system of the model has neither links nor permissions nor
    limits on the length of names: a path names what is stored under
    it as it is written, and the tests of existence answer for it. *)

(** [p.exists()] *)
Definition path_exists (p : Path) (w : world) : bool :=
  bool_decide (p ∈ dom (files w)) || bool_decide (p ∈ dirs w).

Definition exists_ (p : Path) : M bool := fun w =>
  let b := path_exists p w in (Ret b, record_event (EvExists p b) w).

(** [p.is_dir()] *)
Definition is_dir (p : Path) : M bool := fun w =>
  let b := bool_decide (p ∈ dirs w) in (Ret b, record_event (EvIsDir p b) w).

(** [p.stat().st_size] *)
Definition stat_size (p : Path) : M N := fun w =>
  match files w !! p with
  | Some f => (Ret (file_size f), record_event (EvStat p (file_size f)) w)
  | None =>
      if bool_decide (p ∈ dirs w)
      then (Ret DIR_SIZE, record_event (EvStat p DIR_SIZE) w)
      else (Raise (Exception (error_text w (CannotStat p))), w)
  end.

(** A file can be opened for writing where its directory exists and
    the path does not name a directory. A write is refused when the file
    cannot be opened, which leaves the files as they are. *)
Definition can_write (p : Path) (w : world) : bool :=
  bool_decide (parent p ∈ dirs w) && negb (bool_decide (p ∈ dirs w)).

(** [p.write_bytes(data)] *)
Definition write_bytes (p : Path) (data : string) : M unit := fun w =>
  if can_write p w
  then (Ret tt, record_event (EvWriteBytes p data true)
                  (set_files (<[p := BytesFile data]> (files w)) w))
  else (Raise (Exception (error_text w (CannotWrite p))),
        record_event (EvWriteBytes p data false) w).

(** [p.write_text(text, encoding='utf-8')] *)
Definition write_text (p : Path) (text : string) : M unit := fun w =>
  if can_write p w
  then (Ret tt, record_event (EvWriteText p text true)
                  (set_files (<[p := TextFile text]> (files w)) w))
  else (Raise (Exception (error_text w (CannotWrite p))),
        record_event (EvWriteText p text false) w).

(** The path and its ancestors, the nearest first. *)
Fixpoint ancestors_from (a : bool) (ps : list string) (n : nat) : list Path :=
  match n with
  | 0 => [mkPath a ps]
  | S k => mkPath a ps :: ancestors_from a (removelast ps) k
  end.

Definition self_and_ancestors (p : Path) : list Path :=
  ancestors_from (anchored p) (parts p) (List.length (parts p)).

(** [p.mkdir(parents=True, exist_ok=True)] *)
Definition mkdir_parents (p : Path) : M unit := fun w =>
  if forallb (fun q => negb (bool_decide (q ∈ dom (files w))))
             (self_and_ancestors p)
  then (Ret tt, record_event (EvMkdir p true)
                  (set_dirs (list_to_set (self_and_ancestors p) ∪ dirs w) w))
  else (Raise (Exception (error_text w (CannotMkdir p))),
        record_event (EvMkdir p false) w).

(** [p.mkdir(exist_ok=True)] *)
Definition mkdir (p : Path) : M unit := fun w =>
  if bool_decide (p ∈ dirs w) then (Ret tt, record_event (EvMkdir p true) w)
  else if bool_decide (p ∈ dom (files w)) || negb (bool_decide (parent p ∈ dirs w))
  then (Raise (Exception (error_text w (CannotMkdir p))),
        record_event (EvMkdir p false) w)
  else (Ret tt, record_event (EvMkdir p true) (set_dirs ({[p]} ∪ dirs w) w)).

(** [fnmatch(name, "*.pdf")] *)
Definition matches_pdf (nm : string) : bool := ends_with ".pdf" nm.

(** The entries of the folder whose name matches [*.pdf]. *)
Definition listing (folder : Path) (w : world) : list Path :=
  filter (fun p => parts p ≠ [] ∧ parent p = folder
                   ∧ matches_pdf (name p) = true)
         (elements (dom (files w) ∪ dirs w)).

(** [folder.glob("*.pdf")], listed when the call is made. *)
Definition glob_pdf (folder : Path) : M (list Path) := fun w =>
  (Ret (listing folder w), record_event (EvGlob folder (listing folder w)) w).

(** The files after [n] seconds that start at time [t]. *)
Fixpoint elapse (out : nat -> gmap Path file -> gmap Path file)
  (n t : nat) (fs : gmap Path file) : gmap Path file :=
  match n with
  | 0 => fs
  | S k => elapse out k (S t) (out t fs)
  end.

(** [n] seconds pass. *)
Definition pass_time (n : nat) : M unit := fun w =>
  (Ret tt, record_event (EvSleep n)
             (set_clock (clock w + n)
                (set_files (elapse (outside w) n (clock w) (files w)) w))).

(** [time.sleep(n)] *)
Definition sleep (n : nat) : M unit := tick;; pass_time n.

(** *** Logger and console

    The texts of the messages leave out the pictographs of the source
    and write its arrows [->]. *)

Definition logger (lv : level) (msg : string) : M unit := emit (EvLog lv msg).

(** [console.print(msg, style=...)]: the console renders the markup of
    the message first, and raises when it cannot; nothing is printed
    then. *)
Definition console_print (msg : string) : M unit := fun w =>
  match console_error w msg with
  | Some e => (Raise (Exception e), w)
  | None => (Ret tt, record_event (EvPrint msg) w)
  end.

(** *** The PDF engine *)

(** The engine reads the file at [p]. *)
Definition read_pdf (p : Path) : M document := fun w =>
  match files w !! p with
  | Some (PdfFile _ doc) => (Ret doc, record_event (EvOpen p true) w)
  | _ => (Raise (Exception (error_text w (CannotOpen p))),
          record_event (EvOpen p false) w)
  end.

(** [fitz.open(p)] *)
Definition fitz_open (p : Path) : M document := tick;; read_pdf p.

(** [doc.close()] *)
Definition doc_close (p : Path) : M unit := emit (EvClose p).

(** [doc.extract_image(xref)] *)
Definition extract_image (doc : document) (xref : Z) : M image := fun w =>
  match doc_images doc !! xref with
  | Some im => (Ret im, w)
  | None => (Raise (Exception (error_text w (CannotExtract xref))), w)
  end.

(** ** [pdf_to_markdown] (lines 20 to 110) *)

(** [metadata.get(key)] when it is truthy. *)
Definition metadata_get (metadata : gmap string string) (key : string)
  : option string :=
  match metadata !! key with
  | Some v => if truthy_str v then Some v else None
  | None => None
  end.

(** Lines 39 to 44. *)
Definition metadata_fragments (metadata : gmap string string) : list string :=
  let markdown_content := [] in
  let markdown_content :=
    match metadata_get metadata "title" with
    | Some v => markdown_content ++ ["# " +:+ v +:+ LF +:+ LF]
    | None => markdown_content
    end in
  let markdown_content :=
    match metadata_get metadata "author" with
    | Some v => markdown_content ++ ["**Author:** " +:+ v +:+ LF +:+ LF]
    | None => markdown_content
    end in
  let markdown_content :=
    match metadata_get metadata "subject" with
    | Some v => markdown_content ++ ["**Subject:** " +:+ v +:+ LF +:+ LF]
    | None => markdown_content
    end in
  markdown_content.

(** Line 46. *)
Definition SEPARATOR : string := "---" +:+ LF +:+ LF.

(** Line 90. *)
Definition image_name (page_num img_index : nat) (ext : string) : string :=
  "image_page" +:+ str_of_nat page_num +:+ "_" +:+ str_of_nat img_index
  +:+ "." +:+ ext.

(** Line 91. *)
Definition image_dir (output_path : Path) : Path :=
  if truthy_str (suffix output_path) then parent output_path else output_path.

(** Line 94. *)
Definition image_reference (nm : string) : string :=
  "![" +:+ nm +:+ "](" +:+ nm +:+ ")" +:+ LF +:+ LF.

(** Lines 85 to 94: the images of one page, from ordinal [img_index] on. *)
Fixpoint extract_images (doc : document) (output_path : Path)
  (page_num img_index : nat) (image_list : list Z)
  (markdown_content : list string) : M (list string) :=
  match image_list with
  | [] => mret markdown_content
  | xref :: rest =>
      base_image ← extract_image doc xref;
      let nm := image_name page_num img_index (image_ext base_image) in
      let image_path := joinpath (image_dir output_path) nm in
      write_bytes image_path (image_bytes base_image);;
      extract_images doc output_path page_num (S img_index) rest
        (markdown_content ++ [image_reference nm])
  end.

(** Lines 49 to 94: the pages from number [page_num] on. *)
Fixpoint process_pages (doc : document) (output_path : option Path)
  (preserve_formatting : bool) (page_num : nat) (pages : list page)
  (markdown_content : list string) : M (list string) :=
  match pages with
  | [] => mret markdown_content
  | pg :: rest =>
      let markdown_content :=
        markdown_content ++ page_fragments preserve_formatting pg in
      markdown_content ←
        match output_path with
        | Some out =>
            extract_images doc out page_num 1 (page_images pg) markdown_content
        | None => mret markdown_content
        end;
      process_pages doc output_path preserve_formatting (S page_num) rest
        markdown_content
  end.

(** Lines 35 to 106, the body of the [try] once the document is open.
    The arrow of the console message is written [->]. *)
Definition convert_opened (pdf_path : Path) (output_path : option Path)
  (preserve_formatting : bool) (doc : document) : M string :=
  let markdown_content := metadata_fragments (doc_metadata doc) in
  let markdown_content := markdown_content ++ [SEPARATOR] in
  markdown_content ←
    process_pages doc output_path preserve_formatting 1 (doc_pages doc)
      markdown_content;
  doc_close pdf_path;;
  let markdown_text := join "" markdown_content in
  match output_path with
  | Some out =>
      write_text out markdown_text;;
      console_print ("Converted: " +:+ path_str pdf_path +:+ " -> "
                     +:+ path_str out)
  | None => mret tt
  end;;
  mret markdown_text.

(** Lines 34 to 106, the body of the [try]. *)
Definition pdf_to_markdown_try (pdf_path : Path) (output_path : option Path)
  (preserve_formatting : bool) : M string :=
  doc ← fitz_open pdf_path;
  convert_opened pdf_path output_path preserve_formatting doc.

(** Lines 20 to 110. [output_path] is [None] or a [Path]; a [Path] is
    truthy. The result is [None] on an error. *)
Definition pdf_to_markdown (pdf_path : Path) (output_path : option Path)
  (preserve_formatting : bool) : M (option string) :=
  try_except
    (markdown_text ← pdf_to_markdown_try pdf_path output_path
                       preserve_formatting;
     mret (Some markdown_text))
    (fun e => logger ERROR ("Error converting PDF: " +:+ e);; mret None).

(** ** [watch_folder] (lines 113 to 171) *)

(** Truthiness of the result of [pdf_to_markdown]. *)
Definition truthy_result (result : option string) : bool :=
  match result with Some s => truthy_str s | None => false end.

(** Truthiness of an optional [str] argument. *)
Definition truthy_arg (o : option string) : option string :=
  match o with
  | Some s => if truthy_str s then Some s else None
  | None => None
  end.

(** [output_dir / f"{pdf_file.stem}.md"] *)
Definition md_in (output_dir pdf_file : Path) : Path :=
  joinpath output_dir (stem pdf_file +:+ ".md").

(** Lines 144 to 146 and 164 to 166. *)
Definition convert_and_report (pdf_file output_file : Path)
  (preserve_formatting : bool) : M unit :=
  result ← pdf_to_markdown pdf_file (Some output_file) preserve_formatting;
  if truthy_result result
  then logger SUCCESS ("Converted: " +:+ name pdf_file +:+ " -> "
                       +:+ name output_file)
  else mret tt.

(** Lines 139 to 146: the PDFs found when the watcher starts. *)
Fixpoint scan_existing (output_dir : Path) (preserve_formatting : bool)
  (found : list Path) (seen_files : gset Path) : M (gset Path) :=
  match found with
  | [] => mret seen_files
  | pdf_file :: rest =>
      let seen_files := {[pdf_file]} ∪ seen_files in
      let output_file := md_in output_dir pdf_file in
      present ← exists_ output_file;
      (if negb present then
         logger INFO ("Converting existing file: " +:+ name pdf_file);;
         convert_and_report pdf_file output_file preserve_formatting
       else mret tt);;
      scan_existing output_dir preserve_formatting rest seen_files
  end.

(** Line 160: [pdf_file.exists() and pdf_file.stat().st_size > 0]. *)
Definition exists_nonempty (pdf_file : Path) : M bool :=
  present ← exists_ pdf_file;
  if (present : bool) then (size ← stat_size pdf_file; mret (0 <? size)%N)
  else mret false.

(** Lines 156 to 166: one file of [new_files]. *)
Definition watch_new_file (output_dir : Path) (preserve_formatting : bool)
  (seen_files : gset Path) (pdf_file : Path) : M (gset Path) :=
  sleep 1;;
  ready ← exists_nonempty pdf_file;
  if (ready : bool) then
    let seen_files := {[pdf_file]} ∪ seen_files in
    let output_file := md_in output_dir pdf_file in
    logger INFO ("New PDF detected: " +:+ name pdf_file);;
    convert_and_report pdf_file output_file preserve_formatting;;
    mret seen_files
  else mret seen_files.

Fixpoint watch_new_files (output_dir : Path) (preserve_formatting : bool)
  (new_files : list Path) (seen_files : gset Path) : M (gset Path) :=
  match new_files with
  | [] => mret seen_files
  | pdf_file :: rest =>
      seen_files ← watch_new_file output_dir preserve_formatting seen_files
                     pdf_file;
      watch_new_files output_dir preserve_formatting rest seen_files
  end.

(** Lines 152 to 168: one turn of [while True]. *)
Definition watch_cycle (folder output_dir : Path) (preserve_formatting : bool)
  (seen_files : gset Path) : M (gset Path) :=
  found ← glob_pdf folder;
  let current_files : gset Path := list_to_set found in
  let new_files := current_files ∖ seen_files in
  seen_files ← watch_new_files output_dir preserve_formatting
                 (elements new_files) seen_files;
  sleep 2;;
  mret seen_files.

(** The first [n] turns of [while True]; the loop itself has no exit but
    an exception. *)
Fixpoint watch_cycles (n : nat) (folder output_dir : Path)
  (preserve_formatting : bool) (seen_files : gset Path) : M (gset Path) :=
  match n with
  | 0 => mret seen_files
  | S k =>
      seen_files ← watch_cycle folder output_dir preserve_formatting seen_files;
      watch_cycles k folder output_dir preserve_formatting seen_files
  end.

(** Lines 128 to 133. *)
Definition watch_output_dir (folder : Path) (output_path : option string)
  : M Path :=
  match truthy_arg output_path with
  | Some s =>
      let output_dir := parse_path s in
      mkdir_parents output_dir;; mret output_dir
  | None =>
      let output_dir := joinpath folder "converted" in
      mkdir output_dir;; mret output_dir
  end.

(** Lines 122 to 148, what comes before the loop: [None] for a folder
    that is not valid, or the output directory and the files seen. *)
Definition watch_setup (folder_path : string) (output_path : option string)
  (preserve_formatting : bool) : M (option (Path * gset Path)) :=
  let folder := parse_path folder_path in
  present ← exists_ folder;
  directory ← (if (present : bool) then is_dir folder else mret false);
  if negb directory then
    logger ERROR ("Invalid folder: " +:+ folder_path);; mret None
  else
    output_dir ← watch_output_dir folder output_path;
    let seen_files : gset Path := ∅ in
    logger INFO ("Scanning existing PDFs in " +:+ path_str folder +:+ "...");;
    found ← glob_pdf folder;
    seen_files ← scan_existing output_dir preserve_formatting found seen_files;
    logger INFO ("Watching " +:+ path_str folder
                 +:+ " for new PDFs... (Press Ctrl+C to stop)");;
    mret (Some (output_dir, seen_files)).

(** Lines 150 to 171: the loop and its handler. *)
Definition watch_loop (fuel : nat) (folder output_dir : Path)
  (preserve_formatting : bool) (seen_files : gset Path) : M (option unit) :=
  try_except_interrupt
    (watch_cycles fuel folder output_dir preserve_formatting seen_files;;
     mret None)
    (logger INFO "Watch mode stopped";; mret (Some tt)).

(** Lines 113 to 171. The result is [Some tt] when the function has
    returned and [None] while it is still watching after [fuel] turns of
    its loop. *)
Definition watch_folder (fuel : nat) (folder_path : string)
  (output_path : option string) (preserve_formatting : bool)
  : M (option unit) :=
  ready ← watch_setup folder_path output_path preserve_formatting;
  match ready with
  | None => mret (Some tt)
  | Some (output_dir, seen_files) =>
      watch_loop fuel (parse_path folder_path) output_dir preserve_formatting
        seen_files
  end.

(** ** [main] (lines 174 to 320) *)

(** The parsed command line. *)
Record args := mkArgs {
  pdf : list string;
  output : option string;
  simple : bool;
  verbose : bool;
  quiet : bool;
  watch : option string
}.

(** [parser.error(msg)]: argparse prints the message and exits with
    status 2. *)
Definition parser_error {A} (msg : string) : M A :=
  emit (EvPrint msg);; raise (SystemExit 2).

(** [with_suffix], raising [ValueError] with the text of pathlib. *)
Definition with_suffix_ (p : Path) (suf : string) : M Path :=
  match with_suffix p suf with
  | Some q => mret q
  | None =>
      raise (Exception ("PosixPath('" +:+ path_str p +:+ "') has an empty name"))
  end.

(** Lines 267 to 277: where the Markdown of [pdf_path] goes. *)
Definition resolve_output (a : args) (pdf_path : Path) : M Path :=
  let output_candidate := parse_path <$> truthy_arg (output a) in
  let directory_mode (output_dir : Path) : M Path :=
    mkdir_parents output_dir;; mret (md_in output_dir pdf_path) in
  match output_candidate with
  | Some candidate =>
      if truthy_str (suffix candidate) || (List.length (pdf a) =? 1)%nat then
        output_file ← (if truthy_str (suffix candidate) then mret candidate
                       else with_suffix_ candidate ".md");
        mkdir_parents (parent output_file);;
        mret output_file
      else directory_mode candidate
  | None => directory_mode (parse_path ".")
  end.

(** Lines 253 to 312: the files from [todo] on; the progress spinner only
    draws on the terminal and is left out. *)
Fixpoint convert_files (a : args) (todo : list string)
  (failed_files successful_files : list Path) : M (list Path * list Path) :=
  match todo with
  | [] => mret (failed_files, successful_files)
  | pdf_file :: rest =>
      let pdf_path := parse_path pdf_file in
      present ← exists_ pdf_path;
      if negb (present : bool) then
        logger ERROR ("File not found: " +:+ path_str pdf_path);;
        convert_files a rest (failed_files ++ [pdf_path]) successful_files
      else if negb (String.eqb (lower (suffix pdf_path)) ".pdf") then
        logger ERROR ("Not a PDF file: " +:+ path_str pdf_path);;
        convert_files a rest (failed_files ++ [pdf_path]) successful_files
      else
        output_file ← resolve_output a pdf_path;
        (if verbose a && negb (quiet a)
         then logger INFO ("Converting: " +:+ path_str pdf_path +:+ " -> "
                           +:+ path_str output_file)
         else mret tt);;
        result ← pdf_to_markdown pdf_path (Some output_file) (negb (simple a));
        match result with
        | None =>
            logger ERROR ("Failed to convert " +:+ name pdf_path);;
            convert_files a rest (failed_files ++ [pdf_path]) successful_files
        | Some _ =>
            (if negb (quiet a)
             then logger SUCCESS ("Converted " +:+ name pdf_path)
             else mret tt);;
            convert_files a rest failed_files (successful_files ++ [pdf_path])
        end
  end.

(** Lines 315 to 320. *)
Definition exit_code_of (failed_files successful_files : list Path) : Z :=
  match failed_files, successful_files with
  | _ :: _, _ => 1
  | [], _ :: _ => 0
  | [], [] => 1
  end.

(** Lines 174 to 320. The result is [None] while watch mode is still
    running after [fuel] turns of its loop. The configuration of the
    logger (lines 227 to 233) selects what its sink shows and changes
    nothing here. *)
Definition main (fuel : nat) (a : args) : M (option Z) :=
  match truthy_arg (watch a) with
  | Some folder =>
      running ← watch_folder fuel folder (output a) (negb (simple a));
      mret (match running with Some _ => Some 0%Z | None => None end)
  | None =>
      match pdf a with
      | [] => parser_error "PDF file(s) required (or use --watch)"
      | _ :: _ =>
          '(failed_files, successful_files) ← convert_files a (pdf a) [] [];
          mret (Some (exit_code_of failed_files successful_files))
      end
  end.


(** * Notions for the properties *)

(** ** Spans, lines and fields *)

(** The bold and italic bits of a span, as the engine documents them. *)
Definition is_bold (s : span) : bool := Z.testbit (span_flags s) 4.

Definition is_italic (s : span) : bool := Z.testbit (span_flags s) 1.

(** What one line enters into [paragraph]. *)
Definition line_entries (l : line) : list string :=
  match line_spans l with
  | [] => []
  | _ :: _ => [join "" (map format_span (line_spans l))]
  end.

(** ** Events *)

(** The effect of an event on the world: it is recorded, and a write
    that succeeded sets the file. *)
Definition apply_event (ev : event) (w : world) : world :=
  record_event ev
    match ev with
    | EvWriteBytes p data true => set_files (<[p := BytesFile data]> (files w)) w
    | EvWriteText p text true => set_files (<[p := TextFile text]> (files w)) w
    | _ => w
    end.

(** The effect of events, the earliest first. *)
Definition apply_events (evs : list event) (w : world) : world :=
  fold_left (fun w ev => apply_event ev w) evs w.

(** The world once [tick] has let the program go on. *)
Definition after_tick (w : world) : world :=
  set_sigint (Nat.pred <$> sigint w) w.

(** The file that an event writes. *)
Definition written (ev : event) : option (Path * file) :=
  match ev with
  | EvWriteBytes p data true => Some (p, BytesFile data)
  | EvWriteText p text true => Some (p, TextFile text)
  | _ => None
  end.

(** The last file written at [p] by events, the earliest first. *)
Fixpoint last_write (evs : list event) (p : Path) (before : option file)
  : option file :=
  match evs with
  | [] => before
  | ev :: rest =>
      match written ev with
      | Some (q, f) =>
          last_write rest p (if decide (q = p) then Some f else before)
      | None => last_write rest p before
      end
  end.

(** A write of bytes, done or refused. *)
Definition is_write_bytes (ev : event) : Prop :=
  match ev with EvWriteBytes _ _ _ => True | _ => False end.

(** A write, done or refused. *)
Definition is_write (ev : event) : Prop :=
  match ev with
  | EvWriteBytes _ _ _ | EvWriteText _ _ _ => True
  | _ => False
  end.

(** The number of [doc.close()] on the document opened from [p]. *)
Fixpoint closes (p : Path) (tr : list event) : nat :=
  match tr with
  | [] => 0
  | EvClose q :: rest => (if decide (q = p) then 1 else 0) + closes p rest
  | _ :: rest => closes p rest
  end.

(** An outcome that is a value or an [Exception]. *)
Definition benign {A} (r : outcome A) : Prop :=
  match r with
  | Ret _ | Raise (Exception _) => True
  | Raise _ => False
  end.

(** The console line of line 104, with its arrow written [->]. *)
Definition converted_line (p o : Path) : string :=
  "Converted: " +:+ path_str p +:+ " -> " +:+ path_str o.

(** What a conversion depends on besides the files: the directories,
    the console and the texts of the failures. *)
Definition setting : Type :=
  gset Path * (string -> option string) * (failure -> string).

Definition setting_of (w : world) : setting :=
  (dirs w, console_error w, error_text w).

(** [emits P m]: the outcome of [m] and the events it adds are decided by
    the setting alone; the events satisfy [P], the world changes by them
    only, and [m] raises nothing but an [Exception]. *)
Definition emits {A} (P : event -> Prop) (m : M A) : Prop :=
  forall st, exists r evs,
    benign r /\ Forall P evs
    /\ forall w, setting_of w = st -> m w = (r, apply_events evs w).

(** The document that the engine reads at [p], if any. *)
Definition readable (w : world) (p : Path) : option document :=
  match files w !! p with
  | Some (PdfFile _ doc) => Some doc
  | _ => None
  end.

(** The Markdown of a document whose pages only add their text. *)
Definition text_markdown (pres : bool) (doc : document) : string :=
  join "" (metadata_fragments (doc_metadata doc) ++ [SEPARATOR]
           ++ flat_map (page_fragments pres) (doc_pages doc)).

(** ** Examples of worlds *)

(** The current directory. *)
Definition cwd : Path := parse_path ".".

(** A console that renders every message. *)
Definition accepting : string -> option string := fun _ => None.

(** Texts for the failures. *)
Definition plain_errors : failure -> string := fun f =>
  match f with
  | CannotOpen p => "cannot open " +:+ path_str p
  | CannotExtract _ => "bad xref"
  | CannotWrite p => "cannot write " +:+ path_str p
  | CannotMkdir p => "cannot create directory " +:+ path_str p
  | CannotStat p => "cannot stat " +:+ path_str p
  end.

(** No other process touches the files. *)
Definition quiet_outside : nat -> gmap Path file -> gmap Path file :=
  fun _ fs => fs.

(** A scanned page: no metadata, no text, one PNG image. *)
Definition scan_doc : document :=
  mkDocument ∅ [mkPage [] "" [7%Z]] {[ 7%Z := mkImage "PNGDATA" "png" ]}.

(** The scanned page in the current directory. *)
Definition scan_world : world :=
  mkWorld {[ parse_path "scan.pdf" := PdfFile 100 scan_doc ]} {[ cwd ]}
          quiet_outside 0 None []
          accepting plain_errors.

(** A photograph: one JPEG image on its only page. *)
Definition photo_doc : document :=
  mkDocument ∅ [mkPage [] "" [3%Z]] {[ 3%Z := mkImage "JPEGDATA" "jpeg" ]}.

(** A drawing: one PNG image on its only page. *)
Definition drawing_doc : document :=
  mkDocument ∅ [mkPage [] "" [5%Z]] {[ 5%Z := mkImage "DRAWING" "png" ]}.

(** The three documents in the current directory. *)
Definition album_world : world :=
  mkWorld {[ parse_path "scan.pdf" := PdfFile 100 scan_doc;
             parse_path "photo.pdf" := PdfFile 200 photo_doc;
             parse_path "drawing.pdf" := PdfFile 300 drawing_doc ]}
          {[ cwd ]} quiet_outside 0 None []
          accepting plain_errors.

(** A watched folder with one PDF, and Ctrl+C about to arrive. *)
Definition inbox_world : world :=
  mkWorld {[ parse_path "in/scan.pdf" := PdfFile 100 scan_doc ]}
          {[ cwd; parse_path "in" ]} quiet_outside 0 (Some 0) []
          accepting plain_errors.

(** A watched folder whose only PDF has its Markdown already. *)
Definition served_world : world :=
  mkWorld {[ parse_path "in/scan.pdf" := PdfFile 100 scan_doc;
             parse_path "in/converted/scan.md" := TextFile "old" ]}
          {[ cwd; parse_path "in"; parse_path "in/converted" ]}
          quiet_outside 0 (Some 4) []
          accepting plain_errors.

(** A blank page: a title that is empty, a text block without a span. *)
Definition blank_doc : document :=
  mkDocument {[ "title" := "" ]} [mkPage [TextBlock [mkLine []]; OtherBlock] "" []] ∅.

(** The blank page in the current directory. *)
Definition blank_world : world :=
  mkWorld {[ parse_path "blank.pdf" := PdfFile 100 blank_doc ]} {[ cwd ]}
          quiet_outside 0 None []
          accepting plain_errors.

(** A console that cannot render the line for the PDF [d[/x].pdf]: it
    reads [[/x]] as the end of a tag that was not opened. *)
Definition strict_console : string -> option string := fun msg =>
  if String.eqb msg "Converted: d[/x].pdf -> out.md"
  then Some "closing tag '[/x]' at position 13 doesn't match any open tag"
  else None.

(** The blank page in a directory whose name ends with a bracket. *)
Definition bracket_world : world :=
  mkWorld {[ parse_path "d[/x].pdf" := PdfFile 100 blank_doc ]}
          {[ cwd; parse_path "d[" ]} quiet_outside 0 None []
          strict_console plain_errors.

Definition bracket_run : outcome (option string) * world :=
  pdf_to_markdown (parse_path "d[/x].pdf") (Some (parse_path "out.md")) true
    bracket_world.

(** Another process creates [in/new.pdf] empty in the first second and
    fills it in the fifth. *)
Definition slow_writer : nat -> gmap Path file -> gmap Path file :=
  fun t fs =>
    if (t =? 0)%nat then <[ parse_path "in/new.pdf" := BytesFile "" ]> fs
    else if (t =? 4)%nat
         then <[ parse_path "in/new.pdf" := PdfFile 100 blank_doc ]> fs
         else fs.

(** The watched folder of [served_world] with that other process. *)
Definition busy_world : world :=
  mkWorld (files served_world) (dirs served_world) slow_writer 0 None []
          accepting plain_errors.

(** A line whose only span has an empty text. *)
Definition empty_line : line := mkLine [mkSpan "" 0].

(** A hollow page: its only span has an empty text. *)
Definition hollow_doc : document :=
  mkDocument ∅ [mkPage [TextBlock [empty_line]] "" []] ∅.

Definition hollow_world : world :=
  mkWorld {[ parse_path "hollow.pdf" := PdfFile 100 hollow_doc ]} {[ cwd ]}
          quiet_outside 0 None []
          accepting plain_errors.

(** The scanned page converted into a directory that does not exist. *)
Definition failed_run : outcome (option string) * world :=
  pdf_to_markdown (parse_path "scan.pdf") (Some (parse_path "nodir/scan.md"))
    true scan_world.

(** The scanned page converted with the current directory itself as
    destination. *)
Definition refused_run : outcome (option string) * world :=
  pdf_to_markdown (parse_path "scan.pdf") (Some cwd) true scan_world.

(** The scanned page converted into the current directory, then the
    photograph, the drawing, or the scanned page again. *)
Definition scan_run : outcome (option string) * world :=
  pdf_to_markdown (parse_path "scan.pdf") (Some (parse_path "scan.md")) true
    album_world.

Definition photo_run : outcome (option string) * world :=
  pdf_to_markdown (parse_path "photo.pdf") (Some (parse_path "photo.md")) true
    (snd scan_run).

Definition drawing_run : outcome (option string) * world :=
  pdf_to_markdown (parse_path "drawing.pdf") (Some (parse_path "drawing.md"))
    false (snd scan_run).

Definition scan_again : outcome (option string) * world :=
  pdf_to_markdown (parse_path "scan.pdf") (Some (parse_path "scan.md")) true
    (snd scan_run).

(** ** Notions of the claims *)

(** A metadata field counts as present when its value is not empty. *)
Definition field_present (metadata : gmap string string) (key : string) : bool :=
  match metadata !! key with Some v => truthy_str v | None => false end.

(** The value of a metadata field, empty when it is missing. *)
Definition field (metadata : gmap string string) (key : string) : string :=
  default "" (metadata !! key).

(** The image of ordinal [i] on page number [pn], both counted from 1. *)
Definition image_at (doc : document) (pn i : nat) : option image :=
  match pn, i with
  | S j, S k =>
      match doc_pages doc !! j with
      | Some pg =>
          match page_images pg !! k with
          | Some xref => doc_images doc !! xref
          | None => None
          end
      | None => None
      end
  | _, _ => None
  end.

(** The write of the image [im] of ordinal [i] on page [pn]. *)
Definition image_write (out : Path) (pn i : nat) (im : image) : event :=
  EvWriteBytes (joinpath (image_dir out) (image_name pn i (image_ext im)))
               (image_bytes im) true.

(** A string with a character that is not white space. *)
Definition nonblank (s : string) : bool :=
  existsb (fun c => negb (isspace c)) (list_ascii_of_string s).

(** A page without text: with formatting, no line of a text block has
    a span; without, the text of the page has only white space. *)
Definition textless (pres : bool) (pg : page) : Prop :=
  if pres then
    Forall (fun b => match b with
                     | TextBlock lines =>
                         Forall (fun l => line_spans l = []) lines
                     | OtherBlock => True
                     end)
           (page_blocks pg)
  else nonblank (page_text pg) = false.

(** The Markdown of a document in simple mode, from the texts of its
    pages alone. *)
Definition plain_markdown (doc : document) : string :=
  join "" (metadata_fragments (doc_metadata doc) ++ [SEPARATOR]
           ++ flat_map (fun pg => if nonblank (page_text pg)
                                  then [page_text pg +:+ LF +:+ LF] else [])
                       (doc_pages doc)).

(** The events of [pdf_to_markdown] after the opening of the document. *)
Definition after_opening (ev : event) : Prop :=
  match ev with
  | EvWriteBytes _ _ _ | EvWriteText _ _ _ | EvClose _ | EvPrint _
  | EvLog ERROR _ => True
  | _ => False
  end.

(** Every path that exists in [w] exists in [w']. *)
Definition grows (w w' : world) : Prop :=
  forall p, path_exists p w = true -> path_exists p w' = true.

(** Ctrl+C is not further away in [w'] than it was in [w]. *)
Definition counts_down (w w' : world) : Prop :=
  match sigint w, sigint w' with
  | Some k, Some k' => k' <= k
  | None, None => True
  | _, _ => False
  end.

(** An event that is not the opening of a document. *)
Definition calm (ev : event) : Prop :=
  match ev with EvOpen _ _ => False | _ => True end.

(** The size that [stat] finds for a path that exists. *)
Definition size_of (p : Path) (w : world) : N :=
  match files w !! p with
  | Some f => file_size f
  | None => DIR_SIZE
  end.

(** The events of one new file in the loop: nothing when Ctrl+C arrives
    in the settling delay; else the delay, the test that the file
    exists, the size when it does, and, only for a size that is not zero,
    the log line, then the opening of the document and what follows it,
    unless Ctrl+C arrives there. *)
Inductive new_file_events (f : Path) : list event -> Prop :=
| nfe_interrupted : new_file_events f []
| nfe_missing : new_file_events f [EvSleep 1; EvExists f false]
| nfe_empty : new_file_events f [EvSleep 1; EvExists f true; EvStat f 0]
| nfe_detected n :
    (0 < n)%N ->
    new_file_events f
      [EvSleep 1; EvExists f true; EvStat f n;
       EvLog INFO ("New PDF detected: " +:+ name f)]
| nfe_converted n ok rest :
    (0 < n)%N -> Forall calm rest ->
    new_file_events f
      (EvSleep 1 :: EvExists f true :: EvStat f n
       :: EvLog INFO ("New PDF detected: " +:+ name f)
       :: EvOpen f ok :: rest).

(** A property of lists of events that holds of the empty list and of
    the concatenation of two lists of which it holds. *)
Record closed (Q : list event -> Prop) : Prop := mkClosed {
  closed_nil : Q [];
  closed_app : forall a b, Q a -> Q b -> Q (a ++ b)
}.

(** [keeps Q R m]: [m] adds events of which [Q] holds; it returns a
    value of which [R] holds, with Ctrl+C no further away than before,
    or it is interrupted; it raises nothing else. *)
Definition keeps {A} (Q : list event -> Prop) (R : A -> Prop) (m : M A) : Prop :=
  forall w, exists evs,
    trace (snd (m w)) = rev evs ++ trace w /\ Q evs
    /\ match fst (m w) with
       | Ret a => R a /\ counts_down w (snd (m w))
       | Raise KeyboardInterrupt => True
       | Raise _ => False
       end.

(** The properties of events that each turn of the loop keeps, for the
    files not yet seen. *)
Record loop_property (Q : list event -> Prop) (folder : Path)
  (seen : gset Path) : Prop := mkLoopProperty {
  lp_closed : closed Q;
  lp_glob : forall found, Q [EvGlob folder found];
  lp_sleep : Q [EvSleep 2];
  lp_new : forall f evs, f ∉ seen -> new_file_events f evs -> Q evs
}.


(** Lists of events where every opening of a document comes right
    after the settling delay, the test that the file exists, a size
    that is not zero and the log line of the loop. *)
Inductive settled : list event -> Prop :=
| settled_nil : settled []
| settled_calm ev evs : calm ev -> settled evs -> settled (ev :: evs)
| settled_open p n ok evs :
    (0 < n)%N -> settled evs ->
    settled (EvSleep 1 :: EvExists p true :: EvStat p n
             :: EvLog INFO ("New PDF detected: " +:+ name p)
             :: EvOpen p ok :: evs).

(** An event that is not the opening of the document at [g]. *)
Definition not_open (g : Path) (ev : event) : Prop :=
  forall ok, ev <> EvOpen g ok.

(** The output directory that the watcher resolves (lines 128 to 133). *)
Definition watch_dir (folder : Path) (output_path : option string) : Path :=
  match truthy_arg output_path with
  | Some s => parse_path s
  | None => joinpath folder "converted"
  end.

(** [w'] is [w] with the events [evs] added to its trace. *)
Definition adds (w : world) (evs : list event) (w' : world) : Prop :=
  trace w' = rev evs ++ trace w.

(** * Notions for further properties *)

(** ** The paths of one conversion *)

(** The ways [pdf_to_markdown] goes once Ctrl+C has not stopped it at
    its start, with its result and its events, the earliest first: the
    file cannot be opened; the extraction raises after some writes of
    images; the Markdown file cannot be written; it is written and the
    console cannot render its line; it is written and the line printed;
    or there is no destination. *)
Inductive converted (p : Path) (out : option Path) (w : world)
  : option string -> list event -> Prop :=
| conv_unreadable :
    converted p out w None
      [EvOpen p false;
       EvLog ERROR ("Error converting PDF: " +:+ error_text w (CannotOpen p))]
| conv_extraction_failed evs msg :
    Forall is_write_bytes evs ->
    converted p out w None
      (EvOpen p true :: evs ++ [EvLog ERROR ("Error converting PDF: " +:+ msg)])
| conv_write_failed evs o md :
    out = Some o -> can_write o w = false -> Forall is_write_bytes evs ->
    converted p out w None
      (EvOpen p true :: evs
       ++ [EvClose p; EvWriteText o md false;
           EvLog ERROR ("Error converting PDF: "
                        +:+ error_text w (CannotWrite o))])
| conv_print_failed evs o md e :
    out = Some o -> can_write o w = true ->
    console_error w (converted_line p o) = Some e ->
    Forall is_write_bytes evs ->
    converted p out w None
      (EvOpen p true :: evs
       ++ [EvClose p; EvWriteText o md true;
           EvLog ERROR ("Error converting PDF: " +:+ e)])
| conv_written evs o md :
    out = Some o -> can_write o w = true ->
    console_error w (converted_line p o) = None ->
    Forall is_write_bytes evs ->
    converted p out w (Some md)
      (EvOpen p true :: evs
       ++ [EvClose p; EvWriteText o md true; EvPrint (converted_line p o)])
| conv_returned evs md :
    out = None -> Forall is_write_bytes evs ->
    converted p out w (Some md) (EvOpen p true :: evs ++ [EvClose p]).

(** ** The Markdown of a document *)

(** The references to the images of a page, from ordinal [i] on, as
    far as the engine extracts them. *)
Fixpoint image_references (doc : document) (pn i : nat) (xrefs : list Z)
  : list string :=
  match xrefs with
  | [] => []
  | xref :: rest =>
      match doc_images doc !! xref with
      | Some im =>
          image_reference (image_name pn i (image_ext im))
          :: image_references doc pn (S i) rest
      | None => []
      end
  end.

(** The fragments of the pages from number [pn] on: for each page its
    text, then, with a destination, the references to its images. *)
Fixpoint pages_fragments (pres with_images : bool) (doc : document) (pn : nat)
  (pages : list page) : list string :=
  match pages with
  | [] => []
  | pg :: rest =>
      page_fragments pres pg
      ++ (if with_images then image_references doc pn 1 (page_images pg) else [])
      ++ pages_fragments pres with_images doc (S pn) rest
  end.

(** ** Decimal digits *)

Definition is_digit (c : ascii) : bool :=
  (48 <=? nat_of_ascii c)%nat && (nat_of_ascii c <=? 57)%nat.

Fixpoint all_digits (s : string) : bool :=
  match s with
  | EmptyString => true
  | String c rest => is_digit c && all_digits rest
  end.

(** Whether the converter has a destination. *)
Definition with_destination (out : option Path) : bool :=
  match out with Some _ => true | None => false end.

(** ** The documents that events open *)

(** The paths of the openings among events, in order. *)
Fixpoint opened (evs : list event) : list Path :=
  match evs with
  | [] => []
  | EvOpen p _ :: rest => p :: opened rest
  | _ :: rest => opened rest
  end.

(** No path is opened twice, and none that is in [seen]. *)
Definition fresh_opens (seen : gset Path) (evs : list event) : Prop :=
  NoDup (opened evs) /\ forall p, In p (opened evs) -> p ∉ seen.

(** ** Runs that differ in the log only *)

(** The worlds agree on everything but the events recorded. *)
Definition same_state (w1 w2 : world) : Prop :=
  files w1 = files w2 /\ dirs w1 = dirs w2 /\ outside w1 = outside w2
  /\ clock w1 = clock w2 /\ sigint w1 = sigint w2
  /\ console_error w1 = console_error w2 /\ error_text w1 = error_text w2.

(** From worlds that agree on everything but the events recorded, [m]
    and [m'] end with the same outcome, in worlds that agree again. *)
Definition alike {A} (m m' : M A) : Prop :=
  forall w1 w2, same_state w1 w2 ->
    fst (m w1) = fst (m' w2) /\ same_state (snd (m w1)) (snd (m' w2)).

(** The command line with other values of [--verbose] and [--quiet]. *)
Definition with_logging (v q : bool) (a : args) : args :=
  mkArgs (pdf a) (output a) (simple a) v q (watch a).

(** ** The files of a batch *)





(** Lines 267 to 277 without the directories they create: the
    destination of [pdf_path], if its name can be formed. *)
Definition destination (a : args) (pdf_path : Path) : option Path :=
  match parse_path <$> truthy_arg (output a) with
  | Some candidate =>
      if truthy_str (suffix candidate) then Some candidate
      else if (List.length (pdf a) =? 1)%nat then with_suffix candidate ".md"
      else Some (md_in candidate pdf_path)
  | None => Some (md_in (parse_path ".") pdf_path)
  end.

(** The paths of the writes of Markdown among events, done or refused. *)
Fixpoint markdown_writes (evs : list event) : list Path :=
  match evs with
  | [] => []
  | EvWriteText p _ _ :: rest => p :: markdown_writes rest
  | _ :: rest => markdown_writes rest
  end.

(** Every file of [w] is a file of [w'], with whatever content. *)
Definition files_kept (w w' : world) : Prop :=
  forall p, is_Some (files w !! p) -> is_Some (files w' !! p).

(** [o] is the destination of one of the files of [todo]. *)
Definition goes_to (a : args) (todo : list string) (o : Path) : Prop :=
  exists pdf_file,
    In pdf_file todo /\ destination a (parse_path pdf_file) = Some o.

(** The destination of [pdf_path] is a file of [w]. *)
Definition landed (a : args) (w : world) (pdf_path : Path) : Prop :=
  exists out, destination a pdf_path = Some out /\ is_Some (files w !! out).

(** An error line of the log. *)
Definition is_error_log (ev : event) : Prop :=
  match ev with EvLog ERROR _ => True | _ => False end.

(** The Markdown of [pdf_path] was written at its destination. *)
Definition wrote_markdown (a : args) (evs : list event) (pdf_path : Path)
  : Prop :=
  exists out md,
    destination a pdf_path = Some out /\ In (EvWriteText out md true) evs.

(** The log has the line of lines 257, 262 or 307 for [pdf_path]. *)
Definition reported (evs : list event) (pdf_path : Path) : Prop :=
  exists msg,
    (msg = "File not found: " +:+ path_str pdf_path
     \/ msg = "Not a PDF file: " +:+ path_str pdf_path
     \/ msg = "Failed to convert " +:+ name pdf_path)
    /\ In (EvLog ERROR msg) evs.

(** What the loop over the files leaves when it returns: the failures
    [f] and the successes [s] that it adds to its two lists. *)
Definition batch_verdict (a : args) (todo : list string) (evs : list event)
  (w' : world) (f s : list Path) : Prop :=
  Permutation (f ++ s) (map parse_path todo)
  /\ Forall (landed a w') s
  /\ Forall (wrote_markdown a evs) s
  /\ Forall (reported evs) f
  /\ (f = [] <-> Forall (fun ev => ~ is_error_log ev) evs).

(** Two PDFs and one name for the output. *)
Definition shared_args : args :=
  mkArgs ["scan.pdf"; "photo.pdf"] (Some "notes.md") false false false None.

(** Two PDFs and no name for the output. *)
Definition album_args : args :=
  mkArgs ["scan.pdf"; "photo.pdf"] None true false false None.

(** An entry of [folder] itself whose name matches [*.pdf]. *)
Definition pdf_entry (folder p : Path) : Prop :=
  parts p ≠ [] /\ parent p = folder /\ matches_pdf (name p) = true.

(** * Properties *)

(** ** Strings and bits *)

Lemma append_cons (x : ascii) (a b : string) :
  String x a +:+ b = String x (a +:+ b).
Proof. reflexivity. Qed.

Lemma append_nil_l (b : string) : "" +:+ b = b.
Proof. reflexivity. Qed.

Lemma append_assoc (a b c : string) : (a +:+ b) +:+ c = a +:+ (b +:+ c).
Proof.
  induction a as [|x a' IH]; [reflexivity |].
  rewrite !append_cons. now rewrite IH.
Qed.

Lemma append_empty (a b : string) : a +:+ b = "" -> a = "" /\ b = "".
Proof.
  destruct a; [rewrite append_nil_l; auto | rewrite append_cons; discriminate].
Qed.

(** The test [flags & 2**k] of the source is the test of bit [k]. *)
Lemma land_pow2_testbit (z : Z) (k : Z) :
  (0 <= k)%Z -> truthy_int (Z.land z (2 ^ k)) = Z.testbit z k.
Proof.
  intros Hk. unfold truthy_int.
  destruct (Z.testbit z k) eqn:Hb.
  - apply negb_true_iff, Z.eqb_neq. intros H0.
    assert (Hbit : Z.testbit (Z.land z (2 ^ k)) k = true).
    { rewrite Z.land_spec, Hb, Z.pow2_bits_true by lia. reflexivity. }
    rewrite H0, Z.bits_0 in Hbit. discriminate.
  - apply negb_false_iff, Z.eqb_eq. apply Z.bits_inj'. intros n Hn.
    rewrite Z.land_spec, Z.bits_0.
    destruct (Z.eq_dec n k) as [->|Hne].
    + rewrite Hb. reflexivity.
    + rewrite Z.pow2_bits_false by lia. apply andb_false_r.
Qed.

(** ** The text of a page *)

Lemma fold_left_snoc {A B} (f : A -> list B) (l : list A) (acc : list B) :
  fold_left (fun acc x => acc ++ f x) l acc = acc ++ flat_map f l.
Proof.
  revert acc. induction l as [|x l IH]; intros acc; simpl.
  - now rewrite app_nil_r.
  - rewrite IH. now rewrite <- app_assoc.
Qed.

Lemma line_text_map (l : line) : line_text l = map format_span (line_spans l).
Proof.
  unfold line_text.
  rewrite (fold_left_snoc (fun s => [format_span s])). simpl.
  induction (line_spans l) as [|s ss IH]; simpl; [reflexivity | now rewrite IH].
Qed.

Lemma paragraph_flat_map (lines : list line) :
  paragraph lines = flat_map line_entries lines.
Proof.
  unfold paragraph.
  enough (H : forall acc,
    fold_left (fun acc l => match line_text l with
                            | [] => acc
                            | lt => acc ++ [join "" lt]
                            end) lines acc
    = acc ++ flat_map line_entries lines) by apply (H []).
  induction lines as [|l ls IH]; intros acc; simpl.
  - now rewrite app_nil_r.
  - rewrite IH. unfold line_entries at 2. rewrite line_text_map.
    destruct (line_spans l); simpl; [reflexivity | now rewrite <- app_assoc].
Qed.

Lemma paragraph_nil (lines : list line) :
  paragraph lines = [] <-> Forall (fun l => line_spans l = []) lines.
Proof.
  rewrite paragraph_flat_map. induction lines as [|l ls IH]; simpl.
  - split; [constructor | reflexivity].
  - split.
    + intros H. apply app_eq_nil in H as [Hl Hls]. constructor.
      * unfold line_entries in Hl. destruct (line_spans l); [reflexivity | discriminate].
      * now apply IH.
    + intros H. inversion H as [|? ? Hl Hls]; subst.
      unfold line_entries at 1. rewrite Hl. simpl. now apply IH.
Qed.

(** C1. With [preserve_formatting] true the entries of a line are its
    spans in order, each formatted by [format_span]; the bold test of the
    source is bit 4 of the flags and the italic test bit 1; a bold span is
    its text between double asterisks, an italic span its text between
    single asterisks, and a span with both bits reads as the italic text
    between double asterisks: the double asterisks are the outermost
    markers. *)
Theorem format_span_emphasis (l : line) (s : span) :
  line_text l = map format_span (line_spans l)
  /\ truthy_int (Z.land (span_flags s) (2 ^ 4)) = is_bold s
  /\ truthy_int (Z.land (span_flags s) (2 ^ 1)) = is_italic s
  /\ format_span s =
       match is_bold s, is_italic s with
       | true, true => "**" +:+ ("*" +:+ span_text s +:+ "*") +:+ "**"
       | true, false => "**" +:+ span_text s +:+ "**"
       | false, true => "*" +:+ span_text s +:+ "*"
       | false, false => span_text s
       end.
Proof.
  split; [apply line_text_map |].
  assert (Hb := land_pow2_testbit (span_flags s) 4 ltac:(lia)).
  assert (Hi := land_pow2_testbit (span_flags s) 1 ltac:(lia)).
  split; [exact Hb |]. split; [exact Hi |].
  unfold format_span, BOLD, ITALIC, is_bold, is_italic. rewrite Hb, Hi.
  destruct (Z.testbit (span_flags s) 4), (Z.testbit (span_flags s) 1);
    try reflexivity.
  rewrite !append_cons, !append_nil_l, !append_assoc.
  rewrite !append_cons, !append_nil_l. reflexivity.
Qed.

Example format_span_both : format_span (mkSpan "x" 18) = "***x***".
Proof. reflexivity. Qed.

Example format_span_other_bits : format_span (mkSpan "x" 5) = "x".
Proof. reflexivity. Qed.

(** Every fragment of a block ends with the blank line. *)
Lemma block_fragments_shape (b : block) (f : string) :
  In f (block_fragments b) ->
  exists par, f = join " " par +:+ LF +:+ LF /\ par <> []
              /\ block_fragments b = [f].
Proof.
  destruct b as [lines|]; simpl; [| tauto].
  destruct (paragraph lines) as [|e es] eqn:Hp; simpl; [tauto |].
  intros [<-|[]]. exists (e :: es). repeat split. discriminate.
Qed.

(** The claim of C10 fails: a line whose only span has an empty text has
    an empty concatenation, and still it is entered in the paragraph, and
    the block emits a fragment that only holds the blank line. *)
Lemma empty_span_emits_blank_fragment :
  join "" (line_text empty_line) = ""
  /\ paragraph [empty_line] = [""]
  /\ block_fragments (TextBlock [empty_line]) = [LF +:+ LF]
  /\ page_fragments true (mkPage [TextBlock [empty_line]] "" []) = [LF +:+ LF].
Proof. repeat split. Qed.

(** C10, amended. With [preserve_formatting] true a line without spans
    enters nothing in the paragraph and a line with a span enters one
    entry, the concatenation of its formatted spans, empty or not; a text
    block emits nothing when none of its lines has a span, and one
    fragment otherwise; every fragment emitted ends with the blank line,
    so it is not the empty string. *)
Theorem paragraph_fragments (lines : list line) :
  paragraph lines = flat_map line_entries lines
  /\ block_fragments (TextBlock lines) =
       (if forallb (fun l => match line_spans l with [] => true | _ => false end)
                   lines
        then []
        else [join " " (paragraph lines) +:+ LF +:+ LF])
  /\ Forall (fun f => f <> "" /\ exists par, f = par +:+ LF +:+ LF)
            (block_fragments (TextBlock lines)).
Proof.
  split; [apply paragraph_flat_map |]. split.
  - simpl. destruct (forallb _ lines) eqn:Hall.
    + assert (Hnil : paragraph lines = []).
      { apply paragraph_nil. apply List.Forall_forall. intros l Hl.
        rewrite forallb_forall in Hall. specialize (Hall l Hl).
        destruct (line_spans l); [reflexivity | discriminate]. }
      now rewrite Hnil.
    + destruct (paragraph lines) eqn:Hp; [| reflexivity].
      apply paragraph_nil in Hp. exfalso.
      assert (Ht : forallb (fun l => match line_spans l with
                                     | [] => true | _ => false end) lines = true).
      { apply forallb_forall. intros l Hl.
        rewrite List.Forall_forall in Hp. now rewrite (Hp l Hl). }
      congruence.
  - apply List.Forall_forall. intros f Hf.
    destruct (block_fragments_shape _ _ Hf) as (par & -> & _ & _). split.
    + intros H. apply append_empty in H as [_ H]. discriminate.
    + eauto.
Qed.

(** ** Events and the world *)

Ltac case_event ev :=
  destruct ev; try reflexivity;
  match goal with ok : bool |- _ => destruct ok; reflexivity end.

Lemma apply_events_app (e1 e2 : list event) (w : world) :
  apply_events (e1 ++ e2) w = apply_events e2 (apply_events e1 w).
Proof. apply fold_left_app. Qed.

Lemma apply_event_dirs ev w : dirs (apply_event ev w) = dirs w.
Proof. case_event ev. Qed.

Lemma apply_event_sigint ev w : sigint (apply_event ev w) = sigint w.
Proof. case_event ev. Qed.

Lemma apply_event_trace ev w : trace (apply_event ev w) = ev :: trace w.
Proof. case_event ev. Qed.

Lemma apply_events_dirs evs w : dirs (apply_events evs w) = dirs w.
Proof.
  revert w. induction evs as [|ev evs IH]; intros w; simpl; [reflexivity |].
  now rewrite IH, apply_event_dirs.
Qed.

Lemma apply_events_sigint evs w : sigint (apply_events evs w) = sigint w.
Proof.
  revert w. induction evs as [|ev evs IH]; intros w; simpl; [reflexivity |].
  now rewrite IH, apply_event_sigint.
Qed.

Lemma apply_events_trace evs w :
  trace (apply_events evs w) = rev evs ++ trace w.
Proof.
  revert w. induction evs as [|ev evs IH]; intros w; simpl; [reflexivity |].
  rewrite IH, apply_event_trace. now rewrite <- app_assoc.
Qed.

Lemma apply_event_files ev w p :
  files (apply_event ev w) !! p = last_write [ev] p (files w !! p).
Proof.
  destruct ev as [| | q ? []| q ? []| | | | | | | |]; simpl; try reflexivity;
    destruct (decide (q = p)) as [->|Hne];
    first [apply lookup_insert_eq | now apply lookup_insert_ne].
Qed.

Lemma last_write_app e1 e2 p before :
  last_write (e1 ++ e2) p before = last_write e2 p (last_write e1 p before).
Proof.
  revert before. induction e1 as [|ev e1 IH]; intros before; simpl; [reflexivity |].
  destruct (written ev) as [[q f]|]; apply IH.
Qed.

(** The files after events: at each path the last file written there, or
    the file that was there before. *)
Lemma apply_events_files evs w p :
  files (apply_events evs w) !! p = last_write evs p (files w !! p).
Proof.
  revert w. induction evs as [|ev evs IH]; intros w; [reflexivity |].
  change (apply_events (ev :: evs) w) with (apply_events evs (apply_event ev w)).
  rewrite IH, apply_event_files.
  change (ev :: evs) with ([ev] ++ evs). now rewrite last_write_app.
Qed.

Lemma last_write_twice evs p before :
  last_write evs p (last_write evs p before) = last_write evs p before.
Proof.
  enough (H : forall b1 b2,
    last_write evs p b1 = last_write evs p b2 \/
    (last_write evs p b1 = b1 /\ last_write evs p b2 = b2)).
  { destruct (H (last_write evs p before) before) as [E|[E _]]; exact E. }
  induction evs as [|ev evs IH]; intros b1 b2; simpl; [right; auto |].
  destruct (written ev) as [[q f]|]; [| apply IH].
  destruct (decide (q = p)); [left; reflexivity | apply IH].
Qed.

(** Doing the same writes again leaves the files as they are. *)
Lemma apply_events_twice evs w :
  files (apply_events evs (apply_events evs w)) = files (apply_events evs w).
Proof.
  apply map_eq. intros p. rewrite !apply_events_files. apply last_write_twice.
Qed.

Lemma closes_app p t1 t2 : closes p (t1 ++ t2) = closes p t1 + closes p t2.
Proof.
  induction t1 as [|ev t1 IH]; simpl; [reflexivity |].
  destruct ev; try exact IH. rewrite IH. lia.
Qed.

Lemma closes_no_close p tr :
  Forall (fun ev => forall q, ev <> EvClose q) tr -> closes p tr = 0.
Proof.
  induction 1 as [|ev tr Hev _ IH]; simpl; [reflexivity |].
  destruct ev; try exact IH. now destruct (Hev p0).
Qed.

(** ** Computations that only read the setting *)

Lemma apply_event_setting ev w : setting_of (apply_event ev w) = setting_of w.
Proof. destruct ev as [| | ? ? []| ? ? []| | | | | | | |]; reflexivity. Qed.

Lemma apply_events_setting evs w :
  setting_of (apply_events evs w) = setting_of w.
Proof.
  revert w. induction evs as [|ev evs IH]; intros w; [reflexivity |].
  change (apply_events (ev :: evs) w) with (apply_events evs (apply_event ev w)).
  now rewrite IH, apply_event_setting.
Qed.

Lemma emits_ret {A} P (a : A) : emits P (mret a).
Proof. intros st. exists (Ret a), []. repeat split; auto. Qed.

Lemma emits_raise {A} P msg : emits P (@raise A (Exception msg)).
Proof. intros st. exists (Raise (Exception msg)), []. repeat split; auto. Qed.

Lemma emits_bind {A B} P (m : M A) (k : A -> M B) :
  emits P m -> (forall a, emits P (k a)) -> emits P (m ≫= k).
Proof.
  intros Hm Hk st. destruct (Hm st) as (r & evs & Hr & Hevs & Hrun).
  destruct r as [a|e].
  - destruct (Hk a st) as (r' & evs' & Hr' & Hevs' & Hrun').
    exists r', (evs ++ evs'). split; [exact Hr' |]. split.
    + apply Forall_app; auto.
    + intros w Hw. unfold mbind, M_bind. rewrite (Hrun w Hw).
      rewrite apply_events_app. apply Hrun'. now rewrite apply_events_setting.
  - exists (Raise e), evs. split; [exact Hr |]. split; [exact Hevs |].
    intros w Hw. unfold mbind, M_bind. now rewrite (Hrun w Hw).
Qed.

Lemma emits_emit P ev : P ev -> written ev = None -> emits P (emit ev).
Proof.
  intros Hev Hw st. exists (Ret tt), [ev]. repeat split; auto.
  intros w _. unfold emit, apply_events, apply_event. simpl.
  destruct ev as [| | ? ? []| ? ? []| | | | | | | |]; try reflexivity; discriminate.
Qed.

Lemma emits_mono {A} (P Q : event -> Prop) (m : M A) :
  (forall ev, P ev -> Q ev) -> emits P m -> emits Q m.
Proof.
  intros HPQ Hm st. destruct (Hm st) as (r & evs & Hr & Hevs & Hrun).
  exists r, evs. repeat split; auto. eapply Forall_impl; eauto.
Qed.

Lemma emits_write_bytes P p data :
  (forall ok, P (EvWriteBytes p data ok)) -> emits P (write_bytes p data).
Proof.
  intros HP [[ds ce] et].
  destruct (bool_decide (parent p ∈ ds) && negb (bool_decide (p ∈ ds))) eqn:Hc.
  - exists (Ret tt), [EvWriteBytes p data true]. repeat split; auto.
    intros w [= <- <- <-]. unfold write_bytes, can_write. now rewrite Hc.
  - exists (Raise (Exception (et (CannotWrite p)))),
      [EvWriteBytes p data false]. repeat split; auto.
    intros w [= <- <- <-]. unfold write_bytes, can_write. now rewrite Hc.
Qed.

Lemma emits_write_text P p text :
  (forall ok, P (EvWriteText p text ok)) -> emits P (write_text p text).
Proof.
  intros HP [[ds ce] et].
  destruct (bool_decide (parent p ∈ ds) && negb (bool_decide (p ∈ ds))) eqn:Hc.
  - exists (Ret tt), [EvWriteText p text true]. repeat split; auto.
    intros w [= <- <- <-]. unfold write_text, can_write. now rewrite Hc.
  - exists (Raise (Exception (et (CannotWrite p)))),
      [EvWriteText p text false]. repeat split; auto.
    intros w [= <- <- <-]. unfold write_text, can_write. now rewrite Hc.
Qed.

Lemma emits_console_print P msg :
  P (EvPrint msg) -> emits P (console_print msg).
Proof.
  intros HP [[ds ce] et]. destruct (ce msg) as [e|] eqn:Hc.
  - exists (Raise (Exception e)), []. repeat split; auto.
    intros w [= <- <- <-]. unfold console_print. now rewrite Hc.
  - exists (Ret tt), [EvPrint msg]. repeat split; auto.
    intros w [= <- <- <-]. unfold console_print. now rewrite Hc.
Qed.

Lemma emits_extract_image P doc xref : emits P (extract_image doc xref).
Proof.
  intros [[ds ce] et]. unfold extract_image.
  destruct (doc_images doc !! xref) as [im|].
  - exists (Ret im), []. repeat split; auto.
  - exists (Raise (Exception (et (CannotExtract xref)))), [].
    repeat split; auto. now intros w [= <- <- <-].
Qed.

Lemma extract_images_emits doc out pn image_list :
  forall i mc, emits is_write_bytes (extract_images doc out pn i image_list mc).
Proof.
  induction image_list as [|xref rest IH]; intros i mc; simpl.
  - apply emits_ret.
  - apply emits_bind; [apply emits_extract_image |]. intros im.
    apply emits_bind; [apply emits_write_bytes; now intros ok |]. intros _.
    apply IH.
Qed.

Lemma process_pages_emits doc out pres pages :
  forall pn mc, emits is_write_bytes (process_pages doc out pres pn pages mc).
Proof.
  induction pages as [|pg rest IH]; intros pn mc; simpl.
  - apply emits_ret.
  - apply emits_bind; [| intros mc'; apply IH].
    destruct out; [apply extract_images_emits | apply emits_ret].
Qed.

Lemma convert_opened_emits p out pres doc :
  emits (fun ev => forall q ok, ev <> EvOpen q ok)
        (convert_opened p out pres doc).
Proof.
  unfold convert_opened.
  apply emits_bind.
  { eapply emits_mono; [| apply process_pages_emits].
    intros [] H q ok'; try discriminate; destruct H. }
  intros mc. apply emits_bind.
  { apply emits_emit; [intros q ok; discriminate | reflexivity]. }
  intros _. apply emits_bind; [| intros _; apply emits_ret].
  destruct out as [o|]; [| apply emits_ret].
  apply emits_bind; [apply emits_write_text; intros ok q ok'; discriminate |].
  intros _. apply emits_console_print. intros q ok; discriminate.
Qed.

(** *** The three ways [pdf_to_markdown] can go *)

Lemma tick_passes w : sigint w <> Some 0 -> tick w = (Ret tt, after_tick w).
Proof.
  intros H. unfold tick, after_tick. destruct w as [fs ds out t [[|k]|] tr ce et];
    simpl in *; [congruence | reflexivity | reflexivity].
Qed.

Lemma tick_interrupts w :
  sigint w = Some 0 -> tick w = (Raise KeyboardInterrupt, set_sigint None w).
Proof. intros H. unfold tick. now rewrite H. Qed.

Lemma pdf_to_markdown_interrupted p out pres w :
  sigint w = Some 0 ->
  pdf_to_markdown p out pres w = (Raise KeyboardInterrupt, set_sigint None w).
Proof.
  intros H. unfold pdf_to_markdown, try_except, pdf_to_markdown_try, fitz_open,
    mbind, M_bind. now rewrite (tick_interrupts w H).
Qed.

Lemma pdf_to_markdown_unreadable p out pres w :
  sigint w <> Some 0 -> readable w p = None ->
  pdf_to_markdown p out pres w =
    (Ret None,
     apply_events [EvOpen p false;
                   EvLog ERROR ("Error converting PDF: " +:+
                                error_text w (CannotOpen p))]
                  (after_tick w)).
Proof.
  intros Hs Hr. unfold pdf_to_markdown, try_except, pdf_to_markdown_try,
    fitz_open, mbind, M_bind. rewrite (tick_passes w Hs).
  unfold read_pdf, readable in *. change (files (after_tick w)) with (files w).
  destruct (files w !! p) as [[]|]; try discriminate; reflexivity.
Qed.

Lemma pdf_to_markdown_opened p out pres w doc :
  sigint w <> Some 0 -> readable w p = Some doc ->
  pdf_to_markdown p out pres w =
    match convert_opened p out pres doc
            (apply_event (EvOpen p true) (after_tick w)) with
    | (Ret s, w') => (Ret (Some s), w')
    | (Raise (Exception msg), w') =>
        (Ret None, apply_event (EvLog ERROR ("Error converting PDF: " +:+ msg)) w')
    | (Raise e, w') => (Raise e, w')
    end.
Proof.
  intros Hs Hr. unfold pdf_to_markdown, try_except, pdf_to_markdown_try,
    fitz_open, mbind, M_bind. rewrite (tick_passes w Hs).
  unfold read_pdf, readable in *. change (files (after_tick w)) with (files w).
  destruct (files w !! p) as [[]|]; try discriminate.
  injection Hr as ->.
  change (record_event (EvOpen p true) (after_tick w))
    with (apply_event (EvOpen p true) (after_tick w)).
  destruct (convert_opened p out pres doc _) as [[s|[msg| |c]] w']; reflexivity.
Qed.

(** [pdf_to_markdown], when Ctrl+C does not arrive at its start, is
    decided by what the engine reads at [p] and by the setting. *)
Lemma pdf_to_markdown_run p out pres (st : setting) (od : option document) :
  exists r evs,
    (forall w, setting_of w = st -> readable w p = od -> sigint w <> Some 0 ->
       pdf_to_markdown p out pres w = (Ret r, apply_events evs (after_tick w))).
Proof.
  destruct od as [doc|].
  - destruct (convert_opened_emits p out pres doc st)
      as (r0 & evs0 & Hr0 & _ & Hrun).
    destruct r0 as [s|[msg| |c]]; try contradiction.
    + exists (Some s), (EvOpen p true :: evs0). intros w Hd Hr Hs.
      rewrite (pdf_to_markdown_opened p out pres w doc Hs Hr).
      rewrite (Hrun (apply_event (EvOpen p true) (after_tick w)) Hd). reflexivity.
    + exists None,
        ((EvOpen p true :: evs0)
           ++ [EvLog ERROR ("Error converting PDF: " +:+ msg)]).
      intros w Hd Hr Hs.
      rewrite (pdf_to_markdown_opened p out pres w doc Hs Hr).
      rewrite (Hrun (apply_event (EvOpen p true) (after_tick w)) Hd).
      now rewrite apply_events_app.
  - exists None,
      [EvOpen p false;
       EvLog ERROR ("Error converting PDF: " +:+ snd st (CannotOpen p))].
    intros w <- Hr Hs.
    apply (pdf_to_markdown_unreadable p out pres w Hs Hr).
Qed.

Lemma after_tick_never w : sigint w = None -> after_tick w = w.
Proof. destruct w; simpl; intros ->; reflexivity. Qed.

(** Without a destination, or without images, the pages only add their
    text. *)
Lemma process_pages_text doc out pres pages :
  out = None \/ Forall (fun pg => page_images pg = []) pages ->
  forall pn mc w,
    process_pages doc out pres pn pages mc w
    = (Ret (mc ++ flat_map (page_fragments pres) pages), w).
Proof.
  intros H. induction pages as [|pg rest IH]; intros pn mc w; simpl.
  - now rewrite app_nil_r.
  - assert (Hrest : out = None \/ Forall (fun pg => page_images pg = []) rest).
    { destruct H as [H|H]; [now left | right; now inversion H]. }
    assert (Himg : match out with
                   | Some o => extract_images doc o pn 1 (page_images pg)
                                 (mc ++ page_fragments pres pg)
                   | None => mret (mc ++ page_fragments pres pg)
                   end w = (Ret (mc ++ page_fragments pres pg), w)).
    { destruct out as [o|]; [| reflexivity].
      destruct H as [H|H]; [discriminate |]. inversion H as [|? ? Hpg _]; subst.
      now rewrite Hpg. }
    unfold mbind, M_bind. rewrite Himg. rewrite (IH Hrest).
    now rewrite <- app_assoc.
Qed.

Lemma convert_opened_no_destination p pres doc w :
  convert_opened p None pres doc w
  = (Ret (text_markdown pres doc), apply_event (EvClose p) w).
Proof.
  unfold convert_opened, mbind, M_bind.
  rewrite (process_pages_text doc None pres (doc_pages doc) (or_introl eq_refl)).
  unfold text_markdown. now rewrite <- app_assoc.
Qed.

(** C8. Without a destination [pdf_to_markdown] leaves the files and the
    directories as they are and records no write and no console line;
    when it returns a Markdown string, the document was read at the
    path, the string is the Markdown of its text, and the only events
    are the opening and the closing of the document. *)
Theorem no_destination_no_write (p : Path) (pres : bool) (w : world) :
  let r := fst (pdf_to_markdown p None pres w) in
  let w' := snd (pdf_to_markdown p None pres w) in
  files w' = files w /\ dirs w' = dirs w
  /\ (exists evs, trace w' = evs ++ trace w
        /\ Forall (fun ev => ~ is_write ev /\ forall msg, ev <> EvPrint msg) evs)
  /\ match r with
     | Ret (Some md) =>
         exists doc, readable w p = Some doc /\ md = text_markdown pres doc
                     /\ trace w' = [EvClose p; EvOpen p true] ++ trace w
     | _ => True
     end.
Proof.
  destruct (decide (sigint w = Some 0)) as [Hs|Hs].
  { rewrite (pdf_to_markdown_interrupted _ _ _ _ Hs). simpl.
    repeat split; auto. exists []. split; auto. }
  destruct (readable w p) as [doc|] eqn:Hr.
  - rewrite (pdf_to_markdown_opened _ _ _ _ _ Hs Hr).
    rewrite convert_opened_no_destination. simpl.
    repeat split; auto.
    + exists [EvClose p; EvOpen p true]. split; [reflexivity |].
      repeat constructor; simpl; try tauto; discriminate.
    + exists doc. auto.
  - rewrite (pdf_to_markdown_unreadable _ _ _ _ Hs Hr). simpl.
    repeat split; auto. eexists [_; _]. split; [reflexivity |].
    repeat constructor; simpl; try tauto; discriminate.
Qed.

(** C7. Two calls in a row on the same path with the same settings, with
    no Ctrl+C and with the PDF file still the same after the first call,
    return the same result and add the same events to the world: every
    image write of the second call has the path and the bytes of the
    first; and the second call leaves the files as the first left them. *)
Theorem conversion_deterministic (p : Path) (out : option Path) (pres : bool)
  (w : world) :
  let r1 := fst (pdf_to_markdown p out pres w) in
  let w1 := snd (pdf_to_markdown p out pres w) in
  let r2 := fst (pdf_to_markdown p out pres w1) in
  let w2 := snd (pdf_to_markdown p out pres w1) in
  sigint w = None ->
  files w1 !! p = files w !! p ->
  r2 = r1
  /\ (exists evs, w1 = apply_events evs w /\ w2 = apply_events evs w1)
  /\ files w2 = files w1.
Proof.
  intros r1 w1 r2 w2 Hs Hp.
  destruct (pdf_to_markdown_run p out pres (setting_of w) (readable w p))
    as (r & evs & Hrun).
  assert (Hs0 : sigint w <> Some 0) by (rewrite Hs; discriminate).
  assert (H1 : pdf_to_markdown p out pres w = (Ret r, apply_events evs w)).
  { rewrite <- (after_tick_never w Hs) at 2. now apply Hrun. }
  assert (Hw1 : w1 = apply_events evs w) by (unfold w1; now rewrite H1).
  assert (Hs1 : sigint w1 = None) by (rewrite Hw1, apply_events_sigint; exact Hs).
  assert (H2 : pdf_to_markdown p out pres w1 = (Ret r, apply_events evs w1)).
  { rewrite <- (after_tick_never w1 Hs1) at 2. apply Hrun.
    - rewrite Hw1. apply apply_events_setting.
    - unfold readable. now rewrite Hp.
    - rewrite Hs1. discriminate. }
  unfold r2, r1, w2. rewrite H2. fold w1. rewrite H1. simpl.
  split; [reflexivity |]. split; [exists evs; auto |].
  rewrite Hw1. apply apply_events_twice.
Qed.

Lemma conversion_deterministic_witness :
  fst scan_again = fst scan_run
  /\ files (snd scan_again) = files (snd scan_run).
Proof.
  destruct (conversion_deterministic (parse_path "scan.pdf")
              (Some (parse_path "scan.md")) true album_world)
    as (Hres & _ & Hfiles).
  - reflexivity.
  - vm_compute. reflexivity.
  - split; [exact Hres | exact Hfiles].
Defined.

(** ** The header and the separator *)

Lemma metadata_get_present metadata key :
  metadata_get metadata key =
    if field_present metadata key then Some (field metadata key) else None.
Proof.
  unfold metadata_get, field_present, field.
  destruct (metadata !! key) as [v|]; simpl; [| reflexivity].
  now destruct (truthy_str v).
Qed.

Lemma convert_opened_text p out pres doc w :
  out = None \/ Forall (fun pg => page_images pg = []) (doc_pages doc) ->
  (forall o, out = Some o -> can_write o w = true) ->
  (forall o, out = Some o -> console_error w (converted_line p o) = None) ->
  fst (convert_opened p out pres doc w) = Ret (text_markdown pres doc).
Proof.
  intros Himg Hw Hc. unfold convert_opened, mbind, M_bind.
  rewrite (process_pages_text doc out pres (doc_pages doc) Himg).
  rewrite <- app_assoc. fold (text_markdown pres doc).
  destruct out as [o|]; simpl; [| reflexivity].
  unfold write_text, console_print.
  change (can_write o (record_event (EvClose p) w)) with (can_write o w).
  rewrite (Hw o eq_refl). simpl.
  change (console_error w ("Converted: " +:+ path_str p +:+ " -> "
                           +:+ path_str o))
    with (console_error w (converted_line p o)).
  now rewrite (Hc o eq_refl).
Qed.

(** ** Closing the document *)

Lemma convert_opened_stages p out pres doc w :
  convert_opened p out pres doc w =
    match process_pages doc out pres 1 (doc_pages doc)
            (metadata_fragments (doc_metadata doc) ++ [SEPARATOR]) w with
    | (Ret mc, w2) =>
        let w3 := apply_event (EvClose p) w2 in
        match out with
        | Some o =>
            if can_write o w3
            then match console_error w3 (converted_line p o) with
                 | None =>
                     (Ret (join "" mc),
                      apply_events
                        [EvWriteText o (join "" mc) true;
                         EvPrint (converted_line p o)] w3)
                 | Some e =>
                     (Raise (Exception e),
                      apply_event (EvWriteText o (join "" mc) true) w3)
                 end
            else (Raise (Exception (error_text w3 (CannotWrite o))),
                  apply_event (EvWriteText o (join "" mc) false) w3)
        | None => (Ret (join "" mc), w3)
        end
    | (Raise e, w2) => (Raise e, w2)
    end.
Proof.
  unfold convert_opened, mbind, M_bind.
  destruct (process_pages doc out pres 1 (doc_pages doc) _ w) as [[mc|e] w2];
    [| reflexivity].
  simpl. destruct out as [o|]; [| reflexivity].
  unfold write_text, console_print, converted_line.
  change (record_event (EvClose p) w2) with (apply_event (EvClose p) w2).
  destruct (can_write o (apply_event (EvClose p) w2)); [| reflexivity].
  simpl. destruct (console_error w2 _); reflexivity.
Qed.

(** C2. The code does not close the document on every path: the
    destination of the scanned page lies in a directory that does not
    exist, the write of its image raises inside the loop over the
    pages, the handler logs the error, whatever its text, and the
    converter returns [None] with the document opened and never
    closed. *)
Lemma failed_image_write_leaves_document_open :
  fst failed_run = Ret None
  /\ (exists msg,
        trace (snd failed_run) =
          [EvLog ERROR ("Error converting PDF: " +:+ msg);
           EvWriteBytes (parse_path "nodir/image_page1_1.png") "PNGDATA" false;
           EvOpen (parse_path "scan.pdf") true])
  /\ closes (parse_path "scan.pdf") (trace (snd failed_run)) = 0.
Proof.
  split; [vm_compute; reflexivity |].
  split; [eexists; vm_compute; reflexivity | vm_compute; reflexivity].
Qed.

(** The path beside it closes the document: with the current directory
    as destination the image is written, the write of the Markdown is
    refused, and the document has been closed before. *)
Example failed_markdown_write_closes_document :
  fst refused_run = Ret None
  /\ closes (parse_path "scan.pdf") (trace (snd refused_run)) = 1.
Proof. split; vm_compute; reflexivity. Qed.

(** Where the closing stands: once the document is open, [doc.close()]
    is reached exactly when the extraction of the pages (lines 49 to
    94) returns, as the first event after it and before the Markdown
    file is written, so also when that write or the console line
    raises; an exception in the extraction skips it. *)
Lemma closed_when_extraction_returns (p : Path) (out : option Path)
  (pres : bool) (w : world) (doc : document) :
  let opened := apply_event (EvOpen p true) (after_tick w) in
  let extraction :=
    process_pages doc out pres 1 (doc_pages doc)
      (metadata_fragments (doc_metadata doc) ++ [SEPARATOR]) opened in
  let r := fst (pdf_to_markdown p out pres w) in
  let w' := snd (pdf_to_markdown p out pres w) in
  sigint w <> Some 0 -> readable w p = Some doc ->
  closes p (trace (snd extraction)) = closes p (trace w)
  /\ match fst extraction with
     | Ret _ =>
         (exists later, trace w' = later ++ EvClose p :: trace (snd extraction)
                        /\ closes p later = 0)
         /\ closes p (trace w') = closes p (trace w) + 1
     | Raise _ =>
         r = Ret None /\ closes p (trace w') = closes p (trace w)
     end.
Proof.
  intros opened extraction r w' Hs Hr.
  destruct (process_pages_emits doc out pres (doc_pages doc) 1
              (metadata_fragments (doc_metadata doc) ++ [SEPARATOR])
              (setting_of w)) as (r0 & evs & Hr0 & Hevs & Hrun).
  specialize (Hrun opened eq_refl).
  assert (Hex : closes p (trace (apply_events evs opened)) = closes p (trace w)).
  { rewrite apply_events_trace, closes_app. unfold opened. simpl.
    rewrite closes_no_close; [reflexivity |].
    apply Forall_rev. eapply Forall_impl; [exact Hevs |].
    intros [] H q; try discriminate; destruct H. }
  unfold r, w'. rewrite (pdf_to_markdown_opened _ _ _ _ _ Hs Hr).
  rewrite convert_opened_stages. fold opened. unfold extraction. rewrite Hrun.
  simpl. split; [exact Hex |].
  destruct r0 as [mc|[msg| |c]]; try contradiction.
  - assert (Hclose : (if decide (p = p) then 1 else 0)
                     + closes p (trace (apply_events evs opened))
                     = closes p (trace w) + 1).
    { destruct (decide (p = p)); [| congruence]. rewrite Hex. lia. }
    destruct out as [o|].
    + destruct (can_write o _); simpl.
      * destruct (console_error _ _); simpl.
        -- split; [eexists [_; _]; split; reflexivity | exact Hclose].
        -- split; [eexists [_; _]; split; reflexivity | exact Hclose].
      * split; [eexists [_; _]; split; reflexivity | exact Hclose].
    + simpl. split; [exists []; split; reflexivity | exact Hclose].
  - simpl. split; [reflexivity | exact Hex].
Qed.

Lemma closed_when_extraction_returns_witness :
  closes (parse_path "scan.pdf")
    (trace (snd (pdf_to_markdown (parse_path "scan.pdf")
                   (Some (parse_path "scan.md")) true scan_world))) = 1.
Proof.
  assert (Hs : sigint scan_world <> Some 0) by discriminate.
  assert (Hr : readable scan_world (parse_path "scan.pdf") = Some scan_doc)
    by reflexivity.
  exact (proj2 (proj2 (closed_when_extraction_returns (parse_path "scan.pdf")
                         (Some (parse_path "scan.md")) true scan_world scan_doc
                         Hs Hr))).
Defined.

(** ** The image files *)

Lemma extract_images_written doc out pn image_list :
  forall i mc w mc' w',
    extract_images doc out pn i image_list mc w = (Ret mc', w') ->
    exists evs, w' = apply_events evs w
      /\ forall k xref im,
           image_list !! k = Some xref -> doc_images doc !! xref = Some im ->
           In (image_write out pn (i + k) im) evs.
Proof.
  induction image_list as [|x rest IH]; intros i mc w mc' w' H; simpl in H.
  - injection H as _ <-. exists []. split; [reflexivity |].
    intros k xref im Hk. discriminate.
  - unfold mbind, M_bind, extract_image in H.
    destruct (doc_images doc !! x) as [im0|] eqn:Him0; [| discriminate].
    simpl in H. unfold write_bytes in H.
    destruct (can_write _ w); [| discriminate].
    apply IH in H as (evs & -> & Hin).
    exists (image_write out pn i im0 :: evs). split; [reflexivity |].
    intros [|k] xref im Hk Him; simpl in Hk.
    + injection Hk as <-. rewrite Him0 in Him. injection Him as <-.
      rewrite Nat.add_0_r. now left.
    + right. replace (i + S k) with (S i + k) by lia. eapply Hin; eauto.
Qed.

Lemma process_pages_written doc out pres pages :
  forall pn mc w mc' w',
    process_pages doc (Some out) pres pn pages mc w = (Ret mc', w') ->
    exists evs, w' = apply_events evs w
      /\ forall j pg k xref im,
           pages !! j = Some pg -> page_images pg !! k = Some xref ->
           doc_images doc !! xref = Some im ->
           In (image_write out (pn + j) (S k) im) evs.
Proof.
  induction pages as [|pg0 rest IH]; intros pn mc w mc' w' H; simpl in H.
  - injection H as _ <-. exists []. split; [reflexivity |].
    intros j pg k xref im Hj. discriminate.
  - unfold mbind, M_bind in H.
    destruct (extract_images doc out pn 1 (page_images pg0) _ w)
      as [[mc1|e] w1] eqn:Himg; [| discriminate].
    apply extract_images_written in Himg as (evs1 & -> & Hin1).
    apply IH in H as (evs2 & -> & Hin2).
    exists (evs1 ++ evs2). split; [now rewrite apply_events_app |].
    intros [|j] pg k xref im Hj Hk Him; simpl in Hj; apply in_or_app.
    + injection Hj as <-. left. rewrite Nat.add_0_r.
      apply (Hin1 k xref im Hk Him).
    + right. replace (pn + S j) with (S pn + j) by lia. eapply Hin2; eauto.
Qed.

(** A conversion that returns a Markdown string has written every image
    of the document under the name of its page and ordinal. *)
Lemma pdf_to_markdown_written p out pres w doc md :
  readable w p = Some doc ->
  fst (pdf_to_markdown p (Some out) pres w) = Ret (Some md) ->
  exists evs,
    snd (pdf_to_markdown p (Some out) pres w) = apply_events evs (after_tick w)
    /\ forall pn i im, image_at doc pn i = Some im ->
                       In (image_write out pn i im) evs.
Proof.
  intros Hr Hmd.
  destruct (decide (sigint w = Some 0)) as [Hs|Hs].
  { rewrite (pdf_to_markdown_interrupted _ _ _ _ Hs) in Hmd. discriminate. }
  rewrite (pdf_to_markdown_opened _ _ _ _ _ Hs Hr) in Hmd |- *.
  rewrite convert_opened_stages in Hmd |- *.
  destruct (process_pages doc (Some out) pres 1 (doc_pages doc) _ _)
    as [[mc|e] w2] eqn:Hpages.
  - apply process_pages_written in Hpages as (evs & -> & Hin).
    simpl in Hmd |- *.
    destruct (can_write out _); simpl in Hmd |- *; [| discriminate].
    destruct (console_error _ _); simpl in Hmd |- *; [discriminate |].
    eexists (EvOpen p true :: evs ++ [EvClose p; _; _]). split.
    + change (apply_events (EvOpen p true :: ?l) ?w)
        with (apply_events l (apply_event (EvOpen p true) w)).
      now rewrite apply_events_app.
    + intros [|j] [|k] im Him; simpl in Him; try discriminate.
      destruct (doc_pages doc !! j) as [pg|] eqn:Hj; [| discriminate].
      destruct (page_images pg !! k) as [xref|] eqn:Hk; [| discriminate].
      right. apply in_or_app. left.
      apply (Hin j pg k xref im Hj Hk Him).
  - destruct e; simpl in Hmd; discriminate.
Qed.

Lemma last_write_cases evs p :
  forall before,
    (last_write evs p before = before
     /\ Forall (fun ev => forall f, written ev <> Some (p, f)) evs)
    \/ (exists f ev, last_write evs p before = Some f
                     /\ In ev evs /\ written ev = Some (p, f)).
Proof.
  induction evs as [|ev evs IH]; intros before; simpl.
  - left. split; [reflexivity | constructor].
  - destruct (written ev) as [[q f]|] eqn:Hev.
    + destruct (decide (q = p)) as [->|Hne].
      * right. destruct (IH (Some f)) as [[Hl _]|(f' & ev' & Hl & Hin & Hw)].
        -- exists f, ev. auto.
        -- exists f', ev'. auto.
      * destruct (IH before) as [[Hl Hall]|(f' & ev' & Hl & Hin & Hw)].
        -- left. split; [exact Hl |]. constructor; [| exact Hall].
           intros f0. rewrite Hev. congruence.
        -- right. exists f', ev'. auto.
    + destruct (IH before) as [[Hl Hall]|(f' & ev' & Hl & Hin & Hw)].
      * left. split; [exact Hl |]. constructor; [| exact Hall].
        intros f0. rewrite Hev. discriminate.
      * right. exists f', ev'. auto.
Qed.

(** After events that write at [p], the file at [p] is one that they
    wrote. *)
Lemma written_file_is_from_events evs w p ev f0 :
  In ev evs -> written ev = Some (p, f0) ->
  exists f ev', files (apply_events evs w) !! p = Some f
                /\ In ev' evs /\ written ev' = Some (p, f).
Proof.
  intros Hin Hw. rewrite apply_events_files.
  destruct (last_write_cases evs p (files w !! p)) as [[_ Hall]|H]; [| exact H].
  rewrite List.Forall_forall in Hall. destruct (Hall ev Hin f0 Hw).
Qed.

(** The claim of C9 fails: the name of an image file also holds the
    extension of the image. The scanned page and the photograph have
    each one image on page 1; converted into the same directory, their
    images get two names and the second conversion leaves the image
    file of the first as it was. *)
Lemma image_name_holds_extension :
  image_dir (parse_path "scan.md") = image_dir (parse_path "photo.md")
  /\ image_at scan_doc 1 1 = Some (mkImage "PNGDATA" "png")
  /\ image_at photo_doc 1 1 = Some (mkImage "JPEGDATA" "jpeg")
  /\ image_name 1 1 "png" = "image_page1_1.png"
  /\ image_name 1 1 "jpeg" = "image_page1_1.jpeg"
  /\ fst scan_run = Ret (Some (SEPARATOR +:+ image_reference "image_page1_1.png"))
  /\ fst photo_run
     = Ret (Some (SEPARATOR +:+ image_reference "image_page1_1.jpeg"))
  /\ files (snd photo_run) !! parse_path "image_page1_1.png"
     = Some (BytesFile "PNGDATA")
  /\ files (snd photo_run) !! parse_path "image_page1_1.jpeg"
     = Some (BytesFile "JPEGDATA").
Proof. repeat split; vm_compute; reflexivity. Qed.

(** C9, amended. The name of an image file holds the page number, the
    ordinal of the image on the page and the extension of the image, and
    nothing of the name of the PDF. When two conversions in a row, with
    destinations of the same image directory, both return a Markdown
    string, and the two documents have an image at the same page number
    and ordinal with the same extension, both write the image under the
    same path, and after the second conversion the file at that path is
    one that the second conversion wrote. *)
Theorem image_files_collide (p1 p2 o1 o2 : Path) (pres1 pres2 : bool)
  (w : world) (doc1 doc2 : document) (md1 md2 : string) (pn i : nat)
  (im1 im2 : image) :
  let run1 := pdf_to_markdown p1 (Some o1) pres1 w in
  let run2 := pdf_to_markdown p2 (Some o2) pres2 (snd run1) in
  let target := joinpath (image_dir o1) (image_name pn i (image_ext im1)) in
  readable w p1 = Some doc1 -> readable (snd run1) p2 = Some doc2 ->
  fst run1 = Ret (Some md1) -> fst run2 = Ret (Some md2) ->
  image_dir o1 = image_dir o2 ->
  image_at doc1 pn i = Some im1 -> image_at doc2 pn i = Some im2 ->
  image_ext im1 = image_ext im2 ->
  image_name pn i (image_ext im1) =
    "image_page" +:+ str_of_nat pn +:+ "_" +:+ str_of_nat i +:+ "."
    +:+ image_ext im1
  /\ exists evs1 evs2,
       snd run1 = apply_events evs1 (after_tick w)
       /\ snd run2 = apply_events evs2 (after_tick (snd run1))
       /\ In (EvWriteBytes target (image_bytes im1) true) evs1
       /\ In (EvWriteBytes target (image_bytes im2) true) evs2
       /\ exists f ev, files (snd run2) !! target = Some f
                       /\ In ev evs2 /\ written ev = Some (target, f).
Proof.
  intros run1 run2 target Hr1 Hr2 Hmd1 Hmd2 Hdir Him1 Him2 Hext.
  split; [reflexivity |].
  destruct (pdf_to_markdown_written p1 o1 pres1 w doc1 md1 Hr1 Hmd1)
    as (evs1 & Hw1 & Hin1).
  destruct (pdf_to_markdown_written p2 o2 pres2 (snd run1) doc2 md2 Hr2 Hmd2)
    as (evs2 & Hw2 & Hin2).
  exists evs1, evs2.
  assert (H1 : In (EvWriteBytes target (image_bytes im1) true) evs1)
    by apply (Hin1 pn i im1 Him1).
  assert (H2 : In (EvWriteBytes target (image_bytes im2) true) evs2).
  { specialize (Hin2 pn i im2 Him2). unfold image_write in Hin2.
    now rewrite <- Hdir, <- Hext in Hin2. }
  repeat split; auto.
  fold run2 in Hw2. rewrite Hw2.
  eapply written_file_is_from_events; [exact H2 | reflexivity].
Qed.

Lemma image_files_collide_witness :
  exists f ev, files (snd drawing_run) !! parse_path "image_page1_1.png" = Some f
               /\ written ev = Some (parse_path "image_page1_1.png", f).
Proof.
  destruct (image_files_collide (parse_path "scan.pdf")
              (parse_path "drawing.pdf") (parse_path "scan.md")
              (parse_path "drawing.md") true false album_world
              scan_doc drawing_doc
              (SEPARATOR +:+ image_reference "image_page1_1.png")
              (SEPARATOR +:+ image_reference "image_page1_1.png")
              1 1 (mkImage "PNGDATA" "png") (mkImage "DRAWING" "png"))
    as (_ & evs1 & evs2 & _ & _ & _ & _ & f & ev & Hf & _ & Hev);
    try (vm_compute; reflexivity).
  exists f, ev. split; [exact Hf | exact Hev].
Defined.

(** ** Plain text *)

Lemma chars_append (a b : string) :
  list_ascii_of_string (a +:+ b)
  = list_ascii_of_string a ++ list_ascii_of_string b.
Proof.
  induction a as [|x a' IH]; [reflexivity |].
  rewrite append_cons. simpl. now rewrite IH.
Qed.

Lemma chars_rev (s : string) :
  list_ascii_of_string (string_rev s) = rev (list_ascii_of_string s).
Proof.
  induction s as [|x s' IH]; [reflexivity |].
  simpl. now rewrite chars_append, IH.
Qed.

Lemma existsb_reverse {A} (f : A -> bool) (l : list A) :
  existsb f (rev l) = existsb f l.
Proof.
  induction l as [|x l IH]; [reflexivity |].
  simpl. rewrite existsb_app, IH. simpl. rewrite orb_false_r. apply orb_comm.
Qed.

Lemma lstrip_truthy (s : string) : truthy_str (lstrip s) = nonblank s.
Proof.
  unfold nonblank. induction s as [|x s' IH]; [reflexivity |].
  simpl. destruct (isspace x); [exact IH | reflexivity].
Qed.

Lemma lstrip_nonblank (s : string) : nonblank (lstrip s) = nonblank s.
Proof.
  unfold nonblank. induction s as [|x s' IH]; [reflexivity |].
  simpl. destruct (isspace x) eqn:Hx; [exact IH |].
  simpl. now rewrite Hx.
Qed.

Lemma string_rev_truthy (s : string) : truthy_str (string_rev s) = truthy_str s.
Proof.
  destruct s as [|x s']; [reflexivity |]. simpl.
  destruct (string_rev s'); reflexivity.
Qed.

Lemma string_rev_nonblank (s : string) : nonblank (string_rev s) = nonblank s.
Proof. unfold nonblank. rewrite chars_rev. apply existsb_reverse. Qed.

(** [text.strip()] is truthy when the text has a character that is not
    white space. *)
Lemma strip_truthy (s : string) : truthy_str (strip s) = nonblank s.
Proof.
  unfold strip, rstrip.
  now rewrite string_rev_truthy, lstrip_truthy, string_rev_nonblank,
    lstrip_nonblank.
Qed.

(** The claim of C4 fails: the fragment of a page is not its text
    alone, the blank line follows the text. *)
Lemma plain_fragment_has_blank_line :
  page_fragments false (mkPage [] "Hello" []) = ["Hello" +:+ LF +:+ LF]
  /\ page_fragments false (mkPage [] "Hello" []) <> ["Hello"].
Proof. split; [reflexivity | vm_compute; discriminate]. Qed.

Lemma text_markdown_plain (doc : document) :
  text_markdown false doc = plain_markdown doc.
Proof.
  unfold text_markdown, plain_markdown. do 3 f_equal.
  induction (doc_pages doc) as [|pg rest IH]; [reflexivity |].
  simpl. rewrite IH. unfold page_fragments. now rewrite strip_truthy.
Qed.

(** C4, amended. With [preserve_formatting] false the text of a page
    gives one fragment, the plain text as the engine returns it followed
    by the blank line, exactly when the text has a character that is not
    white space, and nothing otherwise; the blocks of the page, so the
    flags of its spans, have no part in it; and the Markdown returned
    without a destination is made of the header, the separator and these
    fragments. *)
Theorem plain_text_fragment (pg : page) (blocks : list block) (p : Path)
  (w : world) :
  page_fragments false pg =
    (if nonblank (page_text pg) then [page_text pg +:+ LF +:+ LF] else [])
  /\ truthy_str (strip (page_text pg)) = nonblank (page_text pg)
  /\ page_fragments false (mkPage blocks (page_text pg) (page_images pg))
     = page_fragments false pg
  /\ match fst (pdf_to_markdown p None false w) with
     | Ret (Some md) =>
         exists doc, readable w p = Some doc /\ md = plain_markdown doc
     | _ => True
     end.
Proof.
  split; [unfold page_fragments; now rewrite strip_truthy |].
  split; [apply strip_truthy |]. split; [reflexivity |].
  destruct (decide (sigint w = Some 0)) as [Hs|Hs].
  { now rewrite (pdf_to_markdown_interrupted _ _ _ _ Hs). }
  destruct (readable w p) as [doc|] eqn:Hr.
  - rewrite (pdf_to_markdown_opened _ _ _ _ _ Hs Hr).
    rewrite convert_opened_no_destination. simpl.
    exists doc. split; [reflexivity | apply text_markdown_plain].
  - now rewrite (pdf_to_markdown_unreadable _ _ _ _ Hs Hr).
Qed.

(** ** The separator alone *)

(** A page yields no text fragment exactly when it is without text. *)
Lemma page_fragments_textless (pres : bool) (pg : page) :
  page_fragments pres pg = [] <-> textless pres pg.
Proof.
  unfold page_fragments, textless. destruct pres.
  - rewrite (fold_left_snoc block_fragments). simpl.
    induction (page_blocks pg) as [|b bs IH]; simpl.
    + split; [constructor | reflexivity].
    + split.
      * intros H. apply app_eq_nil in H as [Hb Hbs].
        constructor; [| now apply IH].
        destruct b as [lines|]; [| exact I]. simpl in Hb.
        apply paragraph_nil.
        destruct (paragraph lines); [reflexivity | discriminate].
      * intros H. inversion H as [|? ? Hb Hbs]; subst.
        rewrite (proj2 IH Hbs), app_nil_r.
        destruct b as [lines|]; [| reflexivity].
        simpl. apply paragraph_nil in Hb. now rewrite Hb.
  - rewrite strip_truthy. destruct (nonblank (page_text pg)).
    + split; discriminate.
    + split; reflexivity.
Qed.

Lemma pages_textless (pres : bool) (pages : list page) :
  Forall (textless pres) pages -> flat_map (page_fragments pres) pages = [].
Proof.
  induction 1 as [|pg rest Hpg _ IH]; [reflexivity |].
  simpl. rewrite IH, app_nil_r. now apply page_fragments_textless.
Qed.

(** The claim of C3 fails: the scanned page has no metadata and no text,
    and with a destination the Markdown returned holds a reference to
    its image after the separator. And the hollow page has no metadata
    and no character of text, and the Markdown returned holds a blank
    line after the separator. *)
Lemma scanned_page_is_not_separator_only :
  doc_metadata scan_doc = ∅
  /\ page_fragments true (mkPage [] "" [7%Z]) = []
  /\ page_fragments false (mkPage [] "" [7%Z]) = []
  /\ fst (pdf_to_markdown (parse_path "scan.pdf") (Some (parse_path "scan.md"))
            true scan_world)
     = Ret (Some (SEPARATOR +:+ image_reference "image_page1_1.png"))
  /\ SEPARATOR +:+ image_reference "image_page1_1.png" <> SEPARATOR
  /\ doc_metadata hollow_doc = ∅
  /\ fst (pdf_to_markdown (parse_path "hollow.pdf") None true hollow_world)
     = Ret (Some (SEPARATOR +:+ LF +:+ LF))
  /\ SEPARATOR +:+ LF +:+ LF <> SEPARATOR.
Proof.
  repeat split; try (vm_compute; reflexivity); vm_compute; discriminate.
Qed.

(** With a destination the separator is returned only if the console
    renders the line of line 104: in [bracket_world] it raises on the
    path of the PDF, and the converter returns [None] although the
    Markdown file is written. *)
Example console_refusal_returns_none :
  fst bracket_run = Ret None
  /\ files (snd bracket_run) !! parse_path "out.md" = Some (TextFile SEPARATOR).
Proof. split; vm_compute; reflexivity. Qed.

(** C3, amended. The header holds the title, the author and the subject
    fragments, in this order, each one exactly when its field is present
    with a value that is not empty. When no Ctrl+C arrives, the document
    opens, none of the three fields is present, every page is without
    text (with formatting no line of a text block has a span, without
    formatting the text of the page has only white space), no image
    reference is due (there is no destination, or no page has an image)
    and, with a destination, the file can be written and the console
    renders the line that reports the conversion, the Markdown returned
    is exactly the separator line. *)
Theorem header_and_separator (metadata : gmap string string) (p : Path)
  (out : option Path) (pres : bool) (w : world) (doc : document) :
  metadata_fragments metadata =
    (if field_present metadata "title"
     then ["# " +:+ field metadata "title" +:+ LF +:+ LF] else [])
    ++ (if field_present metadata "author"
        then ["**Author:** " +:+ field metadata "author" +:+ LF +:+ LF] else [])
    ++ (if field_present metadata "subject"
        then ["**Subject:** " +:+ field metadata "subject" +:+ LF +:+ LF] else [])
  /\ (sigint w = None -> readable w p = Some doc ->
      field_present (doc_metadata doc) "title" = false ->
      field_present (doc_metadata doc) "author" = false ->
      field_present (doc_metadata doc) "subject" = false ->
      Forall (textless pres) (doc_pages doc) ->
      out = None \/ Forall (fun pg => page_images pg = []) (doc_pages doc) ->
      (forall o, out = Some o -> can_write o w = true) ->
      (forall o, out = Some o -> console_error w (converted_line p o) = None) ->
      fst (pdf_to_markdown p out pres w) = Ret (Some SEPARATOR)).
Proof.
  assert (Hhead : forall md, metadata_fragments md =
    (if field_present md "title"
     then ["# " +:+ field md "title" +:+ LF +:+ LF] else [])
    ++ (if field_present md "author"
        then ["**Author:** " +:+ field md "author" +:+ LF +:+ LF] else [])
    ++ (if field_present md "subject"
        then ["**Subject:** " +:+ field md "subject" +:+ LF +:+ LF] else [])).
  { intros md. unfold metadata_fragments. rewrite !metadata_get_present.
    destruct (field_present md "title"), (field_present md "author"),
      (field_present md "subject"); reflexivity. }
  split; [apply Hhead |].
  intros Hs Hr Ht Ha Hsu Htext Himg Hw Hc.
  assert (Hs0 : sigint w <> Some 0) by (rewrite Hs; discriminate).
  rewrite (pdf_to_markdown_opened _ _ _ _ _ Hs0 Hr).
  assert (H := convert_opened_text p out pres doc
                 (apply_event (EvOpen p true) (after_tick w)) Himg Hw Hc).
  destruct (convert_opened p out pres doc _) as [r w']. simpl in H. subst r.
  simpl. do 2 f_equal. unfold text_markdown.
  rewrite Hhead, Ht, Ha, Hsu, (pages_textless pres _ Htext). reflexivity.
Qed.

Lemma header_and_separator_witness :
  fst (pdf_to_markdown (parse_path "blank.pdf") (Some (parse_path "blank.md"))
         true blank_world)
  = Ret (Some SEPARATOR).
Proof.
  apply (proj2 (header_and_separator ∅ (parse_path "blank.pdf")
                  (Some (parse_path "blank.md")) true blank_world blank_doc)).
  - reflexivity.
  - reflexivity.
  - reflexivity.
  - reflexivity.
  - reflexivity.
  - repeat constructor.
  - right. repeat constructor.
  - intros o [= <-]. vm_compute. reflexivity.
  - intros o [= <-]. reflexivity.
Defined.

(** ** The events of one conversion *)

Lemma convert_opened_after_opening p out pres doc :
  emits after_opening (convert_opened p out pres doc).
Proof.
  unfold convert_opened.
  apply emits_bind.
  { eapply emits_mono; [| apply process_pages_emits].
    intros [] H; try destruct H; exact I. }
  intros mc. apply emits_bind.
  { apply emits_emit; [exact I | reflexivity]. }
  intros _. apply emits_bind; [| intros _; apply emits_ret].
  destruct out as [o|]; [| apply emits_ret].
  apply emits_bind; [apply emits_write_text; intros ok; exact I |].
  intros _. apply emits_console_print. exact I.
Qed.

(** [pdf_to_markdown] is interrupted before it does anything, or it
    returns: its events are then the opening of the document followed by
    writes, the closing, the console line and the error line. It raises
    nothing else. *)
Lemma pdf_to_markdown_events p out pres w :
  (sigint w = Some 0
   /\ pdf_to_markdown p out pres w
      = (Raise KeyboardInterrupt, set_sigint None w))
  \/ (sigint w <> Some 0
      /\ exists r ok rest,
           Forall after_opening rest
           /\ pdf_to_markdown p out pres w
              = (Ret r, apply_events (EvOpen p ok :: rest) (after_tick w))).
Proof.
  destruct (decide (sigint w = Some 0)) as [Hs|Hs].
  { left. split; [exact Hs | now apply pdf_to_markdown_interrupted]. }
  right. split; [exact Hs |].
  destruct (readable w p) as [doc|] eqn:Hr.
  - rewrite (pdf_to_markdown_opened _ _ _ _ _ Hs Hr).
    destruct (convert_opened_after_opening p out pres doc (setting_of w))
      as (r0 & evs & Hr0 & Hevs & Hrun).
    rewrite (Hrun (apply_event (EvOpen p true) (after_tick w)) eq_refl).
    destruct r0 as [s|[msg| |c]]; try contradiction.
    + exists (Some s), true, evs. split; [exact Hevs | reflexivity].
    + exists None, true,
        (evs ++ [EvLog ERROR ("Error converting PDF: " +:+ msg)]).
      split; [apply Forall_app; split; [exact Hevs | repeat constructor] |].
      change (apply_events (EvOpen p true :: ?l) ?w)
        with (apply_events l (apply_event (EvOpen p true) w)).
      now rewrite apply_events_app.
  - rewrite (pdf_to_markdown_unreadable _ _ _ _ Hs Hr).
    eexists None, false, [_]. split; [| reflexivity]. repeat constructor.
Qed.

(** ** What exists goes on existing *)

Lemma grows_refl w : grows w w.
Proof. intros p H. exact H. Qed.

Lemma grows_trans w1 w2 w3 : grows w1 w2 -> grows w2 w3 -> grows w1 w3.
Proof. intros H12 H23 p H. apply H23, H12, H. Qed.

Lemma path_exists_spec p w :
  path_exists p w = true <-> is_Some (files w !! p) \/ p ∈ dirs w.
Proof.
  unfold path_exists. rewrite orb_true_iff, !bool_decide_eq_true.
  now rewrite elem_of_dom.
Qed.

Lemma grows_same w w' :
  files w' = files w -> dirs w' = dirs w -> grows w w'.
Proof. intros Hf Hd p. unfold path_exists. now rewrite Hf, Hd. Qed.

Lemma grows_apply_event ev w : grows w (apply_event ev w).
Proof.
  intros p. rewrite !path_exists_spec, apply_event_dirs, apply_event_files.
  intros [H|H]; [left | now right]. simpl.
  destruct (written ev) as [[q f]|]; [| exact H].
  destruct (decide (q = p)); [eauto | exact H].
Qed.

Lemma grows_apply_events evs w : grows w (apply_events evs w).
Proof.
  revert w. induction evs as [|ev evs IH]; intros w; [apply grows_refl |].
  eapply grows_trans; [apply (grows_apply_event ev) | apply IH].
Qed.


Lemma grows_mkdir_parents p w : grows w (snd (mkdir_parents p w)).
Proof.
  unfold mkdir_parents. destruct (forallb _ _); simpl.
  - intros q. rewrite !path_exists_spec. simpl. intros [H|H]; [now left |].
    right. set_solver.
  - now apply grows_same.
Qed.

(** ** The exit code of a batch run *)




(** ** The steps of the watcher *)

Lemma counts_down_refl w : counts_down w w.
Proof. unfold counts_down. destruct (sigint w); auto. Qed.

Lemma counts_down_trans w1 w2 w3 :
  counts_down w1 w2 -> counts_down w2 w3 -> counts_down w1 w3.
Proof.
  unfold counts_down.
  destruct (sigint w1), (sigint w2), (sigint w3); try tauto; lia.
Qed.

Lemma counts_down_same w w' : sigint w' = sigint w -> counts_down w w'.
Proof. unfold counts_down. intros ->. destruct (sigint w); auto. Qed.

Lemma counts_down_tick w : sigint w <> Some 0 -> counts_down w (after_tick w).
Proof.
  unfold counts_down, after_tick. destruct w as [fs ds o t [[|k]|] tr ce et]; simpl;
    [congruence | lia | auto].
Qed.

Lemma after_opening_calm ev : after_opening ev -> calm ev.
Proof. destruct ev; simpl; tauto. Qed.

Lemma sleep_cases n w :
  (sigint w = Some 0 /\ sleep n w = (Raise KeyboardInterrupt, set_sigint None w))
  \/ (sigint w <> Some 0
      /\ exists w1, sleep n w = (Ret tt, w1)
           /\ trace w1 = EvSleep n :: trace w
           /\ clock w1 = clock w + n
           /\ files w1 = elapse (outside w) n (clock w) (files w)
           /\ counts_down w w1
           /\ (forall k, sigint w = Some (S k) -> sigint w1 = Some k)).
Proof.
  unfold sleep, mbind, M_bind.
  destruct (decide (sigint w = Some 0)) as [Hs|Hs].
  - left. now rewrite (tick_interrupts w Hs).
  - right. split; [exact Hs |]. rewrite (tick_passes w Hs).
    eexists. split; [reflexivity |]. repeat split.
    + now apply counts_down_tick in Hs.
    + intros k Hk. simpl. now rewrite Hk.
Qed.

Lemma exists_nonempty_cases f w :
  (path_exists f w = false
   /\ exists_nonempty f w = (Ret false, apply_events [EvExists f false] w))
  \/ (path_exists f w = true
      /\ exists_nonempty f w
         = (Ret (0 <? size_of f w)%N,
            apply_events [EvExists f true; EvStat f (size_of f w)] w)).
Proof.
  unfold exists_nonempty, mbind, M_bind, exists_.
  destruct (path_exists f w) eqn:Hp; [right | left; auto].
  split; [reflexivity |]. unfold stat_size, size_of. simpl.
  apply path_exists_spec in Hp.
  destruct (files w !! f) as [fl|] eqn:Hf; [reflexivity |].
  destruct Hp as [[? Hp]|Hp]; [discriminate |].
  now rewrite (bool_decide_eq_true_2 _ Hp).
Qed.

Lemma convert_and_report_cases f o pres w :
  (sigint w = Some 0
   /\ convert_and_report f o pres w
      = (Raise KeyboardInterrupt, set_sigint None w))
  \/ (sigint w <> Some 0
      /\ exists ok rest,
           Forall calm rest
           /\ convert_and_report f o pres w
              = (Ret tt, apply_events (EvOpen f ok :: rest) (after_tick w))).
Proof.
  unfold convert_and_report, mbind, M_bind.
  destruct (pdf_to_markdown_events f (Some o) pres w)
    as [[Hs ->]|(Hs & r & ok & rest & Hrest & ->)].
  - left. auto.
  - right. split; [exact Hs |].
    assert (Hcalm : Forall calm rest)
      by (eapply Forall_impl; [exact Hrest | apply after_opening_calm]).
    destruct (truthy_result r).
    + exists ok, (rest ++ [EvLog SUCCESS ("Converted: " +:+ name f +:+ " -> "
                                          +:+ name o)]).
      split; [apply Forall_app; split; [exact Hcalm | repeat constructor] |].
      change (apply_events (EvOpen f ok :: ?l) ?w)
        with (apply_events l (apply_event (EvOpen f ok) w)).
      now rewrite apply_events_app.
    + exists ok, rest. split; [exact Hcalm | reflexivity].
Qed.

Lemma watch_new_file_run od pres seen f w :
  exists evs,
    trace (snd (watch_new_file od pres seen f w)) = rev evs ++ trace w
    /\ new_file_events f evs
    /\ match fst (watch_new_file od pres seen f w) with
       | Ret seen' =>
           seen ⊆ seen' /\ counts_down w (snd (watch_new_file od pres seen f w))
       | Raise KeyboardInterrupt => True
       | Raise _ => False
       end.
Proof.
  unfold watch_new_file, mbind, M_bind.
  destruct (sleep_cases 1 w) as [[_ ->]|(_ & w1 & -> & Ht1 & _ & _ & Hc1 & _)].
  { exists []. repeat split. constructor. }
  destruct (exists_nonempty_cases f w1) as [[_ ->]|[_ ->]].
  { exists [EvSleep 1; EvExists f false]. simpl. rewrite Ht1.
    split; [reflexivity |]. split; [constructor |].
    split; [reflexivity |].
    eapply counts_down_trans; [exact Hc1 | now apply counts_down_same]. }
  destruct (N.ltb_spec 0 (size_of f w1)) as [Hn|Hn].
  2:{ exists [EvSleep 1; EvExists f true; EvStat f (size_of f w1)].
      simpl. rewrite Ht1. split; [reflexivity |]. split.
      - replace (size_of f w1) with 0%N by lia. constructor.
      - split; [reflexivity |].
        eapply counts_down_trans; [exact Hc1 | now apply counts_down_same]. }
  unfold logger, emit.
  set (w2 := record_event _ (apply_events _ w1)).
  assert (Ht2 : trace w2 = rev [EvSleep 1; EvExists f true;
                                EvStat f (size_of f w1);
                                EvLog INFO ("New PDF detected: " +:+ name f)]
                           ++ trace w).
  { unfold w2. simpl. now rewrite Ht1. }
  assert (Hc2 : counts_down w w2).
  { eapply counts_down_trans; [exact Hc1 | now apply counts_down_same]. }
  destruct (convert_and_report_cases f (md_in od f) pres w2)
    as [[_ ->]|(Hs2 & ok & rest & Hrest & ->)].
  - eexists. split; [exact Ht2 |]. split; [now constructor | exact I].
  - exists ([EvSleep 1; EvExists f true; EvStat f (size_of f w1);
             EvLog INFO ("New PDF detected: " +:+ name f)]
            ++ EvOpen f ok :: rest).
    split; [| split; [now constructor |]].
    + simpl fst. simpl snd. rewrite apply_events_trace.
      change (trace (apply_event (EvOpen f ok) (after_tick w2)))
        with (EvOpen f ok :: trace w2).
      rewrite Ht2. simpl. rewrite <- !app_assoc. reflexivity.
    + simpl. split; [set_solver |].
      eapply counts_down_trans; [exact Hc2 |].
      eapply counts_down_trans; [apply counts_down_tick, Hs2 |].
      apply counts_down_same. rewrite apply_events_sigint. reflexivity.
Qed.

(** ** The loop of the watcher *)

Lemma keeps_ret {A} Q (R : A -> Prop) a : closed Q -> R a -> keeps Q R (mret a).
Proof.
  intros HQ HR w. exists []. simpl. repeat split; auto.
  - apply HQ.
  - apply counts_down_refl.
Qed.

Lemma keeps_bind {A B} Q (R : A -> Prop) (R' : B -> Prop) (m : M A)
  (k : A -> M B) :
  closed Q -> keeps Q R m -> (forall a, R a -> keeps Q R' (k a)) ->
  keeps Q R' (m ≫= k).
Proof.
  intros HQ Hm Hk w. destruct (Hm w) as (evs1 & Ht1 & HQ1 & Hr1).
  unfold mbind, M_bind. destruct (m w) as [[a|e] w1]; simpl in *.
  - destruct Hr1 as [HR Hc1].
    destruct (Hk a HR w1) as (evs2 & Ht2 & HQ2 & Hr2).
    exists (evs1 ++ evs2). split; [| split].
    + rewrite Ht2, Ht1, rev_app_distr. now rewrite <- app_assoc.
    + now apply HQ.
    + destruct (fst (k a w1)) as [b|[]]; auto.
      destruct Hr2 as [HR' Hc2]. split; [exact HR' |].
      eapply counts_down_trans; eauto.
  - exists evs1. auto.
Qed.

Lemma keeps_weaken {A} Q (R R' : A -> Prop) (m : M A) :
  (forall a, R a -> R' a) -> keeps Q R m -> keeps Q R' m.
Proof.
  intros HR Hm w. destruct (Hm w) as (evs & Ht & HQ & Hr).
  exists evs. split; [exact Ht |]. split; [exact HQ |].
  destruct (fst (m w)) as [a|[]]; auto. destruct Hr. auto.
Qed.

Lemma keeps_glob Q folder :
  (forall found, Q [EvGlob folder found]) ->
  keeps Q (fun _ => True) (glob_pdf folder).
Proof.
  intros HQ w. eexists [_]. simpl. split; [reflexivity |].
  split; [apply HQ |]. split; [exact I | now apply counts_down_same].
Qed.

Lemma keeps_sleep Q n :
  closed Q -> Q [EvSleep n] -> keeps Q (fun _ => True) (sleep n).
Proof.
  intros HQ Hn w.
  destruct (sleep_cases n w) as [[_ ->]|(_ & w1 & -> & Ht & _ & _ & Hc & _)].
  - exists []. simpl. repeat split. apply HQ.
  - exists [EvSleep n]. simpl. auto.
Qed.

Lemma keeps_watch_new_file Q od pres seen f :
  (forall evs, new_file_events f evs -> Q evs) ->
  keeps Q (fun seen' => seen ⊆ seen') (watch_new_file od pres seen f).
Proof.
  intros HQ w.
  destruct (watch_new_file_run od pres seen f w) as (evs & Ht & Hev & Hr).
  exists evs. auto.
Qed.

Lemma keeps_watch_new_files Q od pres new_files :
  closed Q ->
  (forall f evs, In f new_files -> new_file_events f evs -> Q evs) ->
  forall seen,
    keeps Q (fun seen' => seen ⊆ seen') (watch_new_files od pres new_files seen).
Proof.
  intros HQ. induction new_files as [|f rest IH]; intros Hnew seen; simpl.
  - now apply keeps_ret.
  - eapply keeps_bind; [exact HQ | |].
    + apply keeps_watch_new_file. intros evs. apply Hnew. now left.
    + intros seen1 H1. eapply keeps_weaken; [| apply IH].
      * intros seen2 H2. set_solver.
      * intros g evs Hg. apply Hnew. now right.
Qed.

Lemma loop_property_mono Q folder seen seen' :
  seen ⊆ seen' -> loop_property Q folder seen -> loop_property Q folder seen'.
Proof.
  intros Hsub [Hc Hg Hs Hn]. constructor; auto.
  intros f evs Hf. apply Hn. set_solver.
Qed.

Lemma keeps_watch_cycle Q folder od pres seen :
  loop_property Q folder seen ->
  keeps Q (fun seen' => seen ⊆ seen') (watch_cycle folder od pres seen).
Proof.
  intros [Hc Hg Hs Hn]. unfold watch_cycle.
  eapply keeps_bind; [exact Hc | now apply keeps_glob |]. intros found _.
  eapply keeps_bind; [exact Hc | |].
  - apply keeps_watch_new_files; [exact Hc |].
    intros f evs Hel. apply Hn.
    apply list_elem_of_In in Hel. apply elem_of_elements in Hel.
    apply elem_of_difference in Hel. tauto.
  - intros seen1 H1.
    eapply keeps_bind; [exact Hc | now apply keeps_sleep |]. intros _ _.
    now apply keeps_ret.
Qed.

Lemma keeps_watch_cycles Q folder od pres n :
  forall seen,
    loop_property Q folder seen ->
    keeps Q (fun seen' => seen ⊆ seen') (watch_cycles n folder od pres seen).
Proof.
  induction n as [|n IH]; intros seen HQ; simpl.
  - apply keeps_ret; [apply HQ | reflexivity].
  - eapply keeps_bind; [apply HQ | now apply keeps_watch_cycle |].
    intros seen1 H1. eapply keeps_weaken; [| apply IH].
    + intros seen2 H2. set_solver.
    + eapply loop_property_mono; eauto.
Qed.





(** ** What the watcher converts *)

Lemma settled_app a b : settled a -> settled b -> settled (a ++ b).
Proof.
  intros Ha Hb. induction Ha; simpl; [exact Hb | |]; now constructor.
Qed.

Lemma settled_all_calm evs : Forall calm evs -> settled evs.
Proof. induction 1; now constructor. Qed.

Lemma settled_new_file f evs : new_file_events f evs -> settled evs.
Proof.
  destruct 1.
  - constructor.
  - apply settled_all_calm. repeat constructor.
  - apply settled_all_calm. repeat constructor.
  - apply settled_all_calm. repeat constructor.
  - constructor; [assumption |]. now apply settled_all_calm.
Qed.

Lemma loop_property_settled folder seen : loop_property settled folder seen.
Proof.
  constructor.
  - constructor; [constructor | apply settled_app].
  - intros found. apply settled_all_calm. repeat constructor.
  - apply settled_all_calm. repeat constructor.
  - intros f evs _. apply settled_new_file.
Qed.

(** In a settled list, what comes before an opening ends with the
    delay, the test, the size and the log line. *)
Lemma settled_before_open evs :
  settled evs ->
  forall pre p ok post,
    evs = pre ++ EvOpen p ok :: post ->
    exists pre' n,
      (0 < n)%N
      /\ pre = pre' ++ [EvSleep 1; EvExists p true; EvStat p n;
                        EvLog INFO ("New PDF detected: " +:+ name p)].
Proof.
  induction 1 as [|ev evs Hev _ IH|q n ok' evs Hn _ IH];
    intros pre p ok post Heq.
  - destruct pre; discriminate.
  - destruct pre as [|e pre]; simpl in Heq.
    + injection Heq as -> _. destruct Hev.
    + injection Heq as -> Heq.
      destruct (IH _ _ _ _ Heq) as (pre' & m & Hm & ->).
      exists (e :: pre'), m. auto.
  - destruct pre as [|e1 [|e2 [|e3 [|e4 [|e5 pre]]]]]; simpl in Heq;
      try discriminate.
    + injection Heq as <- <- <- <- <- _ _.
      exists [], n. auto.
    + injection Heq as <- <- <- <- <- Heq.
      destruct (IH _ _ _ _ Heq) as (pre' & m & Hm & ->).
      eexists (_ :: _ :: _ :: _ :: _ :: pre'), m. auto.
Qed.

Lemma calm_not_open g ev : calm ev -> not_open g ev.
Proof. intros H ok ->. exact H. Qed.

Lemma loop_property_not_open g folder seen :
  g ∈ seen -> loop_property (Forall (not_open g)) folder seen.
Proof.
  intros Hg. constructor.
  - constructor; [constructor | intros a b Ha Hb; apply Forall_app; auto].
  - intros found. repeat constructor. discriminate.
  - repeat constructor. discriminate.
  - intros f evs Hf Hev.
    assert (Hne : f <> g) by (intros ->; contradiction).
    destruct Hev; repeat (constructor; [intros ?; congruence |]);
      try constructor.
    eapply Forall_impl; [eassumption | apply calm_not_open].
Qed.

Lemma listing_spec folder w g :
  In g (listing folder w)
  <-> path_exists g w = true
      /\ parts g <> [] /\ parent g = folder /\ matches_pdf (name g) = true.
Proof.
  unfold listing. rewrite <- list_elem_of_In, list_elem_of_filter.
  rewrite elem_of_elements, elem_of_union. unfold path_exists.
  rewrite orb_true_iff, !bool_decide_eq_true. tauto.
Qed.

Lemma listing_grows folder w w' g :
  grows w w' -> In g (listing folder w) -> In g (listing folder w').
Proof. rewrite !listing_spec. intros G (H & ?). split; [apply G, H | assumption]. Qed.

(** Lines 139 to 146 leave alone a file whose Markdown exists. *)
Lemma scan_existing_skips od pres g found :
  forall seen w,
    path_exists (md_in od g) w = true ->
    exists evs,
      trace (snd (scan_existing od pres found seen w)) = rev evs ++ trace w
      /\ Forall (not_open g) evs
      /\ match fst (scan_existing od pres found seen w) with
         | Ret seen' => seen ⊆ seen' /\ forall h, In h found -> h ∈ seen'
         | Raise _ => True
         end.
Proof.
  induction found as [|h rest IH]; intros seen w Hmd; simpl.
  - exists []. split; [reflexivity |]. split; [constructor |].
    split; [reflexivity | tauto].
  - unfold mbind, M_bind, exists_.
    set (w1 := record_event (EvExists (md_in od h) (path_exists (md_in od h) w)) w).
    assert (Hgrow : forall w2 evs0,
               path_exists (md_in od g) w2 = true ->
               trace w2 = rev evs0 ++ trace w -> Forall (not_open g) evs0 ->
               exists evs,
                 trace (snd (scan_existing od pres rest ({[h]} ∪ seen) w2))
                 = rev evs ++ trace w
                 /\ Forall (not_open g) evs
                 /\ match fst (scan_existing od pres rest ({[h]} ∪ seen) w2) with
                    | Ret seen' =>
                        seen ⊆ seen' /\ forall x, In x (h :: rest) -> x ∈ seen'
                    | Raise _ => True
                    end).
    { intros w2 evs0 Hmd2 Ht2 Hq.
      destruct (IH ({[h]} ∪ seen) w2 Hmd2) as (evs & Ht & HQ & Hr).
      exists (evs0 ++ evs). split; [| split; [apply Forall_app; auto |]].
      - rewrite Ht, Ht2, rev_app_distr. now rewrite <- app_assoc.
      - destruct (fst (scan_existing od pres rest ({[h]} ∪ seen) w2));
          [| exact I].
        destruct Hr as [Hsub Hrest]. split; [set_solver |].
        intros x [<-|Hx]; [set_solver | auto]. }
    destruct (path_exists (md_in od h) w) eqn:Hh; simpl.
    + apply (Hgrow w1 [EvExists (md_in od h) true] Hmd eq_refl).
      repeat constructor. discriminate.
    + assert (Hne : h <> g) by (intros ->; congruence).
      unfold logger, emit.
      set (w2 := record_event _ w1).
      destruct (convert_and_report_cases h (md_in od h) pres w2)
        as [[_ ->]|(_ & ok & evs0 & Hcalm & ->)].
      * eexists [_; _]. simpl. split; [reflexivity |]. split; [| exact I].
        repeat constructor; discriminate.
      * apply (Hgrow (apply_events (EvOpen h ok :: evs0) (after_tick w2))
                 ([EvExists (md_in od h) false;
                   EvLog INFO ("Converting existing file: " +:+ name h)]
                  ++ EvOpen h ok :: evs0)).
        -- apply grows_apply_events. exact Hmd.
        -- rewrite apply_events_trace. simpl. rewrite <- !app_assoc.
           reflexivity.
        -- repeat (constructor; [intros ?; congruence |]).
           eapply Forall_impl; [exact Hcalm | apply calm_not_open].
Qed.

Lemma adds_trans w e1 w1 e2 w2 :
  adds w e1 w1 -> adds w1 e2 w2 -> adds w (e1 ++ e2) w2.
Proof.
  unfold adds. intros H1 H2. rewrite H2, H1, rev_app_distr.
  now rewrite <- app_assoc.
Qed.

Lemma adds_record ev w : adds w [ev] (record_event ev w).
Proof. reflexivity. Qed.

Lemma grows_mkdir p w : grows w (snd (mkdir p w)).
Proof.
  unfold mkdir. destruct (bool_decide (p ∈ dirs w)); simpl.
  - now apply grows_same.
  - destruct (_ || _); simpl; [now apply grows_same |].
    intros q. rewrite !path_exists_spec. simpl. intros [H|H]; [now left |].
    right. set_solver.
Qed.

Lemma watch_output_dir_cases folder output_path w :
  exists ok w1,
    adds w [EvMkdir (watch_dir folder output_path) ok] w1 /\ grows w w1
    /\ (watch_output_dir folder output_path w
        = (Ret (watch_dir folder output_path), w1)
        \/ exists e, watch_output_dir folder output_path w = (Raise e, w1)).
Proof.
  unfold watch_output_dir, watch_dir, mbind, M_bind.
  destruct (truthy_arg output_path) as [s|].
  - pose proof (grows_mkdir_parents (parse_path s) w) as G.
    unfold mkdir_parents in *. destruct (forallb _ _); simpl in *.
    + exists true. eexists.
      (split; [| split; [| left; reflexivity]]); [reflexivity | exact G].
    + exists false. eexists.
      (split; [| split; [| right; eexists; reflexivity]]);
        [reflexivity | exact G].
  - pose proof (grows_mkdir (joinpath folder "converted") w) as G.
    unfold mkdir in *.
    destruct (bool_decide (joinpath folder "converted" ∈ dirs w)); simpl in *.
    + exists true. eexists.
      (split; [| split; [| left; reflexivity]]); [reflexivity | exact G].
    + destruct (_ || _); simpl in *.
      * exists false. eexists.
        (split; [| split; [| right; eexists; reflexivity]]);
          [reflexivity | exact G].
      * exists true. eexists.
        (split; [| split; [| left; reflexivity]]); [reflexivity | exact G].
Qed.

(** The loop with its handler, for a property that the loop keeps and
    that holds of the line logged when the watcher stops. *)
Lemma watch_loop_keeps Q fuel folder od pres seen w :
  loop_property Q folder seen -> Q [EvLog INFO "Watch mode stopped"] ->
  exists evs,
    adds w evs (snd (watch_loop fuel folder od pres seen w)) /\ Q evs.
Proof.
  intros HQ Hstop. unfold watch_loop, try_except_interrupt, mbind, M_bind.
  destruct (keeps_watch_cycles Q folder od pres fuel seen HQ w)
    as (evs & Ht & Hev & Hr).
  destruct (watch_cycles fuel folder od pres seen w) as [[seen1|[]] w1];
    simpl in *; try contradiction.
  - exists evs. auto.
  - exists (evs ++ [EvLog INFO "Watch mode stopped"]). split.
    + eapply adds_trans; [exact Ht | apply adds_record].
    + apply HQ; auto.
Qed.

(** A file listed when the watcher starts, whose Markdown exists then,
    is never opened by the watcher. *)
Lemma watch_folder_skips fuel folder_path output_path pres w g :
  In g (listing (parse_path folder_path) w) ->
  path_exists (md_in (watch_dir (parse_path folder_path) output_path) g) w
  = true ->
  exists evs,
    adds w evs (snd (watch_folder fuel folder_path output_path pres w))
    /\ Forall (not_open g) evs.
Proof.
  intros Hg Hmd. set (folder := parse_path folder_path) in *.
  set (od := watch_dir folder output_path) in *.
  unfold watch_folder, watch_setup, mbind, M_bind, exists_. fold folder.
  set (w1 := record_event (EvExists folder (path_exists folder w)) w).
  assert (Hcalm : forall evs, Forall calm evs -> Forall (not_open g) evs).
  { intros evs H. eapply Forall_impl; [exact H | apply calm_not_open]. }
  assert (Hw2 : exists d evs2 w2,
             (if path_exists folder w then is_dir folder else mret false) w1
             = (Ret d, w2)
             /\ adds w evs2 w2 /\ Forall calm evs2 /\ grows w w2).
  { destruct (path_exists folder w).
    - exists (bool_decide (folder ∈ dirs w1)),
        [EvExists folder true; EvIsDir folder (bool_decide (folder ∈ dirs w1))].
      eexists. split; [reflexivity |]. split; [reflexivity |].
      split; [repeat constructor | now apply grows_same].
    - exists false, [EvExists folder false], w1. split; [reflexivity |].
      split; [reflexivity |]. split; [repeat constructor | now apply grows_same]. }
  destruct Hw2 as (d & evs2 & w2 & -> & Hadd2 & Hcalm2 & G2).
  destruct d; simpl.
  2:{ exists (evs2 ++ [EvLog ERROR ("Invalid folder: " +:+ folder_path)]).
      split; [eapply adds_trans; [exact Hadd2 | apply adds_record] |].
      apply Hcalm, Forall_app. split; [exact Hcalm2 | repeat constructor]. }
  destruct (watch_output_dir_cases folder output_path w2)
    as (ok & w3 & Hadd3 & G3 & [-> | [e ->]]); fold od in Hadd3.
  2:{ exists (evs2 ++ [EvMkdir od ok]).
      split; [eapply adds_trans; eauto |].
      apply Hcalm, Forall_app. split; [exact Hcalm2 | repeat constructor]. }
  unfold logger, emit, glob_pdf. fold od.
  set (w4 := record_event _ w3).
  set (w5 := record_event _ w4).
  assert (G5 : grows w w5).
  { eapply grows_trans; [exact G2 |]. eapply grows_trans; [exact G3 |].
    now apply grows_same. }
  assert (Hadd5 : adds w (evs2 ++ [EvMkdir od ok]
                          ++ [EvLog INFO ("Scanning existing PDFs in "
                                          +:+ path_str folder +:+ "...");
                              EvGlob folder (listing folder w4)]) w5).
  { eapply adds_trans; [exact Hadd2 |]. eapply adds_trans; [exact Hadd3 |].
    reflexivity. }
  assert (Hfound : In g (listing folder w4)).
  { eapply listing_grows; [| exact Hg]. eapply grows_trans; [exact G2 |].
    eapply grows_trans; [exact G3 | now apply grows_same]. }
  destruct (scan_existing_skips od pres g (listing folder w4) ∅ w5
              (G5 _ Hmd)) as (evs6 & Hadd6 & Hev6 & Hr6).
  assert (Hpre : Forall (not_open g)
                   ((evs2 ++ [EvMkdir od ok]
                     ++ [EvLog INFO ("Scanning existing PDFs in "
                                     +:+ path_str folder +:+ "...");
                         EvGlob folder (listing folder w4)]) ++ evs6)).
  { apply Forall_app. split; [| exact Hev6].
    apply Hcalm, Forall_app. split; [exact Hcalm2 | repeat constructor]. }
  destruct (scan_existing od pres (listing folder w4) ∅ w5) as [[seen|e] w6];
    simpl in *.
  2:{ eexists. split; [eapply adds_trans; [exact Hadd5 | exact Hadd6] |].
      exact Hpre. }
  destruct Hr6 as [_ Hseen]. specialize (Hseen g Hfound).
  set (w7 := record_event _ w6).
  destruct (watch_loop_keeps (Forall (not_open g)) fuel folder od pres seen w7)
    as (evs8 & Hadd8 & Hev8).
  { now apply loop_property_not_open. }
  { repeat constructor. discriminate. }
  eexists. split.
  - eapply adds_trans; [exact Hadd5 |]. eapply adds_trans; [exact Hadd6 |].
    eapply adds_trans; [apply adds_record | exact Hadd8].
  - rewrite app_assoc. apply Forall_app. split; [exact Hpre |].
    apply Forall_app. split; [| exact Hev8].
    repeat constructor. discriminate.
Qed.

Example empty_file_is_not_ready :
  fst (exists_nonempty (parse_path "in/new.pdf")
         (set_files {[ parse_path "in/new.pdf" := BytesFile "" ]} inbox_world))
  = Ret false.
Proof. vm_compute. reflexivity. Qed.

(** C6. In the watch loop every opening of a PDF, which is how a
    conversion starts, comes right after the settling delay of one
    second, the test that the file exists, a size that is not zero and
    the log line for the new file, with nothing in between; the test of
    line 160 holds exactly when the file exists with a size that is not
    zero, so a file of zero bytes is not converted while it is empty.
    And a file listed in the folder when the watcher starts, whose
    Markdown exists in the output directory then, is never opened by
    the watcher, neither at the start nor in the loop. *)
Theorem watcher_converts_settled_files (n fuel : nat) (folder od : Path)
  (pres : bool) (seen : gset Path) (w : world) (f g : Path)
  (folder_path : string) (output_path : option string) :
  (exists evs,
     trace (snd (watch_cycles n folder od pres seen w)) = rev evs ++ trace w
     /\ forall pre p ok post,
          evs = pre ++ EvOpen p ok :: post ->
          exists pre' size,
            (0 < size)%N
            /\ pre = pre' ++ [EvSleep 1; EvExists p true; EvStat p size;
                              EvLog INFO ("New PDF detected: " +:+ name p)])
  /\ fst (exists_nonempty f w)
     = Ret (path_exists f w && (0 <? size_of f w)%N)
  /\ (In g (listing (parse_path folder_path) w) ->
      path_exists (md_in (watch_dir (parse_path folder_path) output_path) g) w
      = true ->
      exists evs,
        trace (snd (watch_folder fuel folder_path output_path pres w))
        = rev evs ++ trace w
        /\ forall ok, ~ In (EvOpen g ok) evs).
Proof.
  split; [| split].
  - destruct (keeps_watch_cycles settled folder od pres n seen
                (loop_property_settled folder seen) w) as (evs & Ht & Hev & _).
    exists evs. split; [exact Ht |]. now apply settled_before_open.
  - destruct (exists_nonempty_cases f w) as [[-> ->]|[-> ->]]; reflexivity.
  - intros Hg Hmd.
    destruct (watch_folder_skips fuel folder_path output_path pres w g Hg Hmd)
      as (evs & Ht & Hev).
    exists evs. split; [exact Ht |]. intros ok Hin.
    rewrite List.Forall_forall in Hev. exact (Hev _ Hin ok eq_refl).
Qed.

Lemma watcher_converts_settled_files_witness :
  exists evs,
    trace (snd (watch_folder 3 "in" None true served_world))
    = rev evs ++ trace served_world
    /\ forall ok, ~ In (EvOpen (parse_path "in/scan.pdf") ok) evs.
Proof.
  apply (proj2 (proj2 (watcher_converts_settled_files 0 3 cwd cwd true ∅
                         served_world cwd (parse_path "in/scan.pdf")
                         "in" None))).
  - vm_compute. auto.
  - vm_compute. reflexivity.
Defined.

(** A file that another process creates empty and fills later: the loop
    finds it empty once and leaves it, and converts it when it has a
    size. *)
Example empty_then_filled :
  let new := parse_path "in/new.pdf" in
  let folder := parse_path "in" in
  skipn 7 (rev (trace (snd (watch_folder 3 "in" None true busy_world))))
  = [EvGlob folder [parse_path "in/scan.pdf"]; EvSleep 2;
     EvGlob folder [new; parse_path "in/scan.pdf"];
     EvSleep 1; EvExists new true; EvStat new 0; EvSleep 2;
     EvGlob folder [new; parse_path "in/scan.pdf"];
     EvSleep 1; EvExists new true; EvStat new 100;
     EvLog INFO "New PDF detected: new.pdf";
     EvOpen new true; EvClose new;
     EvWriteText (parse_path "in/converted/new.md") SEPARATOR true;
     EvPrint "Converted: in/new.pdf -> in/converted/new.md";
     EvLog SUCCESS "Converted: new.pdf -> new.md"; EvSleep 2].
Proof. vm_compute. reflexivity. Qed.

(** * Further properties *)

(** ** Errors of a conversion *)

Lemma pdf_to_markdown_converted p out pres w :
  sigint w <> Some 0 ->
  exists r evs,
    converted p out w r evs
    /\ pdf_to_markdown p out pres w = (Ret r, apply_events evs (after_tick w)).
Proof.
  intros Hs. destruct (readable w p) as [doc|] eqn:Hr.
  2:{ eexists None, _. split; [apply conv_unreadable |].
      now apply pdf_to_markdown_unreadable. }
  rewrite (pdf_to_markdown_opened _ _ _ _ _ Hs Hr), convert_opened_stages.
  set (opened := apply_event (EvOpen p true) (after_tick w)).
  destruct (process_pages_emits doc out pres (doc_pages doc) 1
              (metadata_fragments (doc_metadata doc) ++ [SEPARATOR])
              (setting_of w)) as (r0 & evs & Hr0 & Hevs & Hrun).
  rewrite (Hrun opened eq_refl).
  assert (Happ : forall tail,
             apply_events tail (apply_events evs opened)
             = apply_events (EvOpen p true :: evs ++ tail) (after_tick w)).
  { intros tail.
    change (apply_events (EvOpen p true :: ?l) ?w0)
      with (apply_events l (apply_event (EvOpen p true) w0)).
    now rewrite apply_events_app. }
  assert (Hce : console_error (apply_event (EvClose p) (apply_events evs opened))
                = console_error w).
  { exact (f_equal (fun st : setting => snd (fst st))
             (apply_events_setting evs opened)). }
  assert (Het : error_text (apply_event (EvClose p) (apply_events evs opened))
                = error_text w).
  { exact (f_equal (fun st : setting => snd st)
             (apply_events_setting evs opened)). }
  destruct r0 as [mc|[msg| |c]]; try contradiction.
  - destruct out as [o|]; cbv zeta.
    + assert (Hcw : can_write o (apply_event (EvClose p) (apply_events evs opened))
                    = can_write o w).
      { unfold can_write. now rewrite apply_event_dirs, apply_events_dirs. }
      rewrite Hcw, Hce, Het. destruct (can_write o w) eqn:Hc.
      * destruct (console_error w (converted_line p o)) as [e|] eqn:Hp.
        -- eexists None, _.
           split; [now apply (conv_print_failed p _ w evs o (join "" mc) e) |].
           f_equal.
           exact (Happ [EvClose p; EvWriteText o (join "" mc) true;
                        EvLog ERROR ("Error converting PDF: " +:+ e)]).
        -- eexists (Some _), _.
           split; [now apply (conv_written p _ w evs o (join "" mc)) |].
           f_equal.
           exact (Happ [EvClose p; EvWriteText o (join "" mc) true;
                        EvPrint (converted_line p o)]).
      * eexists None, _.
        split; [now apply (conv_write_failed p _ w evs o (join "" mc)) |].
        f_equal.
        exact (Happ [EvClose p; EvWriteText o (join "" mc) false;
                     EvLog ERROR ("Error converting PDF: "
                                  +:+ error_text w (CannotWrite o))]).
    + eexists (Some _), _.
      split; [now apply (conv_returned p _ w evs (join "" mc)) |].
      f_equal. exact (Happ [EvClose p]).
  - eexists None, _. split; [now apply (conv_extraction_failed p _ w evs msg) |].
    f_equal. exact (Happ [EvLog ERROR ("Error converting PDF: " +:+ msg)]).
Qed.

Lemma write_bytes_no_log evs :
  Forall is_write_bytes evs ->
  Forall (fun ev => forall lv msg, ev <> EvLog lv msg) evs.
Proof.
  intros H. eapply Forall_impl; [exact H |].
  intros [] Hev lv0 msg0; try destruct Hev. discriminate.
Qed.

(** X1. When no Ctrl+C arrives [pdf_to_markdown] returns: whatever is
    raised while it opens the document, extracts the pages, writes the
    files or prints the console line is caught. It returns [None]
    exactly when it has logged an error line, which is then its last
    event and its only line in the log; when it returns a string it has
    logged nothing. *)
Theorem conversion_errors_are_logged (p : Path) (out : option Path)
  (pres : bool) (w : world) :
  sigint w = None ->
  exists r evs,
    pdf_to_markdown p out pres w = (Ret r, apply_events evs w)
    /\ match r with
       | None =>
           exists msg before,
             evs = before ++ [EvLog ERROR ("Error converting PDF: " +:+ msg)]
             /\ Forall (fun ev => forall lv m, ev <> EvLog lv m) before
       | Some md => Forall (fun ev => forall lv msg, ev <> EvLog lv msg) evs
       end.
Proof.
  intros Hs.
  assert (Hs0 : sigint w <> Some 0) by (rewrite Hs; discriminate).
  destruct (pdf_to_markdown_converted p out pres w Hs0) as (r & evs & Hc & Hrun).
  rewrite (after_tick_never w Hs) in Hrun.
  exists r, evs. split; [exact Hrun |].
  assert (Hopen : forall ok lv m, EvOpen p ok <> EvLog lv m) by discriminate.
  assert (Htail : forall evs0 tail,
             Forall is_write_bytes evs0 ->
             Forall (fun ev => forall lv m, ev <> EvLog lv m) tail ->
             Forall (fun ev => forall lv m, ev <> EvLog lv m)
                    (EvOpen p true :: evs0 ++ tail)).
  { intros evs0 tail H0 Ht. constructor; [apply Hopen |].
    apply Forall_app. split; [now apply write_bytes_no_log | exact Ht]. }
  destruct Hc as [|evs msg Hev|evs o md Ho Hcw Hev|evs o md e Ho Hcw Hp Hev
                  |evs o md Ho Hcw Hp Hev|evs md Ho Hev].
  - eexists _, [_]. split; [reflexivity |]. repeat constructor. apply Hopen.
  - exists msg, (EvOpen p true :: evs ++ []). split.
    + now rewrite app_nil_r.
    + apply Htail; [exact Hev | constructor].
  - eexists _, (EvOpen p true :: evs ++ [EvClose p; EvWriteText o md false]).
    split; [simpl; now rewrite <- app_assoc |].
    apply Htail; [exact Hev | repeat constructor; discriminate].
  - exists e, (EvOpen p true :: evs ++ [EvClose p; EvWriteText o md true]).
    split; [simpl; now rewrite <- app_assoc |].
    apply Htail; [exact Hev | repeat constructor; discriminate].
  - apply Htail; [exact Hev | repeat constructor; discriminate].
  - apply Htail; [exact Hev | repeat constructor; discriminate].
Qed.

Lemma conversion_errors_are_logged_witness :
  exists r evs,
    bracket_run = (Ret r, apply_events evs bracket_world)
    /\ match r with
       | None =>
           exists msg before,
             evs = before ++ [EvLog ERROR ("Error converting PDF: " +:+ msg)]
             /\ Forall (fun ev => forall lv m, ev <> EvLog lv m) before
       | Some md => Forall (fun ev => forall lv msg, ev <> EvLog lv msg) evs
       end.
Proof.
  apply (conversion_errors_are_logged (parse_path "d[/x].pdf")
           (Some (parse_path "out.md")) true bracket_world).
  reflexivity.
Defined.

(** X2. When [pdf_to_markdown] returns a string for a destination, the
    file at the destination holds that string, also when an image of
    the document was written at the same path before; the write and
    the console line are its last two events. *)
Theorem destination_holds_markdown (p o : Path) (pres : bool) (w : world)
  (md : string) :
  fst (pdf_to_markdown p (Some o) pres w) = Ret (Some md) ->
  files (snd (pdf_to_markdown p (Some o) pres w)) !! o = Some (TextFile md)
  /\ exists before,
       trace (snd (pdf_to_markdown p (Some o) pres w))
       = EvPrint ("Converted: " +:+ path_str p +:+ " -> " +:+ path_str o)
         :: EvWriteText o md true :: before.
Proof.
  intros Hmd.
  destruct (decide (sigint w = Some 0)) as [Hs|Hs].
  { rewrite (pdf_to_markdown_interrupted _ _ _ _ Hs) in Hmd. discriminate. }
  destruct (pdf_to_markdown_converted p (Some o) pres w Hs)
    as (r & evs & Hc & Hrun).
  rewrite Hrun in Hmd |- *. simpl in Hmd |- *. injection Hmd as ->.
  inversion Hc as [| | | |evs0 o0 md0 Ho Hcw Hp Hev|evs0 md0 Ho Hev]; subst;
    [| discriminate].
  injection Ho as <-. unfold converted_line. split.
  - rewrite apply_events_files.
    change (EvOpen p true :: evs0 ++ ?l) with ((EvOpen p true :: evs0) ++ l).
    rewrite last_write_app. simpl. now rewrite decide_True.
  - rewrite apply_events_trace.
    change (EvOpen p true :: evs0 ++ ?l) with ((EvOpen p true :: evs0) ++ l).
    rewrite rev_app_distr. simpl. eauto.
Qed.

Lemma destination_holds_markdown_witness :
  files (snd scan_run) !! parse_path "scan.md"
  = Some (TextFile (SEPARATOR +:+ image_reference "image_page1_1.png")).
Proof.
  apply (destination_holds_markdown (parse_path "scan.pdf")
           (parse_path "scan.md") true album_world).
  vm_compute. reflexivity.
Defined.

(** ** The Markdown of a conversion *)

Lemma append_empty_r (a : string) : a +:+ "" = a.
Proof.
  induction a as [|x a' IH]; [reflexivity |].
  rewrite append_cons. now rewrite IH.
Qed.

Lemma join_empty_cons (x : string) (l : list string) :
  join "" (x :: l) = x +:+ join "" l.
Proof.
  destruct l as [|y l]; simpl.
  - now rewrite append_empty_r.
  - now rewrite append_nil_l.
Qed.

Lemma join_empty_app (a b : list string) :
  join "" (a ++ b) = join "" a +:+ join "" b.
Proof.
  induction a as [|x a IH]; [reflexivity |].
  rewrite <- app_comm_cons, !join_empty_cons, IH. now rewrite append_assoc.
Qed.

Lemma extract_images_result doc out pn image_list :
  forall i mc w mc' w',
    extract_images doc out pn i image_list mc w = (Ret mc', w') ->
    mc' = mc ++ image_references doc pn i image_list.
Proof.
  induction image_list as [|x rest IH]; intros i mc w mc' w' H; simpl in H.
  - injection H as <- _. now rewrite app_nil_r.
  - unfold mbind, M_bind, extract_image in H. simpl.
    destruct (doc_images doc !! x) as [im|]; [| discriminate].
    simpl in H. unfold write_bytes in H.
    destruct (can_write _ w); [| discriminate].
    apply IH in H as ->. now rewrite <- app_assoc.
Qed.

Lemma process_pages_result doc out pres pages :
  forall pn mc w mc' w',
    process_pages doc out pres pn pages mc w = (Ret mc', w') ->
    mc' = mc ++ pages_fragments pres (with_destination out) doc pn pages.
Proof.
  induction pages as [|pg rest IH]; intros pn mc w mc' w' H; simpl in H.
  - injection H as <- _. simpl. now rewrite app_nil_r.
  - unfold mbind, M_bind in H. simpl.
    destruct out as [o|]; simpl in *.
    + destruct (extract_images doc o pn 1 (page_images pg) _ w)
        as [[mc1|e] w1] eqn:Himg; [| discriminate].
      apply extract_images_result in Himg as ->.
      apply IH in H as ->. now rewrite <- !app_assoc.
    + apply IH in H as ->. now rewrite <- !app_assoc.
Qed.

(** X3. The string that [pdf_to_markdown] returns is the header of the
    document, then the separator, then page after page the text of the
    page followed, when there is a destination, by the references to
    its images, numbered from 1 on each page, the pages numbered
    from 1. *)
Theorem markdown_of_document (p : Path) (out : option Path) (pres : bool)
  (w : world) (doc : document) (md : string) :
  readable w p = Some doc ->
  fst (pdf_to_markdown p out pres w) = Ret (Some md) ->
  md = join "" (metadata_fragments (doc_metadata doc)) +:+ SEPARATOR
       +:+ join "" (pages_fragments pres (with_destination out) doc 1
                      (doc_pages doc)).
Proof.
  intros Hr Hmd.
  destruct (decide (sigint w = Some 0)) as [Hs|Hs].
  { rewrite (pdf_to_markdown_interrupted _ _ _ _ Hs) in Hmd. discriminate. }
  rewrite (pdf_to_markdown_opened _ _ _ _ _ Hs Hr) in Hmd.
  rewrite convert_opened_stages in Hmd.
  destruct (process_pages doc out pres 1 (doc_pages doc) _ _)
    as [[mc|e] w2] eqn:Hpages.
  - apply process_pages_result in Hpages as ->.
    assert (Hjoin : join "" ((metadata_fragments (doc_metadata doc) ++ [SEPARATOR])
                             ++ pages_fragments pres (with_destination out) doc 1
                                  (doc_pages doc))
                    = join "" (metadata_fragments (doc_metadata doc))
                      +:+ SEPARATOR
                      +:+ join "" (pages_fragments pres (with_destination out)
                                     doc 1 (doc_pages doc))).
    { rewrite !join_empty_app. simpl join at 2. now rewrite append_assoc. }
    rewrite Hjoin in Hmd. cbv zeta in Hmd.
    destruct out as [o|];
      [destruct (can_write o _); [destruct (console_error _ _) |] |];
      simpl in Hmd |- *; try discriminate; now injection Hmd as <-.
  - destruct e; simpl in Hmd; discriminate.
Qed.

Lemma markdown_of_document_witness :
  SEPARATOR +:+ image_reference "image_page1_1.png"
  = join "" (metadata_fragments (doc_metadata scan_doc)) +:+ SEPARATOR
    +:+ join "" (pages_fragments true true scan_doc 1 (doc_pages scan_doc)).
Proof.
  apply (markdown_of_document (parse_path "scan.pdf")
           (Some (parse_path "scan.md")) true album_world scan_doc).
  - reflexivity.
  - vm_compute. reflexivity.
Defined.

(** ** The names of the image files *)

Lemma all_digits_uint (d : Decimal.uint) :
  all_digits (NilEmpty.string_of_uint d) = true.
Proof. induction d; simpl; auto. Qed.

Lemma str_of_nat_digits (n : nat) : all_digits (str_of_nat n) = true.
Proof. apply all_digits_uint. Qed.

Lemma str_of_nat_inj (n n' : nat) : str_of_nat n = str_of_nat n' -> n = n'.
Proof.
  unfold str_of_nat. intros H. apply DecimalNat.Unsigned.to_uint_inj.
  assert (E : Some (Nat.to_uint n) = Some (Nat.to_uint n'))
    by (rewrite <- !NilEmpty.usu; now rewrite H).
  now injection E.
Qed.

(** Two strings of digits followed by the same character, not a digit,
    and equal as a whole: the digits are the same and so is the rest. *)
Lemma digits_split (a a' : string) (c : ascii) (r r' : string) :
  all_digits a = true -> all_digits a' = true -> is_digit c = false ->
  a +:+ String c r = a' +:+ String c r' -> a = a' /\ r = r'.
Proof.
  intros Ha Ha' Hc. revert a' Ha'.
  induction a as [|x a IH]; intros [|x' a'] Ha' H.
  - rewrite !append_nil_l in H. injection H as <-. auto.
  - rewrite append_nil_l, append_cons in H. injection H as <- _.
    simpl in Ha'. rewrite Hc in Ha'. discriminate.
  - rewrite append_nil_l, append_cons in H. injection H as -> _.
    simpl in Ha. rewrite Hc in Ha. discriminate.
  - rewrite !append_cons in H. injection H as <- H.
    simpl in Ha, Ha'. apply andb_true_iff in Ha as [_ Ha].
    apply andb_true_iff in Ha' as [_ Ha'].
    destruct (IH Ha a' Ha' H) as [<- <-]. auto.
Qed.

(** X4. The name of an image file fixes the page number, the ordinal
    and the extension: two images of one document never get the same
    name. *)
Theorem image_name_injective (pn i pn' i' : nat) (ext ext' : string) :
  image_name pn i ext = image_name pn' i' ext' ->
  pn = pn' /\ i = i' /\ ext = ext'.
Proof.
  unfold image_name. intros H.
  apply (inj (String.append "image_page")) in H.
  change ("_" +:+ ?x) with (String "_" x) in H.
  apply digits_split in H as [Hpn H];
    [| apply str_of_nat_digits | apply str_of_nat_digits | reflexivity].
  change ("." +:+ ?x) with (String "." x) in H.
  apply digits_split in H as [Hi H];
    [| apply str_of_nat_digits | apply str_of_nat_digits | reflexivity].
  split; [now apply str_of_nat_inj |]. split; [now apply str_of_nat_inj | exact H].
Qed.

Lemma image_name_injective_witness : 3 = 3 /\ 12 = 12 /\ "png" = "png".
Proof.
  apply (image_name_injective 3 12 3 12 "png" "png"). reflexivity.
Defined.

(** ** The time of a turn of the loop *)

Lemma apply_events_clock evs w : clock (apply_events evs w) = clock w.
Proof.
  revert w. induction evs as [|ev evs IH]; intros w; simpl; [reflexivity |].
  rewrite IH. case_event ev.
Qed.

Lemma counts_down_never w w' :
  sigint w = None -> counts_down w w' -> sigint w' = None.
Proof.
  unfold counts_down. intros ->. destruct (sigint w'); [contradiction | auto].
Qed.

Lemma watch_new_file_time od pres seen f w :
  sigint w = None ->
  exists seen' w',
    watch_new_file od pres seen f w = (Ret seen', w')
    /\ clock w' = clock w + 1 /\ sigint w' = None.
Proof.
  intros Hs. unfold watch_new_file, mbind, M_bind.
  destruct (sleep_cases 1 w)
    as [[Hs0 _]|(_ & w1 & -> & _ & Hclock & _ & Hc1 & _)]; [congruence |].
  pose proof (counts_down_never w w1 Hs Hc1) as Hs1.
  destruct (exists_nonempty_cases f w1) as [[_ ->]|[_ ->]].
  { eexists _, _. split; [reflexivity |]. split; [exact Hclock | exact Hs1]. }
  destruct (0 <? size_of f w1)%N.
  2:{ eexists _, _. split; [reflexivity |]. split; [exact Hclock | exact Hs1]. }
  unfold logger, emit.
  set (w2 := record_event _ (apply_events _ w1)).
  destruct (convert_and_report_cases f (md_in od f) pres w2)
    as [[Hs2 _]|(_ & ok & rest & _ & ->)].
  { unfold w2 in Hs2. simpl in Hs2. congruence. }
  eexists _, _. split; [reflexivity |]. split.
  - rewrite apply_events_clock. exact Hclock.
  - rewrite apply_events_sigint. unfold w2. simpl. now rewrite Hs1.
Qed.

Lemma watch_new_files_time od pres new_files :
  forall seen w,
    sigint w = None ->
    exists seen' w',
      watch_new_files od pres new_files seen w = (Ret seen', w')
      /\ clock w' = clock w + List.length new_files /\ sigint w' = None.
Proof.
  induction new_files as [|f rest IH]; intros seen w Hs; simpl.
  - eexists _, _. split; [reflexivity |]. split; [lia | exact Hs].
  - unfold mbind, M_bind.
    destruct (watch_new_file_time od pres seen f w Hs)
      as (seen1 & w1 & -> & Hc1 & Hs1).
    destruct (IH seen1 w1 Hs1) as (seen2 & w2 & -> & Hc2 & Hs2).
    eexists _, _. split; [reflexivity |]. split; [lia | exact Hs2].
Qed.

(** X5. Without Ctrl+C a turn of the loop returns, and it takes two
    seconds and one second more for each PDF of the folder that is not
    yet seen, whether the file is ready to be converted or not. *)
Theorem cycle_duration (folder od : Path) (pres : bool) (seen : gset Path)
  (w : world) :
  sigint w = None ->
  exists seen' w',
    watch_cycle folder od pres seen w = (Ret seen', w')
    /\ clock w'
       = clock w + size (list_to_set (listing folder w) ∖ seen : gset Path) + 2
    /\ sigint w' = None.
Proof.
  intros Hs. unfold watch_cycle, mbind, M_bind, glob_pdf.
  set (w1 := record_event _ w).
  destruct (watch_new_files_time od pres
              (elements (list_to_set (listing folder w) ∖ seen : gset Path))
              seen w1 Hs) as (seen1 & w2 & -> & Hc2 & Hs2).
  destruct (sleep_cases 2 w2)
    as [[Hs0 _]|(_ & w3 & -> & _ & Hc3 & _ & Hcd & _)]; [congruence |].
  eexists _, _. split; [reflexivity |]. split.
  - rewrite Hc3, Hc2. reflexivity.
  - exact (counts_down_never w2 w3 Hs2 Hcd).
Qed.

Lemma cycle_duration_witness :
  exists seen' w',
    watch_cycle (parse_path "in") (parse_path "in/converted") true ∅ busy_world
    = (Ret seen', w')
    /\ clock w'
       = clock busy_world
         + size (list_to_set (listing (parse_path "in") busy_world) ∖ ∅
                 : gset Path) + 2
    /\ sigint w' = None.
Proof.
  apply (cycle_duration (parse_path "in") (parse_path "in/converted") true ∅
           busy_world).
  reflexivity.
Defined.

Example first_cycle_takes_three_seconds :
  clock (snd (watch_cycle (parse_path "in") (parse_path "in/converted") true ∅
                busy_world)) = 3.
Proof. vm_compute. reflexivity. Qed.

(** ** No PDF is opened twice by the watcher *)

Lemma opened_app e1 e2 : opened (e1 ++ e2) = opened e1 ++ opened e2.
Proof.
  induction e1 as [|ev e1 IH]; [reflexivity |].
  destruct ev; simpl; now rewrite IH.
Qed.

Lemma opened_calm evs : Forall calm evs -> opened evs = [].
Proof.
  induction 1 as [|ev evs Hev _ IH]; [reflexivity |].
  destruct ev; simpl; try exact IH. destruct Hev.
Qed.

Lemma opened_new_file f evs :
  new_file_events f evs -> opened evs = [] \/ opened evs = [f].
Proof.
  destruct 1; simpl; auto. right. now rewrite opened_calm.
Qed.

Lemma fresh_opens_none seen evs : opened evs = [] -> fresh_opens seen evs.
Proof. intros H. unfold fresh_opens. rewrite H. split; [constructor | tauto]. Qed.

Lemma fresh_opens_app (seen seen1 : gset Path) e1 e2 :
  fresh_opens seen e1 -> (forall p, In p (opened e1) -> p ∈ seen1) ->
  seen ⊆ seen1 -> fresh_opens seen1 e2 ->
  fresh_opens seen (e1 ++ e2).
Proof.
  intros [Hn1 Hf1] Hin1 Hsub [Hn2 Hf2]. unfold fresh_opens.
  rewrite opened_app. split.
  - apply NoDup_app. split; [exact Hn1 |]. split; [| exact Hn2].
    intros p Hp1 Hp2. apply list_elem_of_In in Hp1, Hp2.
    exact (Hf2 p Hp2 (Hin1 p Hp1)).
  - intros p Hp. apply in_app_or in Hp as [Hp|Hp]; [now apply Hf1 |].
    intros Hs. apply (Hf2 p Hp). set_solver.
Qed.

(** One new file: it is opened at most once, and then it is seen. *)
Lemma watch_new_file_once od pres seen f w :
  exists evs,
    adds w evs (snd (watch_new_file od pres seen f w))
    /\ (opened evs = [] \/ opened evs = [f])
    /\ match fst (watch_new_file od pres seen f w) with
       | Ret seen' =>
           seen ⊆ seen' /\ seen' ⊆ {[f]} ∪ seen
           /\ (opened evs = [f] -> f ∈ seen')
       | Raise _ => True
       end.
Proof.
  unfold watch_new_file, mbind, M_bind.
  destruct (sleep_cases 1 w) as [[_ ->]|(_ & w1 & -> & Ht1 & _)].
  { exists []. split; [reflexivity |]. split; [now left | exact I]. }
  assert (Hadd1 : adds w [EvSleep 1] w1) by exact Ht1.
  destruct (exists_nonempty_cases f w1) as [[_ ->]|[_ ->]].
  { exists ([EvSleep 1] ++ [EvExists f false]). split.
    - eapply adds_trans; [exact Hadd1 | reflexivity].
    - split; [now left |]. simpl. split; [reflexivity |].
      split; [set_solver | discriminate]. }
  destruct (0 <? size_of f w1)%N.
  2:{ exists ([EvSleep 1] ++ [EvExists f true; EvStat f (size_of f w1)]). split.
      - eapply adds_trans; [exact Hadd1 | reflexivity].
      - split; [now left |]. simpl. split; [reflexivity |].
        split; [set_solver | discriminate]. }
  unfold logger, emit.
  set (w2 := record_event _ (apply_events _ w1)).
  assert (Hadd2 : adds w ([EvSleep 1]
                          ++ [EvExists f true; EvStat f (size_of f w1);
                              EvLog INFO ("New PDF detected: " +:+ name f)])
                       w2).
  { eapply adds_trans; [exact Hadd1 | reflexivity]. }
  destruct (convert_and_report_cases f (md_in od f) pres w2)
    as [[_ ->]|(_ & ok & rest & Hrest & ->)].
  - eexists. split; [exact Hadd2 |]. split; [now left | exact I].
  - exists (([EvSleep 1]
             ++ [EvExists f true; EvStat f (size_of f w1);
                 EvLog INFO ("New PDF detected: " +:+ name f)])
            ++ EvOpen f ok :: rest).
    split.
    + refine (adds_trans _ _ _ _ _ Hadd2 _). unfold adds.
      change (trace (apply_events (EvOpen f ok :: rest) (after_tick w2))
              = rev (EvOpen f ok :: rest) ++ trace (after_tick w2)).
      apply apply_events_trace.
    + split.
      * right. rewrite opened_app. simpl. now rewrite opened_calm.
      * simpl. split; [set_solver |]. split; [reflexivity | set_solver].
Qed.

Lemma watch_new_files_once od pres new_files :
  forall seen w,
    NoDup new_files -> (forall f, In f new_files -> f ∉ seen) ->
    exists evs,
      adds w evs (snd (watch_new_files od pres new_files seen w))
      /\ fresh_opens seen evs
      /\ (forall p, In p (opened evs) -> In p new_files)
      /\ match fst (watch_new_files od pres new_files seen w) with
         | Ret seen' =>
             seen ⊆ seen' /\ (forall p, In p (opened evs) -> p ∈ seen')
         | Raise _ => True
         end.
Proof.
  induction new_files as [|f rest IH]; intros seen w Hnd Hnew; simpl.
  - exists []. split; [reflexivity |].
    split; [now apply fresh_opens_none |]. split; [tauto |].
    split; [reflexivity | simpl; tauto].
  - apply NoDup_cons in Hnd as [Hf Hnd]. rewrite list_elem_of_In in Hf.
    unfold mbind, M_bind.
    destruct (watch_new_file_once od pres seen f w) as (evs1 & Ha1 & Ho1 & Hr1).
    assert (Hfresh1 : fresh_opens seen evs1).
    { destruct Ho1 as [H|H]; [now apply fresh_opens_none |].
      unfold fresh_opens. rewrite H. split; [apply NoDup_singleton |].
      intros p [<-|[]]. apply Hnew. now left. }
    assert (Hin1 : forall p, In p (opened evs1) -> In p (f :: rest)).
    { destruct Ho1 as [H | H]; rewrite H; simpl; tauto. }
    destruct (watch_new_file od pres seen f w) as [[seen1|e] w1]; simpl in *.
    2:{ exists evs1. auto. }
    destruct Hr1 as (Hsub1 & Hsup1 & Hopen1).
    destruct (IH seen1 w1 Hnd) as (evs2 & Ha2 & Hfresh2 & Hin2 & Hr2).
    { intros g Hg Hs. apply Hsup1 in Hs.
      apply elem_of_union in Hs as [Hs|Hs].
      - apply elem_of_singleton in Hs. subst. contradiction.
      - apply (Hnew g); [now right | exact Hs]. }
    assert (Hseen1 : forall p, In p (opened evs1) -> p ∈ seen1).
    { destruct Ho1 as [H|H]; rewrite H; simpl; [tauto |].
      intros p [<-|[]]. now apply Hopen1. }
    exists (evs1 ++ evs2). split; [eapply adds_trans; eauto |]. split.
    { eapply fresh_opens_app; eauto. }
    split.
    { intros p. rewrite opened_app. intros Hp.
      apply in_app_or in Hp as [Hp|Hp]; [auto | right; auto]. }
    destruct (fst (watch_new_files od pres rest seen1 w1)) as [seen2|]; [| exact I].
    destruct Hr2 as [Hsub2 Hseen2].
    split; [intros x Hx; apply Hsub2, Hsub1, Hx |].
    intros p. rewrite opened_app. intros Hp.
    apply in_app_or in Hp as [Hp|Hp]; [| auto].
    apply Hsub2. auto.
Qed.

Lemma listing_pdf_entry folder w p :
  In p (listing folder w) -> pdf_entry folder p.
Proof.
  intros H. apply list_elem_of_In in H. unfold listing in H.
  now apply list_elem_of_filter in H as [H _].
Qed.

Lemma watch_cycle_once folder od pres seen w :
  exists evs,
    adds w evs (snd (watch_cycle folder od pres seen w))
    /\ fresh_opens seen evs
    /\ Forall (pdf_entry folder) (opened evs)
    /\ match fst (watch_cycle folder od pres seen w) with
       | Ret seen' =>
           seen ⊆ seen' /\ (forall p, In p (opened evs) -> p ∈ seen')
       | Raise _ => True
       end.
Proof.
  unfold watch_cycle, mbind, M_bind, glob_pdf.
  set (w1 := record_event _ w).
  set (new_files := elements _).
  destruct (watch_new_files_once od pres new_files seen w1)
    as (evs & Ha & Hfresh & Hnew & Hr).
  { apply NoDup_elements. }
  { intros f Hf. apply list_elem_of_In in Hf. apply elem_of_elements in Hf.
    apply elem_of_difference in Hf. tauto. }
  assert (Hentry : Forall (pdf_entry folder) (opened evs)).
  { apply List.Forall_forall. intros p Hp. apply Hnew in Hp.
    apply list_elem_of_In in Hp. apply elem_of_elements in Hp.
    apply elem_of_difference in Hp as [Hp _].
    apply elem_of_list_to_set in Hp. apply list_elem_of_In in Hp.
    now apply listing_pdf_entry in Hp. }
  assert (Hopen' : forall tail,
             opened tail = [] ->
             opened (([EvGlob folder (listing folder w)] ++ evs) ++ tail)
             = opened evs).
  { intros tail Ht. now rewrite !opened_app, Ht, app_nil_r. }
  assert (Hfresh' : forall tail,
             opened tail = [] ->
             fresh_opens seen (([EvGlob folder (listing folder w)] ++ evs) ++ tail)
             /\ Forall (pdf_entry folder)
                  (opened (([EvGlob folder (listing folder w)] ++ evs) ++ tail))).
  { intros tail Ht. unfold fresh_opens in *. now rewrite (Hopen' tail Ht). }
  assert (Ha1 : adds w ([EvGlob folder (listing folder w)] ++ evs)
                     (snd (watch_new_files od pres new_files seen w1))).
  { eapply adds_trans; [apply adds_record | exact Ha]. }
  destruct (watch_new_files od pres new_files seen w1) as [[seen1|e] w2];
    simpl in *.
  2:{ exists (([EvGlob folder (listing folder w)] ++ evs) ++ []).
      split; [now rewrite app_nil_r |].
      destruct (Hfresh' [] eq_refl) as [H1 H2]. auto. }
  destruct Hr as [Hsub Hseen].
  destruct (sleep_cases 2 w2) as [[_ ->]|(_ & w3 & -> & Ht3 & _)].
  - exists (([EvGlob folder (listing folder w)] ++ evs) ++ []).
    split; [now rewrite app_nil_r |].
    destruct (Hfresh' [] eq_refl) as [H1 H2]. simpl. auto.
  - exists (([EvGlob folder (listing folder w)] ++ evs) ++ [EvSleep 2]).
    split; [eapply adds_trans; [exact Ha1 | exact Ht3] |].
    destruct (Hfresh' [EvSleep 2] eq_refl) as [H1 H2].
    split; [exact H1 |]. split; [exact H2 |]. simpl. split; [exact Hsub |].
    intros p Hp. apply Hseen. now rewrite (Hopen' [EvSleep 2] eq_refl) in Hp.
Qed.

Lemma watch_cycles_once folder od pres n :
  forall seen w,
    exists evs,
      adds w evs (snd (watch_cycles n folder od pres seen w))
      /\ fresh_opens seen evs
      /\ Forall (pdf_entry folder) (opened evs).
Proof.
  induction n as [|n IH]; intros seen w; simpl.
  - exists []. split; [reflexivity |].
    split; [now apply fresh_opens_none | constructor].
  - unfold mbind, M_bind.
    destruct (watch_cycle_once folder od pres seen w)
      as (evs1 & Ha1 & Hf1 & He1 & Hr1).
    destruct (watch_cycle folder od pres seen w) as [[seen1|e] w1]; simpl in *.
    2:{ exists evs1. auto. }
    destruct Hr1 as [Hsub Hseen].
    destruct (IH seen1 w1) as (evs2 & Ha2 & Hf2 & He2).
    exists (evs1 ++ evs2). split; [eapply adds_trans; eauto |].
    split; [eapply fresh_opens_app; eauto |].
    rewrite opened_app. apply Forall_app. auto.
Qed.

Lemma watch_loop_once fuel folder od pres seen w :
  exists evs,
    adds w evs (snd (watch_loop fuel folder od pres seen w))
    /\ fresh_opens seen evs
    /\ Forall (pdf_entry folder) (opened evs).
Proof.
  unfold watch_loop, try_except_interrupt, mbind, M_bind.
  destruct (watch_cycles_once folder od pres fuel seen w)
    as (evs & Ha & Hf & He).
  destruct (watch_cycles fuel folder od pres seen w) as [[seen1|[]] w1];
    simpl in *; try (exists evs; auto; fail).
  exists (evs ++ [EvLog INFO "Watch mode stopped"]).
  split; [eapply adds_trans; [exact Ha | apply adds_record] |].
  unfold fresh_opens in *. now rewrite opened_app, app_nil_r.
Qed.

Lemma scan_existing_once od pres found :
  forall seen w,
    NoDup found -> (forall h, In h found -> h ∉ seen) ->
    exists evs,
      adds w evs (snd (scan_existing od pres found seen w))
      /\ fresh_opens seen evs
      /\ (forall p, In p (opened evs) -> In p found)
      /\ match fst (scan_existing od pres found seen w) with
         | Ret seen' =>
             seen ⊆ seen' /\ (forall p, In p (opened evs) -> p ∈ seen')
         | Raise _ => True
         end.
Proof.
  induction found as [|h rest IH]; intros seen w Hnd Hnew; simpl.
  - exists []. split; [reflexivity |].
    split; [now apply fresh_opens_none |]. split; [tauto |].
    split; [reflexivity | simpl; tauto].
  - apply NoDup_cons in Hnd as [Hh Hnd]. rewrite list_elem_of_In in Hh.
    unfold mbind, M_bind, exists_.
    set (w1 := record_event (EvExists (md_in od h) (path_exists (md_in od h) w)) w).
    assert (Hrest : forall g, In g rest -> g ∉ {[h]} ∪ seen).
    { intros g Hg Hs. apply elem_of_union in Hs as [Hs|Hs].
      - apply elem_of_singleton in Hs. subst. contradiction.
      - apply (Hnew g); [now right | exact Hs]. }
    assert (Hstep : forall w2 evs0,
               adds w evs0 w2 -> (opened evs0 = [] \/ opened evs0 = [h]) ->
               exists evs,
                 adds w evs (snd (scan_existing od pres rest ({[h]} ∪ seen) w2))
                 /\ fresh_opens seen evs
                 /\ (forall p, In p (opened evs) -> In p (h :: rest))
                 /\ match fst (scan_existing od pres rest ({[h]} ∪ seen) w2) with
                    | Ret seen' =>
                        seen ⊆ seen'
                        /\ (forall p, In p (opened evs) -> p ∈ seen')
                    | Raise _ => True
                    end).
    { intros w2 evs0 Ha0 Ho0.
      destruct (IH ({[h]} ∪ seen) w2 Hnd Hrest) as (evs & Ha & Hf & Hin & Hr).
      assert (Hf0 : fresh_opens seen evs0).
      { destruct Ho0 as [H|H]; [now apply fresh_opens_none |].
        unfold fresh_opens. rewrite H.
        split; [apply NoDup_singleton |].
        intros p [<-|[]]. apply Hnew. now left. }
      assert (Hs0 : forall p, In p (opened evs0) -> p ∈ {[h]} ∪ seen).
      { destruct Ho0 as [H | H]; rewrite H; simpl; [tauto |].
        intros p [<-|[]]. set_solver. }
      exists (evs0 ++ evs). split; [eapply adds_trans; eauto |]. split.
      { eapply fresh_opens_app; eauto. apply union_subseteq_r. }
      split.
      { intros p. rewrite opened_app. intros Hp.
        apply in_app_or in Hp as [Hp|Hp]; [| right; auto].
        destruct Ho0 as [H|H]; rewrite H in Hp; simpl in Hp;
          [destruct Hp | destruct Hp as [<-|[]]; now left]. }
      destruct (fst (scan_existing od pres rest ({[h]} ∪ seen) w2))
        as [seen'|]; [| exact I].
      destruct Hr as [Hsub Hseen].
      split; [intros x Hx; apply Hsub, elem_of_union; now right |].
      intros p. rewrite opened_app. intros Hp.
      apply in_app_or in Hp as [Hp|Hp]; [| auto]. apply Hsub. auto. }
    destruct (path_exists (md_in od h) w) eqn:Hmd; simpl.
    + apply (Hstep w1 [EvExists (md_in od h) true]); [reflexivity | now left].
    + unfold logger, emit. set (w2 := record_event _ w1).
      destruct (convert_and_report_cases h (md_in od h) pres w2)
        as [[_ ->]|(_ & ok & evs0 & Hcalm & ->)].
      * eexists [_; _]. simpl. split; [reflexivity |].
        split; [now apply fresh_opens_none |]. split; [simpl; tauto | exact I].
      * apply (Hstep _ ([EvExists (md_in od h) false;
                         EvLog INFO ("Converting existing file: " +:+ name h)]
                        ++ EvOpen h ok :: evs0)).
        -- apply (adds_trans w [EvExists (md_in od h) false;
                                 EvLog INFO ("Converting existing file: "
                                             +:+ name h)] w2
                               (EvOpen h ok :: evs0));
             [reflexivity |]. unfold adds.
           change (trace (apply_events (EvOpen h ok :: evs0) (after_tick w2))
                   = rev (EvOpen h ok :: evs0) ++ trace (after_tick w2)).
           apply apply_events_trace.
        -- right. simpl. now rewrite opened_calm.
Qed.

Lemma listing_nodup folder w : NoDup (listing folder w).
Proof. unfold listing. apply NoDup_filter, NoDup_elements. Qed.

(** X6. In one run of the watcher no PDF is opened twice: neither at
    the start, nor in the loop, nor once at the start and once in the
    loop; a conversion that failed is not tried again. Every path it
    opens is an entry of the watched folder itself whose name ends in
    [.pdf], in these letters. *)
Theorem watcher_opens_once (fuel : nat) (folder_path : string)
  (output_path : option string) (pres : bool) (w : world) :
  exists evs,
    trace (snd (watch_folder fuel folder_path output_path pres w))
    = rev evs ++ trace w
    /\ NoDup (opened evs)
    /\ Forall (pdf_entry (parse_path folder_path)) (opened evs).
Proof.
  set (folder := parse_path folder_path).
  unfold watch_folder, watch_setup, mbind, M_bind, exists_. fold folder.
  set (w1 := record_event (EvExists folder (path_exists folder w)) w).
  assert (Hw2 : exists d evs2 w2,
             (if path_exists folder w then is_dir folder else mret false) w1
             = (Ret d, w2)
             /\ adds w evs2 w2 /\ opened evs2 = []).
  { destruct (path_exists folder w).
    - eexists _, [_; _], _. split; [reflexivity |]. split; reflexivity.
    - eexists false, [_], w1. split; [reflexivity |]. split; reflexivity. }
  destruct Hw2 as (d & evs2 & w2 & -> & Hadd2 & Ho2).
  destruct d; simpl.
  2:{ exists (evs2 ++ [EvLog ERROR ("Invalid folder: " +:+ folder_path)]).
      split; [exact (adds_trans _ _ _ _ _ Hadd2 (adds_record _ _)) |].
      rewrite opened_app, Ho2. split; constructor. }
  destruct (watch_output_dir_cases folder output_path w2)
    as (ok & w3 & Hadd3 & _ & [-> | [e ->]]).
  2:{ exists (evs2 ++ [EvMkdir (watch_dir folder output_path) ok]).
      split; [exact (adds_trans _ _ _ _ _ Hadd2 Hadd3) |].
      rewrite opened_app, Ho2. split; constructor. }
  set (od := watch_dir folder output_path) in *.
  unfold logger, emit, glob_pdf.
  set (w4 := record_event _ w3).
  set (w5 := record_event _ w4).
  set (pre := evs2 ++ [EvMkdir od ok]
              ++ [EvLog INFO ("Scanning existing PDFs in "
                              +:+ path_str folder +:+ "...");
                  EvGlob folder (listing folder w4)]).
  assert (Hadd5 : adds w pre w5).
  { eapply adds_trans; [exact Hadd2 |]. eapply adds_trans; [exact Hadd3 |].
    reflexivity. }
  assert (Hopre : opened pre = []).
  { unfold pre. now rewrite opened_app, Ho2. }
  destruct (scan_existing_once od pres (listing folder w4) ∅ w5
              (listing_nodup folder w4) ltac:(set_solver))
    as (evs6 & Hadd6 & Hf6 & Hin6 & Hr6).
  assert (He6 : Forall (pdf_entry folder) (opened evs6)).
  { apply List.Forall_forall. intros p Hp.
    exact (listing_pdf_entry folder w4 p (Hin6 p Hp)). }
  destruct (scan_existing od pres (listing folder w4) ∅ w5) as [[seen|e] w6];
    simpl in *.
  2:{ exists (pre ++ evs6). split; [exact (adds_trans _ _ _ _ _ Hadd5 Hadd6) |].
      rewrite opened_app, Hopre. split; [apply Hf6 | exact He6]. }
  destruct Hr6 as [_ Hseen].
  set (w7 := record_event _ w6).
  destruct (watch_loop_once fuel folder od pres seen w7)
    as (evs8 & Hadd8 & Hf8 & He8).
  exists (pre ++ evs6 ++ [EvLog INFO ("Watching " +:+ path_str folder
                                      +:+ " for new PDFs... (Press Ctrl+C to stop)")]
          ++ evs8).
  split.
  - exact (adds_trans _ _ _ _ _ Hadd5
             (adds_trans _ _ _ _ _ Hadd6
                (adds_trans _ _ _ _ _ (adds_record _ _) Hadd8))).
  - rewrite opened_app, Hopre.
    change ([] ++ ?l) with l. split.
    + apply (fresh_opens_app ∅ seen evs6 _ Hf6 Hseen ltac:(set_solver)).
      unfold fresh_opens in *. exact Hf8.
    + rewrite opened_app. apply Forall_app. split; [exact He6 |]. exact He8.
Qed.

(** ** The log is written, never read *)

Ltac same_worlds :=
  intros [fs ds o t s tr ce et] [fs' ds' o' t' s' tr' ce' et']
    (Hf & Hd & Ho & Hc & Hs & Hce & Het);
  simpl in Hf, Hd, Ho, Hc, Hs, Hce, Het; subst fs' ds' o' t' s' ce' et'.

Lemma same_state_refl w : same_state w w.
Proof. repeat split. Qed.

Lemma alike_ret {A} (a : A) : alike (mret a) (mret a).
Proof. intros w1 w2 H. split; [reflexivity | exact H]. Qed.

Lemma alike_raise {A} e : alike (raise e : M A) (raise e).
Proof. intros w1 w2 H. split; [reflexivity | exact H]. Qed.

Lemma alike_bind {A B} (m m' : M A) (k k' : A -> M B) :
  alike m m' -> (forall a, alike (k a) (k' a)) -> alike (m ≫= k) (m' ≫= k').
Proof.
  intros Hm Hk w1 w2 H. unfold mbind, M_bind.
  destruct (Hm w1 w2 H) as [Hr Hw].
  destruct (m w1) as [[a|e] w1'], (m' w2) as [[a'|e'] w2']; simpl in *;
    try discriminate.
  - injection Hr as <-. now apply Hk.
  - injection Hr as <-. auto.
Qed.

Lemma alike_emit ev ev' : alike (emit ev) (emit ev').
Proof. same_worlds. repeat split. Qed.

Lemma alike_emit_l ev : alike (emit ev) (mret tt).
Proof. same_worlds. repeat split. Qed.

Lemma alike_emit_r ev : alike (mret tt) (emit ev).
Proof. same_worlds. repeat split. Qed.

Lemma alike_tick : alike tick tick.
Proof. same_worlds. unfold tick. simpl.
  destruct s as [[|k]|]; repeat split.
Qed.

Lemma alike_exists p : alike (exists_ p) (exists_ p).
Proof. same_worlds. repeat split. Qed.

Lemma alike_read_pdf p : alike (read_pdf p) (read_pdf p).
Proof.
  same_worlds. unfold read_pdf. simpl.
  destruct (_ !! p) as [[]|]; repeat split.
Qed.

Lemma alike_write_bytes p data : alike (write_bytes p data) (write_bytes p data).
Proof.
  same_worlds. unfold write_bytes, can_write. simpl.
  destruct (_ && _); repeat split.
Qed.

Lemma alike_write_text p text : alike (write_text p text) (write_text p text).
Proof.
  same_worlds. unfold write_text, can_write. simpl.
  destruct (_ && _); repeat split.
Qed.

Lemma alike_mkdir_parents p : alike (mkdir_parents p) (mkdir_parents p).
Proof.
  same_worlds. unfold mkdir_parents. simpl.
  destruct (forallb _ _); repeat split.
Qed.

Lemma alike_mkdir p : alike (mkdir p) (mkdir p).
Proof.
  same_worlds. unfold mkdir. simpl.
  destruct (bool_decide (p ∈ _)); [repeat split |].
  destruct (_ || _); repeat split.
Qed.

Lemma alike_try_except {A} (m m' : M A) (h h' : string -> M A) :
  alike m m' -> (forall msg, alike (h msg) (h' msg)) ->
  alike (try_except m h) (try_except m' h').
Proof.
  intros Hm Hh w1 w2 H. unfold try_except.
  destruct (Hm w1 w2 H) as [Hr Hw].
  destruct (m w1) as [[a|e] w1'], (m' w2) as [[a'|e'] w2']; simpl in *;
    try discriminate.
  - auto.
  - injection Hr as <-. destruct e; auto. now apply Hh.
Qed.

Lemma alike_extract_image doc xref :
  alike (extract_image doc xref) (extract_image doc xref).
Proof.
  same_worlds. unfold extract_image. simpl.
  destruct (_ !! xref); repeat split.
Qed.

Lemma alike_console_print msg : alike (console_print msg) (console_print msg).
Proof.
  same_worlds. unfold console_print. simpl. destruct (ce msg); repeat split.
Qed.

Lemma alike_extract_images doc out pn xrefs :
  forall i mc,
    alike (extract_images doc out pn i xrefs mc)
          (extract_images doc out pn i xrefs mc).
Proof.
  induction xrefs as [|xref rest IH]; intros i mc; simpl.
  - apply alike_ret.
  - apply alike_bind.
    + apply alike_extract_image.
    + intros im. apply alike_bind; [apply alike_write_bytes |].
      intros []. apply IH.
Qed.

Lemma alike_process_pages doc out pres pages :
  forall pn mc,
    alike (process_pages doc out pres pn pages mc)
          (process_pages doc out pres pn pages mc).
Proof.
  induction pages as [|pg rest IH]; intros pn mc; simpl.
  - apply alike_ret.
  - apply alike_bind; [| intros mc'; apply IH].
    destruct out; [apply alike_extract_images | apply alike_ret].
Qed.

Lemma alike_pdf_to_markdown p out pres :
  alike (pdf_to_markdown p out pres) (pdf_to_markdown p out pres).
Proof.
  unfold pdf_to_markdown. apply alike_try_except.
  - apply alike_bind; [| intros; apply alike_ret].
    unfold pdf_to_markdown_try. apply alike_bind.
    + unfold fitz_open. apply alike_bind; [apply alike_tick |].
      intros []. apply alike_read_pdf.
    + intros doc. unfold convert_opened.
      apply alike_bind; [apply alike_process_pages |]. intros mc.
      apply alike_bind; [apply alike_emit |]. intros [].
      apply alike_bind; [| intros; apply alike_ret].
      destruct out; [| apply alike_ret].
      apply alike_bind; [apply alike_write_text |]. intros [].
      apply alike_console_print.
  - intros msg. apply alike_bind; [apply alike_emit |].
    intros []. apply alike_ret.
Qed.

Lemma alike_resolve_output a p :
  alike (resolve_output a p) (resolve_output a p).
Proof.
  unfold resolve_output.
  destruct (parse_path <$> truthy_arg (output a)) as [candidate|]; simpl.
  - destruct (truthy_str (suffix candidate) || _).
    + apply alike_bind.
      * destruct (truthy_str (suffix candidate)); [apply alike_ret |].
        unfold with_suffix_. destruct (with_suffix candidate ".md");
          [apply alike_ret | apply alike_raise].
      * intros o. apply alike_bind; [apply alike_mkdir_parents |].
        intros []. apply alike_ret.
    + apply alike_bind; [apply alike_mkdir_parents |].
      intros []. apply alike_ret.
  - apply alike_bind; [apply alike_mkdir_parents |].
    intros []. apply alike_ret.
Qed.

Lemma alike_convert_files v q a todo :
  forall failed ok,
    alike (convert_files (with_logging v q a) todo failed ok)
          (convert_files a todo failed ok).
Proof.
  induction todo as [|pdf_file rest IH]; intros failed ok; simpl.
  - apply alike_ret.
  - apply alike_bind; [apply alike_exists |]. intros present.
    destruct present; simpl.
    2:{ apply alike_bind; [apply alike_emit |]. intros []. apply IH. }
    destruct (String.eqb _ ".pdf"); simpl.
    2:{ apply alike_bind; [apply alike_emit |]. intros []. apply IH. }
    apply alike_bind.
    { change (resolve_output (with_logging v q a) (parse_path pdf_file))
        with (resolve_output a (parse_path pdf_file)).
      apply alike_resolve_output. }
    intros output_file. apply alike_bind.
    { destruct (v && negb q), (verbose a && negb (quiet a));
        [apply alike_emit | apply alike_emit_l | apply alike_emit_r
        | apply alike_ret]. }
    intros []. apply alike_bind; [apply alike_pdf_to_markdown |].
    intros [md|].
    + apply alike_bind; [| intros []; apply IH].
      destruct (negb q), (negb (quiet a));
        [apply alike_emit | apply alike_emit_l | apply alike_emit_r
        | apply alike_ret].
    + apply alike_bind; [apply alike_emit |]. intros []. apply IH.
Qed.

(** X7. The options [--verbose] and [--quiet] change what is logged and
    nothing else: with other values of them [main] ends with the same
    result, be it an exit code or an exception, and with the same files,
    directories, clock and pending Ctrl+C. *)
Theorem logging_options_keep_the_run (fuel : nat) (v q : bool) (a : args)
  (w : world) :
  fst (main fuel (with_logging v q a) w) = fst (main fuel a w)
  /\ same_state (snd (main fuel (with_logging v q a) w))
                (snd (main fuel a w)).
Proof.
  unfold main.
  change (watch (with_logging v q a)) with (watch a).
  change (pdf (with_logging v q a)) with (pdf a).
  change (output (with_logging v q a)) with (output a).
  change (simple (with_logging v q a)) with (simple a).
  destruct (truthy_arg (watch a)) as [folder|].
  { split; [reflexivity | apply same_state_refl]. }
  destruct (pdf a) as [|pdf_file rest] eqn:Hpdf.
  { split; [reflexivity | apply same_state_refl]. }
  rewrite <- Hpdf.
  refine (alike_bind _ _ _ _ (alike_convert_files v q a (pdf a) [] []) _ w w
            (same_state_refl w)).
  intros [failed_files successful_files]. apply alike_ret.
Qed.

(** ** Arguments that are turned down *)

Lemma same_state_path_exists w1 w2 p :
  same_state w1 w2 -> path_exists p w1 = path_exists p w2.
Proof. intros (Hf & Hd & _). unfold path_exists. now rewrite Hf, Hd. Qed.

Lemma same_state_record ev w0 w :
  same_state w0 w -> same_state w0 (record_event ev w).
Proof. intros H. exact H. Qed.




(** ** The destinations of a batch *)

Lemma markdown_writes_app e1 e2 :
  markdown_writes (e1 ++ e2) = markdown_writes e1 ++ markdown_writes e2.
Proof.
  induction e1 as [|ev e1 IH]; [reflexivity |].
  destruct ev; simpl; now rewrite IH.
Qed.

Lemma markdown_writes_bytes evs :
  Forall is_write_bytes evs -> markdown_writes evs = [].
Proof.
  induction 1 as [|ev evs Hev _ IH]; [reflexivity |].
  destruct ev; simpl; try exact IH; destruct Hev.
Qed.

Lemma files_kept_refl w : files_kept w w.
Proof. intros p H. exact H. Qed.

Lemma files_kept_trans w1 w2 w3 :
  files_kept w1 w2 -> files_kept w2 w3 -> files_kept w1 w3.
Proof. intros H1 H2 p H. now apply H2, H1. Qed.

Lemma files_kept_same w w' : files w' = files w -> files_kept w w'.
Proof. intros H p. now rewrite H. Qed.

Lemma last_write_is_Some evs p :
  forall before, is_Some before -> is_Some (last_write evs p before).
Proof.
  induction evs as [|ev evs IH]; intros before H; simpl; [exact H |].
  destruct (written ev) as [[q f]|]; [| now apply IH].
  apply IH. destruct (decide (q = p)); [eauto | exact H].
Qed.

Lemma files_kept_apply_events evs w : files_kept w (apply_events evs w).
Proof. intros p H. rewrite apply_events_files. now apply last_write_is_Some. Qed.

(** A conversion with a destination writes Markdown there and nowhere
    else; when it returns a string it has written it there last and
    logged no error, and when it returns [None] it has logged one. *)
Lemma converted_destination p o w r evs :
  converted p (Some o) w r evs ->
  Forall (eq o) (markdown_writes evs)
  /\ match r with
     | Some md =>
         (forall before, last_write evs o before = Some (TextFile md))
         /\ In (EvWriteText o md true) evs
         /\ Forall (fun ev => ~ is_error_log ev) evs
     | None => Exists is_error_log evs
     end.
Proof.
  intros Hc.
  assert (Hlast : forall evs0 tail,
             Exists is_error_log tail ->
             Exists is_error_log (EvOpen p true :: evs0 ++ tail)).
  { intros evs0 tail H. apply Exists_cons_tl, Exists_app. now right. }
  inversion Hc as [|evs0 msg Hev|evs0 o0 md0 Ho Hcw Hev
                   |evs0 o0 md0 e Ho Hcw Hp Hev|evs0 o0 md0 Ho Hcw Hp Hev
                   |evs0 md0 Ho Hev]; subst; try discriminate.
  - split; [constructor |]. apply Exists_cons_tl, Exists_cons_hd. exact I.
  - split.
    + simpl. rewrite markdown_writes_app, (markdown_writes_bytes _ Hev).
      constructor.
    + apply Hlast, Exists_cons_hd. exact I.
  - injection Ho as <-. split.
    + simpl. rewrite markdown_writes_app, (markdown_writes_bytes _ Hev). simpl.
      now constructor.
    + apply Hlast. do 2 apply Exists_cons_tl. apply Exists_cons_hd. exact I.
  - injection Ho as <-. split.
    + simpl. rewrite markdown_writes_app, (markdown_writes_bytes _ Hev). simpl.
      now constructor.
    + apply Hlast. do 2 apply Exists_cons_tl. apply Exists_cons_hd. exact I.
  - injection Ho as <-. split.
    + simpl. rewrite markdown_writes_app, (markdown_writes_bytes _ Hev). simpl.
      now constructor.
    + split; [| split].
      * intros before.
        change (EvOpen p true :: evs0 ++ ?l) with ((EvOpen p true :: evs0) ++ l).
        rewrite last_write_app. simpl. now rewrite decide_True.
      * right. apply in_or_app. right. right. now left.
      * constructor; [simpl; tauto |]. apply Forall_app. split.
        -- eapply Forall_impl; [exact Hev |].
           intros [] H; try destruct H. simpl. tauto.
        -- repeat constructor; simpl; tauto.
Qed.

(** Where lines 267 to 277 send the Markdown: they create directories
    only, and the path they give is the destination. *)
Lemma resolve_output_cases a p w :
  exists evs,
    adds w evs (snd (resolve_output a p w))
    /\ markdown_writes evs = []
    /\ Forall (fun ev => ~ is_error_log ev) evs
    /\ files (snd (resolve_output a p w)) = files w
    /\ sigint (snd (resolve_output a p w)) = sigint w
    /\ forall out, fst (resolve_output a p w) = Ret out ->
                   destination a p = Some out.
Proof.
  assert (Hmk : forall q (k : M Path) out0,
             (k = mret out0) ->
             exists evs,
               adds w evs (snd ((mkdir_parents q;; k) w))
               /\ markdown_writes evs = []
               /\ Forall (fun ev => ~ is_error_log ev) evs
               /\ files (snd ((mkdir_parents q;; k) w)) = files w
               /\ sigint (snd ((mkdir_parents q;; k) w)) = sigint w
               /\ forall out, fst ((mkdir_parents q;; k) w) = Ret out ->
                              out0 = out).
  { intros q k out0 ->. unfold mbind, M_bind, mkdir_parents.
    destruct (forallb _ _); simpl.
    - exists [EvMkdir q true]. repeat split.
      + repeat constructor. simpl. tauto.
      + now intros out [= ->].
    - exists [EvMkdir q false]. repeat split.
      + repeat constructor. simpl. tauto.
      + discriminate. }
  unfold resolve_output, destination.
  destruct (parse_path <$> truthy_arg (output a)) as [candidate|]; simpl.
  - destruct (truthy_str (suffix candidate)); simpl.
    + destruct (Hmk (parent candidate) (mret candidate) candidate eq_refl)
        as (evs & H1 & H2 & H3 & H4 & H5 & H6).
      exists evs. repeat split; try assumption.
      intros out Hout. f_equal. now apply H6.
    + destruct (List.length (pdf a) =? 1)%nat.
      * unfold with_suffix_. destruct (with_suffix candidate ".md") as [q|].
        -- destruct (Hmk (parent q) (mret q) q eq_refl)
             as (evs & H1 & H2 & H3 & H4 & H5 & H6).
           exists evs. repeat split; try assumption.
           intros out Hout. f_equal. now apply H6.
        -- exists []. repeat split; [constructor | discriminate].
      * destruct (Hmk candidate (mret (md_in candidate p)) _ eq_refl)
          as (evs & H1 & H2 & H3 & H4 & H5 & H6).
        exists evs. repeat split; try assumption.
        intros out Hout. f_equal. now apply H6.
  - destruct (Hmk (parse_path ".") (mret (md_in (parse_path ".") p)) _ eq_refl)
      as (evs & H1 & H2 & H3 & H4 & H5 & H6).
    exists evs. repeat split; try assumption.
    intros out Hout. f_equal. now apply H6.
Qed.

Lemma wrote_markdown_app_l a e1 e2 p :
  wrote_markdown a e1 p -> wrote_markdown a (e1 ++ e2) p.
Proof.
  intros (out & md & Hd & Hin). exists out, md. split; [exact Hd |].
  apply in_or_app. now left.
Qed.

Lemma wrote_markdown_app_r a e1 e2 p :
  wrote_markdown a e2 p -> wrote_markdown a (e1 ++ e2) p.
Proof.
  intros (out & md & Hd & Hin). exists out, md. split; [exact Hd |].
  apply in_or_app. now right.
Qed.

Lemma reported_app_l e1 e2 p : reported e1 p -> reported (e1 ++ e2) p.
Proof.
  intros (msg & Hm & Hin). exists msg. split; [exact Hm |].
  apply in_or_app. now left.
Qed.

Lemma reported_app_r e1 e2 p : reported e2 p -> reported (e1 ++ e2) p.
Proof.
  intros (msg & Hm & Hin). exists msg. split; [exact Hm |].
  apply in_or_app. now right.
Qed.

(** The loop over the files: every write of Markdown goes to the
    destination of one of the files and no file of the world is lost;
    when the loop returns, the Markdown of every success was written
    at its destination, which is a file, every failure has its line in
    the log, and there is no failure exactly when no error was logged. *)
Lemma convert_files_writes a todo :
  forall failed ok w,
    exists evs,
      adds w evs (snd (convert_files a todo failed ok w))
      /\ files_kept w (snd (convert_files a todo failed ok w))
      /\ Forall (goes_to a todo) (markdown_writes evs)
      /\ forall failed' ok',
           fst (convert_files a todo failed ok w) = Ret (failed', ok') ->
           exists f s,
             failed' = failed ++ f /\ ok' = ok ++ s
             /\ batch_verdict a todo evs
                  (snd (convert_files a todo failed ok w)) f s.
Proof.
  induction todo as [|pdf_file rest IH]; intros failed ok w.
  { exists []. simpl. split; [reflexivity |]. split; [apply files_kept_refl |].
    split; [constructor |]. intros failed' ok' [= <- <-].
    exists [], []. rewrite !app_nil_r. split; [reflexivity |].
    split; [reflexivity |]. unfold batch_verdict.
    repeat split; constructor. }
  assert (Hrest : forall failed1 ok1 w1 evs1,
             adds w evs1 w1 -> files_kept w w1 ->
             Forall (goes_to a (pdf_file :: rest)) (markdown_writes evs1) ->
             (failed1 = failed ++ [parse_path pdf_file] /\ ok1 = ok
              /\ reported evs1 (parse_path pdf_file)
              \/ failed1 = failed /\ ok1 = ok ++ [parse_path pdf_file]
                 /\ landed a w1 (parse_path pdf_file)
                 /\ wrote_markdown a evs1 (parse_path pdf_file)
                 /\ Forall (fun ev => ~ is_error_log ev) evs1) ->
             exists evs,
               adds w evs (snd (convert_files a rest failed1 ok1 w1))
               /\ files_kept w (snd (convert_files a rest failed1 ok1 w1))
               /\ Forall (goes_to a (pdf_file :: rest)) (markdown_writes evs)
               /\ forall failed' ok',
                    fst (convert_files a rest failed1 ok1 w1)
                    = Ret (failed', ok') ->
                    exists f s,
                      failed' = failed ++ f /\ ok' = ok ++ s
                      /\ batch_verdict a (pdf_file :: rest) evs
                           (snd (convert_files a rest failed1 ok1 w1)) f s).
  { intros failed1 ok1 w1 evs1 Ha1 Hk1 Hw1 Hcase.
    destruct (IH failed1 ok1 w1) as (evs2 & Ha2 & Hk2 & Hw2 & Hr2).
    exists (evs1 ++ evs2). split; [eapply adds_trans; eauto |].
    split; [eapply files_kept_trans; eauto |]. split.
    { rewrite markdown_writes_app. apply Forall_app. split; [exact Hw1 |].
      eapply Forall_impl; [exact Hw2 |]. simpl.
      intros o (s & Hin & Hd). exists s. split; [now right | exact Hd]. }
    intros failed' ok' Hret.
    destruct (Hr2 failed' ok' Hret)
      as (f & s & -> & -> & Hperm & Hland & Hwrote & Hrep & Hiff).
    assert (Hwrote' : Forall (wrote_markdown a (evs1 ++ evs2)) s).
    { eapply Forall_impl; [exact Hwrote |]. intros q.
      apply wrote_markdown_app_r. }
    assert (Hrep' : Forall (reported (evs1 ++ evs2)) f).
    { eapply Forall_impl; [exact Hrep |]. intros q. apply reported_app_r. }
    destruct Hcase as [(-> & -> & Hrep1)
                      |(-> & -> & (out & Hout & Hfile) & Hwrote1 & Hquiet1)].
    - exists (parse_path pdf_file :: f), s.
      split; [now rewrite <- app_assoc |]. split; [reflexivity |].
      split; [simpl; now constructor |]. split; [exact Hland |].
      split; [exact Hwrote' |]. split.
      + constructor; [now apply reported_app_l | exact Hrep'].
      + split; [discriminate |]. intros Hq. exfalso.
        destruct Hrep1 as (msg & _ & Hin).
        rewrite List.Forall_forall in Hq.
        apply (Hq (EvLog ERROR msg)); [apply in_or_app; now left | exact I].
    - exists f, (parse_path pdf_file :: s).
      split; [reflexivity |]. split; [now rewrite <- app_assoc |].
      split; [simpl; rewrite <- Permutation_middle; now constructor |].
      split.
      { constructor; [| exact Hland]. exists out. split; [exact Hout |].
        now apply Hk2. }
      split; [constructor; [now apply wrote_markdown_app_l | exact Hwrote'] |].
      split; [exact Hrep' |]. rewrite Hiff. split.
      + intros Hq. apply Forall_app. now split.
      + intros Hq. now apply Forall_app in Hq as [_ Hq]. }
  simpl. unfold mbind, M_bind, exists_.
  set (p := parse_path pdf_file) in *.
  set (w1 := record_event (EvExists p (path_exists p w)) w).
  assert (Hbad : forall msg,
             msg = "File not found: " +:+ path_str p
             \/ msg = "Not a PDF file: " +:+ path_str p ->
             exists evs,
               adds w evs
                 (snd (convert_files a rest (failed ++ [p]) ok
                         (record_event (EvLog ERROR msg) w1)))
               /\ files_kept w
                    (snd (convert_files a rest (failed ++ [p]) ok
                            (record_event (EvLog ERROR msg) w1)))
               /\ Forall (goes_to a (pdf_file :: rest)) (markdown_writes evs)
               /\ forall failed' ok',
                    fst (convert_files a rest (failed ++ [p]) ok
                           (record_event (EvLog ERROR msg) w1))
                    = Ret (failed', ok') ->
                    exists f s,
                      failed' = failed ++ f /\ ok' = ok ++ s
                      /\ batch_verdict a (pdf_file :: rest) evs
                           (snd (convert_files a rest (failed ++ [p]) ok
                                   (record_event (EvLog ERROR msg) w1))) f s).
  { intros msg Hmsg.
    apply (Hrest _ _ _ [EvExists p (path_exists p w); EvLog ERROR msg]);
      [reflexivity | now apply files_kept_same | constructor |].
    left. split; [reflexivity |]. split; [reflexivity |].
    exists msg. split; [tauto | right; now left]. }
  destruct (path_exists p w) eqn:Hp; simpl; [| apply Hbad; now left].
  destruct (String.eqb (lower (suffix p)) ".pdf"); simpl;
    [| apply Hbad; now right].
  destruct (resolve_output_cases a p w1)
    as (evs2 & Ha2 & Hm2 & Hq2 & Hf2 & Hs2 & Hd2).
  destruct (resolve_output a p w1) as [[output_file|e] w2]; simpl in *.
  2:{ exists ([EvExists p true] ++ evs2).
      split; [exact (adds_trans _ _ _ _ _ (adds_record _ w) Ha2) |].
      split; [now apply files_kept_same |].
      split; [simpl; rewrite Hm2; constructor | discriminate]. }
  specialize (Hd2 output_file eq_refl).
  set (m := if verbose a && negb (quiet a) then logger INFO _ else mret tt).
  assert (Hm : exists w3 evs3,
             m w2 = (Ret tt, w3) /\ adds w2 evs3 w3
             /\ markdown_writes evs3 = [] /\ files w3 = files w2
             /\ Forall (fun ev => ~ is_error_log ev) evs3).
  { unfold m. destruct (verbose a && negb (quiet a)).
    - eexists _, [_]. repeat split. repeat constructor. simpl. tauto.
    - exists w2, []. repeat split. constructor. }
  destruct Hm as (w3 & evs3 & -> & Ha3 & Hm3 & Hf3 & Hq3).
  assert (Ha13 : adds w (([EvExists p true] ++ evs2) ++ evs3) w3).
  { exact (adds_trans _ _ _ _ _
             (adds_trans _ _ _ _ _ (adds_record _ w) Ha2) Ha3). }
  assert (Hm13 : markdown_writes (([EvExists p true] ++ evs2) ++ evs3) = []).
  { rewrite !markdown_writes_app, Hm2, Hm3. reflexivity. }
  assert (Hq13 : Forall (fun ev => ~ is_error_log ev)
                        (([EvExists p true] ++ evs2) ++ evs3)).
  { apply Forall_app. split; [| exact Hq3]. apply Forall_app.
    split; [| exact Hq2]. repeat constructor. simpl. tauto. }
  assert (Hk13 : files_kept w w3).
  { apply files_kept_same. now rewrite Hf3, Hf2. }
  destruct (decide (sigint w3 = Some 0)) as [Hs|Hs].
  { rewrite (pdf_to_markdown_interrupted _ _ _ _ Hs). simpl.
    exists (([EvExists p true] ++ evs2) ++ evs3).
    split; [exact Ha13 |]. split; [exact Hk13 |].
    split; [rewrite Hm13; constructor | discriminate]. }
  destruct (pdf_to_markdown_converted p (Some output_file) (negb (simple a))
              w3 Hs) as (r & evs4 & Hc & ->).
  destruct (converted_destination _ _ _ _ _ Hc) as [Hto Hres].
  set (w4 := apply_events evs4 (after_tick w3)).
  assert (Ha4 : adds w ((([EvExists p true] ++ evs2) ++ evs3) ++ evs4) w4).
  { refine (adds_trans _ _ _ _ _ Ha13 _). unfold adds, w4.
    now rewrite apply_events_trace. }
  assert (Hk4 : files_kept w w4).
  { eapply files_kept_trans; [exact Hk13 |].
    eapply files_kept_trans; [| apply files_kept_apply_events].
    now apply files_kept_same. }
  assert (Hm4 : Forall (goes_to a (pdf_file :: rest))
                       (markdown_writes
                          ((([EvExists p true] ++ evs2) ++ evs3) ++ evs4))).
  { rewrite markdown_writes_app, Hm13. simpl.
    eapply Forall_impl; [exact Hto |]. simpl. intros o <-.
    exists pdf_file. split; [now left | exact Hd2]. }
  destruct r as [md|].
  - destruct Hres as (Hlast & Hin4 & Hq4).
    set (m' := if negb (quiet a) then logger SUCCESS _ else mret tt).
    assert (Hm' : exists w5 evs5,
               m' w4 = (Ret tt, w5) /\ adds w4 evs5 w5
               /\ markdown_writes evs5 = [] /\ files w5 = files w4
               /\ Forall (fun ev => ~ is_error_log ev) evs5).
    { unfold m'. destruct (negb (quiet a)).
      - eexists _, [_]. repeat split. repeat constructor. simpl. tauto.
      - exists w4, []. repeat split. constructor. }
    destruct Hm' as (w5 & evs5 & -> & Ha5 & Hm5 & Hf5 & Hq5).
    apply (Hrest _ _ _
             (((([EvExists p true] ++ evs2) ++ evs3) ++ evs4) ++ evs5)).
    + exact (adds_trans _ _ _ _ _ Ha4 Ha5).
    + eapply files_kept_trans; [exact Hk4 | now apply files_kept_same].
    + rewrite markdown_writes_app, Hm5, app_nil_r. exact Hm4.
    + right. split; [reflexivity |]. split; [reflexivity |]. split; [| split].
      * exists output_file. split; [exact Hd2 |].
        rewrite Hf5. unfold w4. rewrite apply_events_files, Hlast. eauto.
      * exists output_file, md. split; [exact Hd2 |].
        apply in_or_app. left. apply in_or_app. now right.
      * apply Forall_app. split; [| exact Hq5].
        apply Forall_app. now split.
  - simpl. unfold logger, emit.
    apply (Hrest _ _ _
             (((([EvExists p true] ++ evs2) ++ evs3) ++ evs4)
              ++ [EvLog ERROR ("Failed to convert " +:+ name p)])).
    + exact (adds_trans _ _ _ _ _ Ha4 (adds_record _ w4)).
    + exact Hk4.
    + rewrite markdown_writes_app, app_nil_r. exact Hm4.
    + left. split; [reflexivity |]. split; [reflexivity |].
      exists ("Failed to convert " +:+ name p). split; [tauto |].
      apply in_or_app. right. now left.
Qed.

(** ** Exit codes *)


Example batch_run_with_failures :
  fst (main 0 (mkArgs ["scan.pdf"; "missing.pdf"; "notes.txt"] None
                 false false true None) album_world)
  = Ret (Some 1%Z).
Proof. vm_compute. reflexivity. Qed.

Example batch_run_all_converted :
  fst (main 0 (mkArgs ["scan.pdf"; "photo.pdf"] None true false false None)
         album_world)
  = Ret (Some 0%Z).
Proof. vm_compute. reflexivity. Qed.


(** X9. When a batch ends with status 0, the destination of each of
    its arguments is a file: the name given with [--output] when it has
    a suffix, that name with [.md] for a single argument, and otherwise
    the stem of the PDF with [.md] in the directory given or in the
    current directory. *)
Theorem status_0_destinations_are_files (fuel : nat) (a : args) (w w' : world) :
  truthy_arg (watch a) = None ->
  main fuel a w = (Ret (Some 0%Z), w') ->
  Forall (landed a w') (map parse_path (pdf a)).
Proof.
  intros Hwatch Hrun. unfold main in Hrun. rewrite Hwatch in Hrun.
  destruct (pdf a) as [|pdf_file rest] eqn:Hargs; [discriminate |].
  rewrite <- Hargs in *. unfold mbind, M_bind in Hrun.
  destruct (convert_files_writes a (pdf a) [] [] w) as (evs & _ & _ & _ & Hret).
  destruct (convert_files a (pdf a) [] [] w) as [[[failed ok]|e] w1];
    [| discriminate].
  simpl in Hret.
  destruct (Hret failed ok eq_refl) as (f & s & -> & -> & Hperm & Hall & _).
  injection Hrun as Hcode <-. simpl in Hcode.
  destruct f as [|x f]; [| discriminate]. simpl in Hperm.
  apply List.Forall_forall. intros p Hin.
  rewrite List.Forall_forall in Hall. apply Hall.
  exact (Permutation_in _ (Permutation_sym Hperm) Hin).
Qed.

Lemma status_0_destinations_are_files_witness :
  Forall (landed album_args (snd (main 0 album_args album_world)))
         (map parse_path (pdf album_args)).
Proof.
  apply (status_0_destinations_are_files 0 album_args album_world).
  - reflexivity.
  - vm_compute. reflexivity.
Defined.

(** X10. With a name for the output that has a suffix, every write of
    Markdown of a batch goes to that one path, whatever the number of
    PDFs: each conversion replaces the Markdown of the one before. *)
Theorem one_output_file_for_all (fuel : nat) (a : args) (w : world)
  (output_name : string) :
  truthy_arg (watch a) = None ->
  truthy_arg (output a) = Some output_name ->
  truthy_str (suffix (parse_path output_name)) = true ->
  exists evs,
    trace (snd (main fuel a w)) = rev evs ++ trace w
    /\ Forall (eq (parse_path output_name)) (markdown_writes evs).
Proof.
  intros Hwatch Hout Hsuf. unfold main. rewrite Hwatch.
  destruct (pdf a) as [|pdf_file rest] eqn:Hargs.
  { exists [EvPrint "PDF file(s) required (or use --watch)"].
    split; [reflexivity | constructor]. }
  rewrite <- Hargs. unfold mbind, M_bind.
  destruct (convert_files_writes a (pdf a) [] [] w) as (evs & Ha & _ & Hto & _).
  exists evs. split.
  - destruct (convert_files a (pdf a) [] [] w) as [[[failed ok]|e] w1];
      exact Ha.
  - eapply Forall_impl; [exact Hto |]. simpl. intros o (s & _ & Hd).
    unfold destination in Hd. rewrite Hout in Hd. simpl in Hd.
    rewrite Hsuf in Hd. congruence.
Qed.

Lemma one_output_file_for_all_witness :
  exists evs,
    trace (snd (main 0 shared_args album_world)) = rev evs ++ trace album_world
    /\ Forall (eq (parse_path "notes.md")) (markdown_writes evs).
Proof.
  apply (one_output_file_for_all 0 shared_args album_world "notes.md");
    reflexivity.
Defined.

(** In [album_world] the two PDFs of [shared_args] are both converted,
    and [notes.md] holds the Markdown of the second. *)
Example shared_output_keeps_the_last :
  fst (main 0 shared_args album_world) = Ret (Some 0%Z)
  /\ files (snd (main 0 shared_args album_world)) !! parse_path "notes.md"
     = Some (TextFile (SEPARATOR +:+ image_reference "image_page1_1.jpeg")).
Proof. split; vm_compute; reflexivity. Qed.

(** ** The watcher before its loop *)

Lemma same_state_listing w1 w2 folder :
  same_state w1 w2 -> listing folder w1 = listing folder w2.
Proof. intros (Hf & Hd & _). unfold listing. now rewrite Hf, Hd. Qed.

Lemma alike_watch_output_dir folder output_path :
  alike (watch_output_dir folder output_path)
        (watch_output_dir folder output_path).
Proof.
  unfold watch_output_dir. destruct (truthy_arg output_path).
  - apply alike_bind; [apply alike_mkdir_parents |]. intros []. apply alike_ret.
  - apply alike_bind; [apply alike_mkdir |]. intros []. apply alike_ret.
Qed.

Lemma watch_output_dir_sigint folder output_path w :
  sigint (snd (watch_output_dir folder output_path w)) = sigint w.
Proof.
  unfold watch_output_dir, mbind, M_bind, mkdir_parents, mkdir.
  destruct (truthy_arg output_path).
  - destruct (forallb _ _); reflexivity.
  - destruct (bool_decide _); [reflexivity |]. destruct (_ || _); reflexivity.
Qed.

(** Ctrl+C that is due stops the scan at the first PDF that has no
    Markdown yet. *)
Lemma scan_existing_interrupted od pres found :
  forall seen w f,
    sigint w = Some 0 -> In f found -> path_exists (md_in od f) w = false ->
    fst (scan_existing od pres found seen w) = Raise KeyboardInterrupt.
Proof.
  induction found as [|h rest IH]; intros seen w f Hs Hin Hmd; [destruct Hin |].
  simpl. unfold mbind, M_bind, exists_.
  destruct (path_exists (md_in od h) w) eqn:Hh; simpl.
  - destruct Hin as [->|Hin]; [congruence |].
    now apply (IH _ _ f).
  - unfold logger, emit, convert_and_report, mbind, M_bind.
    now rewrite pdf_to_markdown_interrupted.
Qed.

(** X11. Ctrl+C that arrives while the watcher converts the PDFs it
    finds at its start is not caught: [watch_folder] raises
    [KeyboardInterrupt] instead of returning, since only the loop that
    follows is inside the [try]. *)
Theorem interrupt_in_scan_escapes (fuel : nat) (folder_path : string)
  (output_path : option string) (pres : bool) (w w1 : world) (od f : Path) :
  sigint w = Some 0 ->
  parse_path folder_path ∈ dirs w ->
  watch_output_dir (parse_path folder_path) output_path w = (Ret od, w1) ->
  In f (listing (parse_path folder_path) w1) ->
  path_exists (md_in od f) w1 = false ->
  fst (watch_folder fuel folder_path output_path pres w)
  = Raise KeyboardInterrupt.
Proof.
  intros Hs Hdir Hout Hin Hmd.
  set (folder := parse_path folder_path) in *.
  unfold watch_folder, watch_setup, mbind, M_bind, exists_, is_dir.
  fold folder.
  assert (Hex : path_exists folder w = true).
  { apply path_exists_spec. now right. }
  rewrite Hex. simpl. rewrite (bool_decide_eq_true_2 _ Hdir). simpl.
  set (w2 := record_event _ (record_event _ w)).
  destruct (alike_watch_output_dir folder output_path w w2 (same_state_refl w))
    as [Hr Hw].
  pose proof (watch_output_dir_sigint folder output_path w2) as Hs2.
  rewrite Hout in Hr, Hw.
  destruct (watch_output_dir folder output_path w2) as [r w3]. simpl in *.
  subst r. unfold logger, emit, glob_pdf.
  set (w4 := record_event _ w3).
  set (w5 := record_event _ w4).
  assert (Hscan : fst (scan_existing od pres (listing folder w4) ∅ w5)
                  = Raise KeyboardInterrupt).
  { apply (scan_existing_interrupted od pres _ ∅ w5 f).
    - simpl. now rewrite Hs2.
    - now rewrite <- (same_state_listing w1 w4 folder Hw).
    - now rewrite <- (same_state_path_exists w1 w5 _ Hw). }
  destruct (scan_existing od pres (listing folder w4) ∅ w5) as [[seen|e] w6];
    simpl in Hscan |- *; [discriminate | now injection Hscan as ->].
Qed.

Lemma interrupt_in_scan_escapes_witness :
  fst (watch_folder 3 "in" None true inbox_world) = Raise KeyboardInterrupt.
Proof.
  apply (interrupt_in_scan_escapes 3 "in" None true inbox_world
           (snd (watch_output_dir (parse_path "in") None inbox_world))
           (parse_path "in/converted") (parse_path "in/scan.pdf")).
  - reflexivity.
  - apply (bool_decide_unpack _). vm_compute. exact I.
  - vm_compute. reflexivity.
  - vm_compute. now left.
  - vm_compute. reflexivity.
Defined.
